(** * ZachLisp: tokenizer, reader and structural hash of [src/read.hpp]

    A shallow embedding of the reader of ZachLisp.  The primary source is
    [src/read.hpp].  The monolithic [src/zachlisp.hpp] holds the same
    tokenizer and reader under other names (its regex writes the WHITESPACE
    and SYMBOL alternatives with a star, and the empty matches that this
    allows make no token); it differs in the hash and equality engine,
    which is embedded separately in [Module ZachLisp], and it alone has
    the printer [prStr], embedded over the forms of that module.

    Conventions of the embedding:
    - [std::string] is [string], [char] is [ascii];
    - [std::size_t] is a 64-bit unsigned integer, a [Z] with the wrap-around
      written out; [long] is a 64-bit signed integer (LP64);
    - a [std::list<Token>::const_iterator] is the suffix of the token list it
      points at, so [tokens->end()] is [[]] and [++it] is the tail;
    - [line] and [column] are [int] in the source and integers here, for
      inputs short enough that an [int] holds their length;
    - an exception leaving a function is the outcome [Throws];
    - loops and the recursion of the reader are driven by a fuel argument;
      the fuel handed out at top level is shown to be enough. *)

From Stdlib Require Import ZArith String Ascii List Lia Bool.
From stdpp Require Import base list sorting.
Import ListNotations.
Local Open Scope Z_scope.

(** ** Outcomes: return, exception, undefined behaviour, fuel *)

Inductive exn : Set :=
| out_of_range          (* std::out_of_range: stol, stod, unordered_map::at *)
| invalid_argument      (* std::invalid_argument: stol, stod *)
| bad_variant_access.   (* std::bad_variant_access: std::get on a variant *)

Inductive outcome (A : Type) : Type :=
| Returns (a : A)
| Throws (e : exn)
| Undefined             (* dereferencing tokens->end() *)
| OutOfFuel.

Arguments Returns {A} a.
Arguments Throws {A} e.
Arguments Undefined {A}.
Arguments OutOfFuel {A}.

Definition bind {A B : Type} (c : outcome A) (k : A -> outcome B) : outcome B :=
  match c with
  | Returns a => k a
  | Throws e => Throws e
  | Undefined => Undefined
  | OutOfFuel => OutOfFuel
  end.

Declare Scope outcome_scope.
Delimit Scope outcome_scope with outcome.
Notation "x <- c ;; k" := (bind c (fun x => k))
  (at level 100, c at next level, right associativity) : outcome_scope.
Local Open Scope outcome_scope.

(** ** zachlisp::token *)

Module type.
(** [enum Type {WHITESPACE, SPECIAL_CHARS, SPECIAL_CHAR, STRING, COMMENT,
    NUMBER, SYMBOL}] *)
Inductive Type_ : Set :=
| WHITESPACE | SPECIAL_CHARS | SPECIAL_CHAR | STRING | COMMENT | NUMBER | SYMBOL.

Definition eqb (a b : Type_) : bool :=
  match a, b with
  | WHITESPACE, WHITESPACE | SPECIAL_CHARS, SPECIAL_CHARS
  | SPECIAL_CHAR, SPECIAL_CHAR | STRING, STRING | COMMENT, COMMENT
  | NUMBER, NUMBER | SYMBOL, SYMBOL => true
  | _, _ => false
  end.
End type.

Module value.
(** [using Value = std::variant<bool, char, long, double, std::string>].
    A [double] is carried as its IEEE-754 binary64 bit pattern. *)
Inductive Value : Set :=
| BOOL (b : bool)
| CHAR (c : ascii)
| LONG (n : Z)
| DOUBLE (bits : Z)
| STRING (s : string).
End value.

Record Token : Set := mkToken {
  value : value.Value;
  type : type.Type_;
  line : Z;
  column : Z
}.

(** [std::get<char>] and [std::get<std::string>] on a token value. *)
Definition get_char (v : value.Value) : outcome ascii :=
  match v with value.CHAR c => Returns c | _ => Throws bad_variant_access end.

Definition get_string (v : value.Value) : outcome string :=
  match v with value.STRING s => Returns s | _ => Throws bad_variant_access end.

(** *** Character classes of [REGEX] *)

Definition char_in (c : ascii) (cs : list ascii) : bool :=
  existsb (Ascii.eqb c) cs.
Arguments char_in : simpl never.

(** [\s] in the classic locale: space, \t, \n, \v, \f, \r. *)
Definition is_space (c : ascii) : bool :=
  char_in c [" "; "009"; "010"; "011"; "012"; "013"]%char.

(** [\d] *)
Definition is_digit (c : ascii) : bool :=
  let n := N_of_ascii c in ((48 <=? n) && (n <=? 57))%N.

(** [.] of an ECMAScript regex: anything but a line terminator. *)
Definition is_line_terminator (c : ascii) : bool :=
  char_in c ["010"; "013"]%char.

Definition dquote : ascii := "034"%char.
Definition backslash : ascii := "092"%char.

(** [[\s,]] *)
Definition whitespace_class (c : ascii) : bool :=
  is_space c || Ascii.eqb c ","%char.

(** [[\[\]{}()'`~^@]] *)
Definition special_char_class (c : ascii) : bool :=
  char_in c ["["; "]"; "{"; "}"; "("; ")"; "'"; "`"; "~"; "^"; "@"]%char.

(** The negated class of the SYMBOL alternative: anything but [\s], the
    brackets [[ ] { } ( )], the quote, the double quote, the backquote, the
    comma and the semicolon. *)
Definition symbol_class (c : ascii) : bool :=
  negb (is_space c
        || char_in c ["["; "]"; "{"; "}"; "("; "'"; dquote; "`"; ","; ";"; ")"]%char).

(** The longest prefix whose characters satisfy [p] (a greedy repetition of [p]), and
    what follows it. *)
Fixpoint span (p : ascii -> bool) (s : string) : string * string :=
  match s with
  | EmptyString => (EmptyString, EmptyString)
  | String c r =>
      if p c then let '(m, rest) := span p r in (String c m, rest)
      else (EmptyString, s)
  end.

Definition nonempty_match (r : string * string) : option (string * string) :=
  match fst r with
  | EmptyString => None
  | _ => Some r
  end.

(** The seven alternatives of [REGEX], each tried at the start of [s]: the
    matched text and the rest of the input. *)

(** [([\s,]+)] *)
Definition match_whitespace (s : string) : option (string * string) :=
  nonempty_match (span whitespace_class s).

(** [(~@|#\{)] *)
Definition match_special_chars (s : string) : option (string * string) :=
  match s with
  | String c1 (String c2 r) =>
      if Ascii.eqb c1 "~" && Ascii.eqb c2 "@" then Some ("~@"%string, r)
      else if Ascii.eqb c1 "#" && Ascii.eqb c2 "{" then Some ("#{"%string, r)
      else None
  | _ => None
  end.

(** [([\[\]{}()'`~^@])] *)
Definition match_special_char (s : string) : option (string * string) :=
  match s with
  | String c r =>
      if special_char_class c then Some (String c EmptyString, r) else None
  | EmptyString => None
  end.

(** The body of a string literal, a greedy repetition of: a backslash
    followed by any character but a line terminator, or one character that
    is neither a backslash nor a double quote. *)
Fixpoint string_body (s : string) : string * string :=
  match s with
  | EmptyString => (EmptyString, EmptyString)
  | String c r =>
      if Ascii.eqb c backslash then
        match r with
        | String c' r' =>
            if is_line_terminator c' then (EmptyString, s)
            else let '(m, rest) := string_body r' in
                 (String c (String c' m), rest)
        | EmptyString => (EmptyString, s)
        end
      else if Ascii.eqb c dquote then (EmptyString, s)
      else let '(m, rest) := string_body r in (String c m, rest)
  end.

(** The STRING alternative: a double quote, the body, and the closing
    double quote when there is one. *)
Definition match_string (s : string) : option (string * string) :=
  match s with
  | String c r =>
      if Ascii.eqb c dquote then
        let '(m, rest) := string_body r in
        match rest with
        | String c' rest' =>
            if Ascii.eqb c' dquote
            then Some (String c (String.append m (String c' EmptyString)), rest')
            else Some (String c m, rest)
        | EmptyString => Some (String c m, rest)
        end
      else None
  | EmptyString => None
  end.

(** The COMMENT alternative: a semicolon and the rest of the line. *)
Definition match_comment (s : string) : option (string * string) :=
  match s with
  | String c r =>
      if Ascii.eqb c ";" then
        let '(m, rest) := span (fun c => negb (is_line_terminator c)) r in
        Some (String c m, rest)
      else None
  | EmptyString => None
  end.

(** The NUMBER alternative: digits, at most one dot, and more digits. *)
Definition match_number (s : string) : option (string * string) :=
  match nonempty_match (span is_digit s) with
  | None => None
  | Some (int_part, rest) =>
      match rest with
      | String c rest' =>
          if Ascii.eqb c "." then
            let '(frac, rest'') := span is_digit rest' in
            Some (String.append int_part (String c frac), rest'')
          else Some (int_part, rest)
      | EmptyString => Some (int_part, rest)
      end
  end.

(** The SYMBOL alternative: a non-empty run of [symbol_class]. *)
Definition match_symbol (s : string) : option (string * string) :=
  nonempty_match (span symbol_class s).

(** The alternation: the first alternative that matches at the start of [s]
    wins; its position in the regex is the token type. *)
Definition regex_match_here (s : string) : option (type.Type_ * (string * string)) :=
  match match_whitespace s with Some m => Some (type.WHITESPACE, m) | None =>
  match match_special_chars s with Some m => Some (type.SPECIAL_CHARS, m) | None =>
  match match_special_char s with Some m => Some (type.SPECIAL_CHAR, m) | None =>
  match match_string s with Some m => Some (type.STRING, m) | None =>
  match match_comment s with Some m => Some (type.COMMENT, m) | None =>
  match match_number s with Some m => Some (type.NUMBER, m) | None =>
  match match_symbol s with Some m => Some (type.SYMBOL, m) | None =>
  None end end end end end end end.

(** *** Number conversions *)

Definition LONG_MAX : Z := 2 ^ 63 - 1.
Definition LONG_MIN : Z := - 2 ^ 63.

Definition digit_value (c : ascii) : Z := Z.of_N (N_of_ascii c) - 48.

(** The decimal value of a string of digits, most significant first. *)
Fixpoint decimal_value (acc : Z) (digits : string) : Z :=
  match digits with
  | EmptyString => acc
  | String c r => decimal_value (10 * acc + digit_value c) r
  end.

(** [std::stol(str)] in base 10: leading white space is skipped, an optional
    sign and the longest run of digits are read; no digit at all is
    [std::invalid_argument], a value that does not fit a [long] is
    [std::out_of_range]. *)
Definition stol (str : string) : outcome Z :=
  let s1 := snd (span is_space str) in
  let signed :=
    match s1 with
    | String c r =>
        if Ascii.eqb c "-" then (true, r)
        else if Ascii.eqb c "+" then (false, r)
        else (false, s1)
    | EmptyString => (false, s1)
    end in
  let digits := fst (span is_digit (snd signed)) in
  match digits with
  | EmptyString => Throws invalid_argument
  | _ =>
      let n := decimal_value 0 digits in
      let v := if fst signed then - n else n in
      if (LONG_MIN <=? v) && (v <=? LONG_MAX) then Returns v
      else Throws out_of_range
  end.

(** [s.back()], for a string that is not empty. *)
Fixpoint back (s : string) : ascii :=
  match s with
  | EmptyString => zero
  | String c EmptyString => c
  | String _ r => back r
  end.

(** [value.find('.') == std::string::npos] *)
Fixpoint has_dot (s : string) : bool :=
  match s with
  | EmptyString => false
  | String c r => Ascii.eqb c "."%char || has_dot r
  end.

(** [std::count(value_str.begin(), value_str.end(), '\n')] *)
Fixpoint count_newlines (s : string) : Z :=
  match s with
  | EmptyString => 0
  | String c r => (if Ascii.eqb c "010"%char then 1 else 0) + count_newlines r
  end.

(** ** zachlisp::form *)

Record Special : Set := mkSpecial {
  name : string;
  message : string;
  token : option Token
}.

(** [form::Form], the variant over [Special], [token::Token], the list, the
    vector, the shared map and the shared set.  A [FormWrapper] wraps one
    [Form] and is identified with it.  An unordered container is the
    sequence of its elements, one per key; [src/read.hpp] observes it only
    through [hash], which sorts, so the order of the sequence is immaterial
    (see [hash_FMap_iteration_order] and [hash_FSet_iteration_order]). *)
#[local] Unset Elimination Schemes.
Inductive Form : Set :=
| FSpecial (s : Special)
| FToken (t : Token)
| FList (l : list Form)
| FVector (v : list Form)
| FMap (m : list (Form * Form))
| FSet (s : list Form).
#[local] Set Elimination Schemes.

Definition FormWrapperMap : Set := list (Form * Form).
Definition FormWrapperSet : Set := list Form.

Module form.
(** [enum Type {SPECIAL, TOKEN, LIST, VECTOR, MAP, SET}] *)
Inductive Type_ : Set := SPECIAL | TOKEN | LIST | VECTOR | MAP | SET.

(** [fw.form.index()] *)
Definition index (f : Form) : Type_ :=
  match f with
  | FSpecial _ => SPECIAL
  | FToken _ => TOKEN
  | FList _ => LIST
  | FVector _ => VECTOR
  | FMap _ => MAP
  | FSet _ => SET
  end.
End form.

(** An induction principle that reaches the forms nested in the containers. *)
Section Form_ind_nested.
Variable P : Form -> Prop.
Hypothesis HSpecial : forall s, P (FSpecial s).
Hypothesis HToken : forall t, P (FToken t).
Hypothesis HList : forall l, Forall P l -> P (FList l).
Hypothesis HVector : forall v, Forall P v -> P (FVector v).
Hypothesis HMap :
  forall m, Forall (fun e => P (fst e) /\ P (snd e)) m -> P (FMap m).
Hypothesis HSet : forall s, Forall P s -> P (FSet s).

End Form_ind_nested.

(** ** The C++ standard library as the program uses it

    [std::stod] and the [std::hash] specialisations are implementation
    defined; they are parameters of the development.  [stod] returns the bit
    pattern of the [double], or [None] where it throws [std::out_of_range]
    (the NUMBER alternative starts with a digit, which rules out
    [std::invalid_argument]). *)
Record StdLib : Type := mkStdLib {
  stod : string -> option Z;
  std_hash_Value : value.Value -> Z;   (* std::hash<value::Value> *)
  std_hash_string : string -> Z;       (* std::hash<std::string> *)
  std_hash_size_t : Z -> Z             (* std::hash<std::size_t> *)
}.

Section Reader.

Variable std : StdLib.

(** *** [token::parse] and [token::tokenize]

    In the branch of a NUMBER with a dot, [std::stod] can also throw
    [std::invalid_argument], on a text that does not start with a number.
    [tokenize], the only caller of [parse], passes a match of the NUMBER
    alternative, which starts with a digit; the branch is embedded for
    such texts. *)

Definition parse (value : string) (ty : type.Type_) : outcome value.Value :=
  match ty with
  | type.SPECIAL_CHAR =>
      Returns (value.CHAR
                 match value with String c _ => c | EmptyString => zero end)
  | type.NUMBER =>
      if negb (has_dot value) then
        n <- stol value ;; Returns (value.LONG n)
      else
        match stod std value with
        | Some bits => Returns (value.DOUBLE bits)
        | None => Throws out_of_range
        end
  | type.SYMBOL =>
      if String.eqb value "true" then Returns (value.BOOL true)
      else if String.eqb value "false" then Returns (value.BOOL false)
      else Returns (value.STRING value)
  | _ => Returns (value.STRING value)
  end.

(** The loop of [tokenize] over the matches of [std::sregex_iterator].  The
    search resumes where the previous match ended; where no alternative
    matches, [regex_search] moves on by one character.  [position] is
    [match.position()] of a match starting at [s].

    In the source [column] and [line] are [int]: [column] is narrowed from
    the [ptrdiff_t] of [match.position() + 1], and [line] from its sum with
    the [ptrdiff_t] of [std::count].  The integers computed here are those
    of the source as long as they stay within [int], that is on an input of
    less than [2^31 - 1] characters; a statement about lines and columns
    takes this bound as a hypothesis. *)
Fixpoint tokenize_from (fuel : nat) (s : string) (position line : Z)
  : outcome (list Token) :=
  match fuel with
  | O => OutOfFuel
  | S fuel' =>
      match s with
      | EmptyString => Returns []
      | String _ r =>
          match regex_match_here s with
          | None => tokenize_from fuel' r (position + 1) line
          | Some (ty, (value_str, rest)) =>
              value <- parse value_str ty ;;
              let column := position + 1 in
              tokens <- tokenize_from fuel' rest
                          (position + Z.of_nat (String.length value_str))
                          (line + count_newlines value_str) ;;
              Returns (mkToken value ty line column :: tokens)
          end
      end
  end.

Definition tokenize (input : string) : outcome (list Token) :=
  tokenize_from (S (String.length input)) input 0 1.

(** *** Structural hash and equality *)

(** Arithmetic on [std::size_t] wraps modulo [2^64]. *)
Definition size_t (z : Z) : Z := z mod 2 ^ 64.

(** One step of [hash_combine]:
    [seed ^= hasher(v) + 0x9e3779b9 + (seed<<6) + (seed>>2)],
    where [h] is [hasher(v)]. *)
Definition hash_combine (seed h : Z) : Z :=
  Z.lxor seed
    (size_t (h + 0x9e3779b9 + size_t (Z.shiftl seed 6) + Z.shiftr seed 2)).

(** The closing loop shared by the two unordered hashes:
    [for (auto hash : hashes) hash_combine(ret, hash)] on the sorted
    vector. *)
Definition combine_sorted (hashes : list Z) : Z :=
  fold_left (fun ret h => hash_combine ret (size_t (std_hash_size_t std h)))
    (merge_sort Z.le hashes) 0.

(** [form::hash]: the dispatch of [hash(const FormWrapper &)] with the three
    overloads it calls: the template for the ordered containers, the one for
    sets and the one for maps. *)
Fixpoint hash (fw : Form) : Z :=
  match fw with
  | FSpecial x => size_t (std_hash_string std (message x))
  | FToken x => size_t (std_hash_Value std (value x))
  | FList list =>
      fold_left (fun ret item => hash_combine ret (hash item)) list 0
  | FVector list =>
      fold_left (fun ret item => hash_combine ret (hash item)) list 0
  | FMap map =>
      combine_sorted
        (List.map (fun item : Form * Form =>
                     let '(first, second) := item in
                     hash_combine (hash_combine 0 (hash first)) (hash second))
           map)
  | FSet set => combine_sorted (List.map hash set)
  end.

(** [form::equals]: [return hash(fw1) == hash(fw2);] *)
Definition equals (fw1 fw2 : Form) : bool := hash fw1 =? hash fw2.

(** *** The unordered containers

    [insert] adds the element unless the container already holds an
    equivalent key, equivalence being [FormWrapperEquality], that is
    [equals].  The hint iterator does not change the outcome. *)
Definition map_insert (m : FormWrapperMap) (kv : Form * Form) : FormWrapperMap :=
  if existsb (fun e => equals (fst e) (fst kv)) m then m else m ++ [kv].

Definition set_insert (s : FormWrapperSet) (item : Form) : FormWrapperSet :=
  if existsb (fun e => equals e item) s then s else s ++ [item].

(** *** The constant tables *)

Definition at_ {K V : Type} (table : K -> option V) (key : K) : outcome V :=
  match table key with
  | Some v => Returns v
  | None => Throws out_of_range
  end.

Definition SYMBOL_TO_NAME (key : ascii + string) : option string :=
  match key with
  | inl c =>
      if Ascii.eqb c "'" then Some "quote"%string
      else if Ascii.eqb c "`" then Some "quasiquote"%string
      else if Ascii.eqb c "~" then Some "unquote"%string
      else if Ascii.eqb c "@" then Some "deref"%string
      else if Ascii.eqb c "^" then Some "with-meta"%string
      else None
  | inr s => if String.eqb s "~@" then Some "splice-unquote"%string else None
  end.

Definition DELIMITER_TO_TYPE (key : ascii + string) : option form.Type_ :=
  match key with
  | inl c =>
      if Ascii.eqb c "(" then Some form.LIST
      else if Ascii.eqb c "[" then Some form.VECTOR
      else if Ascii.eqb c "{" then Some form.MAP
      else None
  | inr s => if String.eqb s "#{" then Some form.SET else None
  end.

Definition TYPE_TO_DELIMITER (key : form.Type_) : option ascii :=
  match key with
  | form.LIST => Some ")"%char
  | form.VECTOR => Some "]"%char
  | form.MAP => Some "}"%char
  | form.SET => Some "}"%char
  | _ => None
  end.

(** *** Building the collections *)

Definition ReaderError (message : string) (token : option Token) : Form :=
  FSpecial (mkSpecial "ReaderError" message token).

Definition list_to_vector (list : list Form) : Form := FVector list.

(** The loop of [list_to_map]: [list_it] walks the list two forms at a time
    and [m] is the map built so far. *)
Fixpoint list_to_map_from (list_it : list Form) (m : FormWrapperMap) : Form :=
  match list_it with
  | [] => FMap m
  | key :: list_it' =>
      match list_it' with
      | [] => ReaderError "Map must contain even number of forms" None
      | val :: list_it'' => list_to_map_from list_it'' (map_insert m (key, val))
      end
  end.

Definition list_to_map (list : list Form) : Form := list_to_map_from list [].

Definition list_to_set (list : list Form) : Form :=
  FSet (fold_left set_insert list []).

(** *** The recursive-descent reader *)

Fixpoint read_useful_token (it : list Token) : option (Token * list Token) :=
  match it with
  | [] => None
  | token :: it' =>
      match type token with
      | type.WHITESPACE | type.COMMENT => read_useful_token it'
      | _ => Some (token, it)
      end
  end.

Definition Cursor : Set := list Token.
Definition reads : Type := Cursor -> outcome (Form * Cursor).

(** The functions around [read_form], over the [read_form] they call. *)

Definition read_useful_form_ (read_form : reads) (it : Cursor)
  : outcome (option (Form * Cursor)) :=
  match read_useful_token it with
  | Some ret => r <- read_form (snd ret) ;; Returns (Some r)
  | None => Returns None
  end.

Definition expand_quoted_form_ (read_form : reads) (it : Cursor) (token : Token)
  : outcome (Form * Cursor) :=
  ret_opt <- read_useful_form_ read_form it ;;
  match ret_opt with
  | Some ret => Returns (FList [FToken token; fst ret], snd ret)
  | None => Returns (ReaderError "EOF: Nothing found after quote" (Some token), [])
  end.

Definition expand_meta_quoted_form_ (read_form : reads) (it : Cursor) (token : Token)
  : outcome (Form * Cursor) :=
  ret_opt <- read_useful_form_ read_form it ;;
  match ret_opt with
  | Some ret =>
      ret_opt2 <- read_useful_form_ read_form (snd ret) ;;
      match ret_opt2 with
      | Some ret2 => Returns (FList [FToken token; fst ret2; fst ret], snd ret2)
      | None =>
          Returns (ReaderError "EOF: Nothing found after metadata" (Some token), [])
      end
  | None => Returns (ReaderError "EOF: Nothing found after ^" (Some token), [])
  end.

(** What [read_coll] returns on its closing delimiter. *)
Definition close_coll (form_type : form.Type_) (forms : list Form) : Form :=
  match form_type with
  | form.VECTOR => list_to_vector forms
  | form.MAP => list_to_map forms
  | form.SET => list_to_set forms
  | _ => FList forms
  end.

Definition char_string (c : ascii) : string := String c EmptyString.

(** [read_coll] before its loop. *)
Definition read_coll_
    (loop : Cursor -> list Form -> form.Type_ -> ascii -> outcome (Form * Cursor))
    (it : Cursor) (form_type : form.Type_) : outcome (Form * Cursor) :=
  end_delimiter <- at_ TYPE_TO_DELIMITER form_type ;;
  loop it [] form_type end_delimiter.

(** [read_form], and the [while] loop of [read_coll] with the forms read so
    far in [forms]. *)
Fixpoint read_form (fuel : nat) (it : Cursor) {struct fuel}
  : outcome (Form * Cursor) :=
  match fuel with
  | O => OutOfFuel
  | S fuel' =>
      match it with
      | [] => Undefined
      | token :: next =>
          let symbol name := mkToken (value.STRING name) type.SYMBOL
                               (line token) (column token) in
          match type token with
          | type.SPECIAL_CHARS =>
              s <- get_string (value token) ;;
              if String.eqb s "#{" then
                form_type <- at_ DELIMITER_TO_TYPE (inr s) ;;
                read_coll_ (read_coll_loop fuel') next form_type
              else if String.eqb s "~@" then
                name <- at_ SYMBOL_TO_NAME (inr s) ;;
                expand_quoted_form_ (read_form fuel') next (symbol name)
              else Returns (FToken token, next)
          | type.SPECIAL_CHAR =>
              c <- get_char (value token) ;;
              if char_in c ["("; "["; "{"]%char then
                form_type <- at_ DELIMITER_TO_TYPE (inl c) ;;
                read_coll_ (read_coll_loop fuel') next form_type
              else if char_in c [")"; "]"; "}"]%char then
                Returns (ReaderError
                           (String.append "Unmatched delimiter: " (char_string c))
                           (Some token), [])
              else if char_in c ["'"; "`"; "~"; "@"]%char then
                name <- at_ SYMBOL_TO_NAME (inl c) ;;
                expand_quoted_form_ (read_form fuel') next (symbol name)
              else if Ascii.eqb c "^" then
                name <- at_ SYMBOL_TO_NAME (inl c) ;;
                expand_meta_quoted_form_ (read_form fuel') next (symbol name)
              else Returns (FToken token, next)
          | type.STRING =>
              s <- get_string (value token) ;;
              if (String.length s <? 2)%nat
                 || negb (Ascii.eqb (back s) dquote) then
                Returns (ReaderError "EOF: unbalanced quote" (Some token), [])
              else
                Returns
                  (FToken (mkToken
                             (value.STRING (substring 1 (String.length s - 2) s))
                             (type token) (line token) (column token)),
                   next)
          | _ => Returns (FToken token, next)
          end
      end
  end

with read_coll_loop (fuel : nat) (it : Cursor) (forms : list Form)
       (form_type : form.Type_) (end_delimiter : ascii) {struct fuel}
  : outcome (Form * Cursor) :=
  match fuel with
  | O => OutOfFuel
  | S fuel' =>
      match read_useful_token it with
      | None =>
          Returns (ReaderError
                     (String.append "EOF: no "
                        (String.append (char_string end_delimiter) " found"))
                     None, [])
      | Some (token, it) =>
          let read_on :=
            ret2 <- read_form fuel' it ;;
            read_coll_loop fuel' (snd ret2) (forms ++ [fst ret2])
              form_type end_delimiter in
          match type token with
          | type.SPECIAL_CHAR =>
              c <- get_char (value token) ;;
              if Ascii.eqb c end_delimiter then
                Returns (close_coll form_type forms, tl it)
              else if char_in c [")"; "]"; "}"]%char then
                Returns (ReaderError
                           (String.append "Unmatched delimiter: " (char_string c))
                           (Some token), [])
              else read_on
          | _ => read_on
          end
      end
  end.

Definition read_coll (fuel : nat) : Cursor -> form.Type_ -> outcome (Form * Cursor) :=
  read_coll_ (read_coll_loop fuel).
Definition read_useful_form (fuel : nat) : Cursor -> outcome (option (Form * Cursor)) :=
  read_useful_form_ (read_form fuel).
Definition expand_quoted_form (fuel : nat) : Cursor -> Token -> outcome (Form * Cursor) :=
  expand_quoted_form_ (read_form fuel).
Definition expand_meta_quoted_form (fuel : nat) : Cursor -> Token -> outcome (Form * Cursor) :=
  expand_meta_quoted_form_ (read_form fuel).

(** The loop of [read_forms]. *)
Fixpoint read_forms_loop (fuel : nat) (it : Cursor) (forms : list Form)
  : outcome (list Form) :=
  match fuel with
  | O => OutOfFuel
  | S fuel' =>
      ret_opt <- read_useful_form fuel' it ;;
      match ret_opt with
      | Some ret => read_forms_loop fuel' (snd ret) (forms ++ [fst ret])
      | None => Returns forms
      end
  end.

(** Two units of fuel per token carry the reader to the end of the stream
    (see [read_forms_terminates]). *)
Definition read_forms (tokens : list Token) : outcome (list Form) :=
  read_forms_loop (2 * length tokens + 2) tokens [].

Definition read (input : string) : outcome (list Form) :=
  tokens <- tokenize input ;;
  read_forms tokens.

End Reader.

(** ** Vocabulary of the statements *)

(** The body of a map literal whose entries are [ps], and back. *)
Fixpoint map_body (ps : list (Form * Form)) : list Form :=
  match ps with
  | [] => []
  | (k, v) :: r => k :: v :: map_body r
  end.

Fixpoint pairs (body : list Form) : list (Form * Form) :=
  match body with
  | k :: v :: r => (k, v) :: pairs r
  | _ => []
  end.

(** No two entries of [ps] have keys that the map takes for the same key. *)
Fixpoint distinct_keys (std : StdLib) (ps : list (Form * Form)) : bool :=
  match ps with
  | [] => true
  | (k, _) :: r =>
      forallb (fun e => negb (equals std k (fst e))) r && distinct_keys std r
  end.

(** The first entry of [ps] whose key the map takes for [k]. *)
Definition lookup_key (std : StdLib) (k : Form) (ps : list (Form * Form))
  : option (Form * Form) :=
  List.find (fun e => equals std (fst e) k) ps.





(** [needle] occurs in [hay]. *)
Fixpoint mentions (needle hay : string) : bool :=
  String.prefix needle hay
  || match hay with
     | EmptyString => false
     | String _ r => mentions needle r
     end.

Definition is_close_delimiter (c : ascii) : bool :=
  char_in c [")"; "]"; "}"]%char.

(** The closing delimiter token [c]. *)
Definition closes (token : Token) (c : ascii) : Prop :=
  type token = type.SPECIAL_CHAR /\ value token = value.CHAR c
  /\ is_close_delimiter c = true.

(** The two errors of [read_coll]. *)
Definition unmatched_delimiter (token : Token) (c : ascii) : Form :=
  ReaderError (String.append "Unmatched delimiter: " (char_string c)) (Some token).

Definition eof_no_delimiter (end_delimiter : ascii) : Form :=
  ReaderError
    (String.append "EOF: no " (String.append (char_string end_delimiter) " found"))
    None.

(** The quote sugar: the tokens ['], [`], [~], [@] and [~@] with the name
    each expands to. *)
Definition quote_sugar (token : Token) : option string :=
  match type token, value token with
  | type.SPECIAL_CHAR, value.CHAR c =>
      if Ascii.eqb c "'" then Some "quote"%string
      else if Ascii.eqb c "`" then Some "quasiquote"%string
      else if Ascii.eqb c "~" then Some "unquote"%string
      else if Ascii.eqb c "@" then Some "deref"%string
      else None
  | type.SPECIAL_CHARS, value.STRING s =>
      if String.eqb s "~@" then Some "splice-unquote"%string else None
  | _, _ => None
  end.

(** The symbol token an expansion puts in front, at the place of the sugar
    token. *)
Definition symbol_at (token : Token) (name : string) : Token :=
  mkToken (value.STRING name) type.SYMBOL (line token) (column token).

(** The alternative held by a token value agrees with the token type, as
    [parse] makes it. *)
Definition well_typed (token : Token) : bool :=
  match type token, value token with
  | type.SPECIAL_CHAR, value.CHAR _ => true
  | type.SPECIAL_CHAR, _ => false
  | type.SPECIAL_CHARS, value.STRING _ => true
  | type.SPECIAL_CHARS, _ => false
  | type.STRING, value.STRING _ => true
  | type.STRING, _ => false
  | _, _ => true
  end.

(** The hashes of the keys of a map, in the order of the sequence. *)
Definition key_hashes (std : StdLib) (m : FormWrapperMap) : list Z :=
  List.map (fun e => hash std (fst e)) m.

Definition all_well_typed (it : Cursor) : Prop :=
  Forall (fun t => well_typed t = true) it.

(** A reader error that carries a token. *)
Definition carries_token (f : Form) : bool :=
  match f with
  | FSpecial s => match token s with Some _ => true | None => false end
  | _ => false
  end.

(** What the induction on the fuel carries: on well-typed tokens and with
    two units of fuel per token, [read_form] and the loop of [read_coll]
    return, and the cursor they return is further down the stream. *)
Definition read_form_returns (std : StdLib) (fuel : nat) : Prop :=
  forall it : Cursor,
    all_well_typed it -> it <> [] -> (2 * length it <= fuel)%nat ->
    exists f it',
      read_form std fuel it = Returns (f, it')
      /\ (length it' < length it)%nat /\ it' `suffix_of` it.

Definition read_coll_loop_returns (std : StdLib) (fuel : nat) : Prop :=
  forall (it : Cursor) (forms : list Form) (form_type : form.Type_)
         (end_delimiter : ascii),
    all_well_typed it -> (2 * length it + 1 <= fuel)%nat ->
    exists f it',
      read_coll_loop std fuel it forms form_type end_delimiter = Returns (f, it')
      /\ it' `suffix_of` it.

(** A closing delimiter token. *)
Definition closing_token (token : Token) : bool :=
  match type token, value token with
  | type.SPECIAL_CHAR, value.CHAR c => is_close_delimiter c
  | _, _ => false
  end.

Definition no_closing_token (it : Cursor) : Prop :=
  Forall (fun t => closing_token t = false) it.

(** ** A sample standard library

    One instance of [StdLib], in the style of libstdc++, on which the
    definitions can be run: the hash of a variant is its index plus the hash
    of what it holds, the hash of an integer is the integer.  Its [stod] is
    a stand-in that never throws.  The statements below hold for every
    [StdLib]. *)

(** FNV-1a on 64 bits, standing for [std::hash<std::string>]. *)
Fixpoint fnv1a (h : Z) (s : string) : Z :=
  match s with
  | EmptyString => h
  | String c r =>
      fnv1a (size_t (Z.lxor h (Z.of_N (N_of_ascii c)) * 0x100000001b3)) r
  end.

Definition sample_std : StdLib := {|
  stod := fun s => Some (decimal_value 0 (fst (span is_digit s)));
  std_hash_Value := fun v =>
    match v with
    | value.BOOL b => if b then 1 else 0
    | value.CHAR c => 1 + Z.of_N (N_of_ascii c)
    | value.LONG n => 2 + n
    | value.DOUBLE bits => 3 + bits
    | value.STRING s => 4 + fnv1a 0xcbf29ce484222325 s
    end;
  std_hash_string := fnv1a 0xcbf29ce484222325;
  std_hash_size_t := fun h => h
|}.

(** Tokens of the examples. *)
Definition tok_char (c : ascii) (col : Z) : Token :=
  mkToken (value.CHAR c) type.SPECIAL_CHAR 1 col.
Definition tok_long (n col : Z) : Token :=
  mkToken (value.LONG n) type.NUMBER 1 col.
Definition tok_symbol (s : string) (col : Z) : Token :=
  mkToken (value.STRING s) type.SYMBOL 1 col.
Definition tok_space (col : Z) : Token :=
  mkToken (value.STRING " ") type.WHITESPACE 1 col.

(** ** The hash and equality engine of [src/zachlisp.hpp]

    The monolithic file has the same tokenizer and reader; its hash folds a
    map and a set in the order the container iterates, without sorting, and
    its [equals] is [fw1.form == fw2.form], the comparison of the variants.
    Two [std::shared_ptr] compare by address, so a map or a set carries the
    address it was allocated at, and its elements in iteration order. *)
Module ZachLisp.

Record ReaderError : Set := mkReaderError {
  message : string;
  token : option Token
}.

#[local] Unset Elimination Schemes.
Inductive Form : Set :=
| FReaderError (e : ReaderError)
| FToken (t : Token)
| FList (l : list Form)
| FVector (v : list Form)
| FMap (address : positive) (m : list (Form * Form))
| FSet (address : positive) (s : list Form).
#[local] Set Elimination Schemes.

Section Hash.
Variable std : StdLib.

Fixpoint hash (fw : Form) : Z :=
  let hashColl := fold_left (fun ret item => hash_combine ret (hash item)) in
  match fw with
  | FReaderError x => size_t (std_hash_string std (message x))
  | FToken x => size_t (std_hash_Value std (value x))
  | FList list => hashColl list 0
  | FVector vector => hashColl vector 0
  | FMap _ map =>
      (* hashMap *)
      fold_left (fun ret item =>
                   let '(first, second) := item in
                   hash_combine (hash_combine ret (hash first)) (hash second))
        map 0
  | FSet _ set => hashColl set 0
  end.

End Hash.

(** [operator==] of [double], on bit patterns: a NaN equals nothing and
    the two zeros are equal. *)
Definition double_eqb (a b : Z) : bool :=
  let is_nan x :=
    (Z.land (Z.shiftr x 52) 0x7ff =? 0x7ff) && negb (Z.land x 0xfffffffffffff =? 0) in
  let is_zero x := Z.land x 0x7fffffffffffffff =? 0 in
  if is_nan a || is_nan b then false
  else if is_zero a && is_zero b then true
  else a =? b.

(** [operator==] of [value::Value]. *)
Definition value_eqb (a b : value.Value) : bool :=
  match a, b with
  | value.BOOL x, value.BOOL y => Bool.eqb x y
  | value.CHAR x, value.CHAR y => Ascii.eqb x y
  | value.LONG x, value.LONG y => x =? y
  | value.DOUBLE x, value.DOUBLE y => double_eqb x y
  | value.STRING x, value.STRING y => String.eqb x y
  | _, _ => false
  end.

(** [Token::operator==]: the value and the type, not the position. *)
Definition token_eqb (a b : Token) : bool :=
  value_eqb (value a) (value b) && type.eqb (type a) (type b).

(** [ReaderError::operator==] *)
Definition reader_error_eqb (a b : ReaderError) : bool :=
  String.eqb (message a) (message b)
  && match token a, token b with
     | Some x, Some y => token_eqb x y
     | None, None => true
     | _, _ => false
     end.

(** [form::equals]: [return fw1.form == fw2.form;] *)
Fixpoint equals (fw1 fw2 : Form) : bool :=
  let fix all2 (l1 l2 : list Form) : bool :=
    match l1, l2 with
    | [], [] => true
    | x :: r1, y :: r2 => equals x y && all2 r1 r2
    | _, _ => false
    end in
  match fw1, fw2 with
  | FReaderError x, FReaderError y => reader_error_eqb x y
  | FToken x, FToken y => token_eqb x y
  | FList x, FList y => all2 x y
  | FVector x, FVector y => all2 x y
  | FMap p _, FMap q _ => Pos.eqb p q
  | FSet p _, FSet q _ => Pos.eqb p q
  | _, _ => false
  end.

(** [unordered_map::insert] with [FormWrapperEquality], that is with
    [equals]: nothing is added when the map holds an equal key. *)
Definition map_insert (m : list (Form * Form)) (kv : Form * Form)
  : list (Form * Form) :=
  if existsb (fun e => equals (fst e) (fst kv)) m then m else m ++ [kv].



(** The forms of a map literal with the pairs [ps]. *)
Fixpoint map_body (ps : list (Form * Form)) : list Form :=
  match ps with
  | [] => []
  | (k, v) :: r => k :: v :: map_body r
  end.

Section Form_ind_lists.
Variable P : Form -> Prop.
Hypothesis HReaderError : forall e, P (FReaderError e).
Hypothesis HToken : forall t, P (FToken t).
Hypothesis HList : forall l, Forall P l -> P (FList l).
Hypothesis HVector : forall v, Forall P v -> P (FVector v).
Hypothesis HMap : forall a m, P (FMap a m).
Hypothesis HSet : forall a s, P (FSet a s).

End Form_ind_lists.

End ZachLisp.

(** ** Vocabulary of the further statements *)

(** A token that [read_useful_token] steps over. *)
Definition skippable (t : Token) : bool :=
  match type t with
  | type.WHITESPACE | type.COMMENT => true
  | _ => false
  end.

Fixpoint all_digits (s : string) : bool :=
  match s with
  | EmptyString => true
  | String c r => is_digit c && all_digits r
  end.

Definition nonempty (s : string) : bool :=
  match s with
  | EmptyString => false
  | String _ _ => true
  end.

(** What the value of a token of each type can be. *)
Definition value_fits (t : Token) : bool :=
  match type t, value t with
  | type.WHITESPACE, value.STRING s => nonempty s
  | type.COMMENT, value.STRING s => nonempty s
  | type.STRING, value.STRING s => nonempty s
  | type.SPECIAL_CHARS, value.STRING s => String.eqb s "~@" || String.eqb s "#{"
  | type.SPECIAL_CHAR, value.CHAR c => special_char_class c
  | type.NUMBER, value.LONG n => (0 <=? n) && (n <=? LONG_MAX)
  | type.NUMBER, value.DOUBLE _ => true
  | type.SYMBOL, value.BOOL _ => true
  | type.SYMBOL, value.STRING s =>
      nonempty s && negb (String.eqb s "true") && negb (String.eqb s "false")
  | _, _ => false
  end.

(** The largest [int], 32 bits wide: [line] and [column] are [int]. *)
Definition INT_MAX : Z := 2 ^ 31 - 1.

(** [tokens] are the tokens of consecutive pieces of [s], none empty and
    none left out, each parsed by [parse] and placed where it starts:
    [position] characters and [line0 - 1] newlines come before [s]. *)
Fixpoint lexed (std : StdLib) (s : string) (position line0 : Z)
    (tokens : list Token) : Prop :=
  match tokens with
  | [] => s = EmptyString
  | t :: ts =>
      exists text rest,
        s = String.append text rest
        /\ text <> EmptyString
        /\ parse std text (type t) = Returns (value t)
        /\ column t = position + 1
        /\ line t = line0
        /\ lexed std rest (position + Z.of_nat (String.length text))
             (line0 + count_newlines text) ts
  end.

(** Every error and every token held in a form, at any depth, passes the
    test given for it. *)
Fixpoint every (on_special : Special -> bool) (on_token : Token -> bool)
    (f : Form) : bool :=
  match f with
  | FSpecial s => on_special s
  | FToken t => on_token t
  | FList l => forallb (every on_special on_token) l
  | FVector v => forallb (every on_special on_token) v
  | FMap m =>
      forallb (fun item : Form * Form =>
                 let '(k, v) := item in
                 every on_special on_token k && every on_special on_token v) m
  | FSet s => forallb (every on_special on_token) s
  end.

(** The error of a map literal with an odd number of forms. *)
Definition is_odd_map_error (s : Special) : bool :=
  String.eqb (message s) "Map must contain even number of forms"
  && match token s with None => true | Some _ => false end.

(** A form whose only errors, at any depth, are those of odd maps. *)
Definition benign : Form -> bool := every is_odd_map_error (fun _ => true).

(** A form that holds no white space and no comment, at any depth, the
    tokens inside its errors included. *)
Definition unskipped : Form -> bool :=
  every (fun s => match token s with
                  | Some t => negb (skippable t)
                  | None => true
                  end)
        (fun t => negb (skippable t)).

(** The collection a token opens. *)
Definition opens (token : Token) : option form.Type_ :=
  match type token, value token with
  | type.SPECIAL_CHAR, value.CHAR c =>
      if char_in c ["("; "["; "{"]%char then DELIMITER_TO_TYPE (inl c) else None
  | type.SPECIAL_CHARS, value.STRING s =>
      if String.eqb s "#{" then DELIMITER_TO_TYPE (inr s) else None
  | _, _ => None
  end.

(** No two elements of [s] are equal for the set. *)
Fixpoint distinct_elements (std : StdLib) (s : list Form) : bool :=
  match s with
  | [] => true
  | x :: r =>
      forallb (fun y => negb (equals std x y)) r && distinct_elements std r
  end.

(** *** The token sequences that make a form

    [Reads std ts f]: the tokens [ts] are one form, [f], written out: a
    number or a symbol; a closed string literal; an opening delimiter, forms
    and its closing delimiter; a quote sugar and a form; the metadata sugar
    and two forms.  White space and comments may stand before each form and
    before a closing delimiter.  [ReadsAll std ts fs]: [ts] are the forms
    [fs] one after the other. *)

Definition scalar_token (t : Token) : bool :=
  match type t with
  | type.NUMBER | type.SYMBOL => true
  | _ => false
  end.

Definition closed_string (s : string) : bool :=
  negb ((String.length s <? 2)%nat || negb (Ascii.eqb (back s) dquote)).

Definition strip_quotes (t : Token) (s : string) : Token :=
  mkToken (value.STRING (substring 1 (String.length s - 2) s))
    (type t) (line t) (column t).

Inductive Reads (std : StdLib) : list Token -> Form -> Prop :=
| Reads_scalar (t : Token) :
    scalar_token t = true -> Reads std [t] (FToken t)
| Reads_string (t : Token) (s : string) :
    type t = type.STRING -> value t = value.STRING s ->
    closed_string s = true ->
    Reads std [t] (FToken (strip_quotes t s))
| Reads_coll (open close : Token) (form_type : form.Type_) (end_delimiter : ascii)
    (body gap : list Token) (forms : list Form) :
    opens open = Some form_type ->
    TYPE_TO_DELIMITER form_type = Some end_delimiter ->
    type close = type.SPECIAL_CHAR -> value close = value.CHAR end_delimiter ->
    ReadsAll std body forms ->
    forallb skippable gap = true ->
    Reads std (open :: body ++ gap ++ [close]) (close_coll std form_type forms)
| Reads_quote (t : Token) (name : string) (gap body : list Token) (X : Form) :
    quote_sugar t = Some name ->
    forallb skippable gap = true ->
    Reads std body X ->
    Reads std (t :: gap ++ body) (FList [FToken (symbol_at t name); X])
| Reads_meta (t : Token) (gap1 body1 gap2 body2 : list Token) (M X : Form) :
    type t = type.SPECIAL_CHAR -> value t = value.CHAR "^" ->
    forallb skippable gap1 = true -> Reads std body1 M ->
    forallb skippable gap2 = true -> Reads std body2 X ->
    Reads std (t :: gap1 ++ body1 ++ gap2 ++ body2)
      (FList [FToken (symbol_at t "with-meta"); X; M])
with ReadsAll (std : StdLib) : list Token -> list Form -> Prop :=
| ReadsAll_nil : ReadsAll std [] []
| ReadsAll_cons (gap body rest : list Token) (f : Form) (fs : list Form) :
    forallb skippable gap = true ->
    Reads std body f ->
    ReadsAll std rest fs ->
    ReadsAll std (gap ++ body ++ rest) (f :: fs).

Scheme Reads_mutual := Minimality for Reads Sort Prop
  with ReadsAll_mutual := Minimality for ReadsAll Sort Prop.
Combined Scheme Reads_ReadsAll_mutual from Reads_mutual, ReadsAll_mutual.

(** What the induction on [Reads] carries: for a form, that [read_form]
    returns it and stops after its tokens; for a run of forms, that the
    loop of [read_coll] adds them to the forms read so far and closes. *)
Definition read_form_reads (std : StdLib) (ts : list Token) (f : Form) : Prop :=
  forall rest : Cursor,
  exists fuel0, forall fuel, (fuel0 <= fuel)%nat ->
    read_form std fuel (ts ++ rest) = Returns (f, rest).

Definition read_coll_loop_reads (std : StdLib) (ts : list Token) (fs : list Form)
  : Prop :=
  forall (gap rest : list Token) (close : Token) (acc : list Form)
         (form_type : form.Type_) (end_delimiter : ascii),
    forallb skippable gap = true ->
    type close = type.SPECIAL_CHAR ->
    value close = value.CHAR end_delimiter ->
    TYPE_TO_DELIMITER form_type = Some end_delimiter ->
    exists fuel0, forall fuel, (fuel0 <= fuel)%nat ->
      read_coll_loop std fuel (ts ++ gap ++ close :: rest) acc
        form_type end_delimiter
      = Returns (close_coll std form_type (acc ++ fs), rest).

(** The loop of [read_coll], started at [it], comes to [token] itself:
    before [token] stand the tokens of whole forms [fs], which the loop
    reads one after the other, then white space and comments only; [after]
    is what follows [token]. *)
Definition meets (std : StdLib) (it : Cursor) (fs : list Form) (token : Token)
    (after : Cursor) : Prop :=
  exists before gap,
    it = before ++ gap ++ token :: after
    /\ ReadsAll std before fs
    /\ forallb skippable gap = true.

(** What the soundness of the grammar carries through the induction. *)
Definition read_form_sound (std : StdLib) (fuel : nat) : Prop :=
  forall (token : Token) (next it' : Cursor) (f : Form),
    Forall (fun t => value_fits t = true) (token :: next) ->
    skippable token = false ->
    read_form std fuel (token :: next) = Returns (f, it') ->
    it' <> [] ->
    exists ts, token :: next = ts ++ it' /\ Reads std ts f.

Definition read_coll_loop_sound (std : StdLib) (fuel : nat) : Prop :=
  forall (it it' : Cursor) (forms : list Form) (form_type : form.Type_)
         (end_delimiter : ascii) (f : Form),
    Forall (fun t => value_fits t = true) it ->
    read_coll_loop std fuel it forms form_type end_delimiter = Returns (f, it') ->
    (exists close fs,
        meets std it fs close it'
        /\ type close = type.SPECIAL_CHAR
        /\ value close = value.CHAR end_delimiter
        /\ f = close_coll std form_type (forms ++ fs))
    \/ (exists token after fs c,
           meets std it fs token after
           /\ closes token c /\ c <> end_delimiter
           /\ f = unmatched_delimiter token c /\ it' = [])
    \/ (f = eof_no_delimiter end_delimiter /\ it' = []).

(** ** The printer of [src/zachlisp.hpp]

    [prStr] is overloaded on the token, on the form, on the map and, as a
    template, on every other container; [std::to_string] of a [long] is
    the decimal text of [%ld], and [std::to_string] of a [double], the
    text of [%f], is left to the library. *)

Definition digit_char (d : Z) : ascii := ascii_of_N (48 + Z.to_N d).

(** The decimal digits of [n], most significant first, put before [acc]. *)
Fixpoint to_digits (fuel : nat) (n : Z) (acc : string) : string :=
  match fuel with
  | O => acc
  | S fuel =>
      let acc := String (digit_char (n mod 10)) acc in
      if n <? 10 then acc else to_digits fuel (n / 10) acc
  end.

(** [std::to_string(long)]: a [long] has at most 19 digits. *)
Definition to_string_long (n : Z) : string :=
  if n <? 0 then String "-" (to_digits 19 (- n) EmptyString)
  else to_digits 19 n EmptyString.

(** [if (s.size() > 0) { s += " "; }] *)
Definition separate (s : string) : string :=
  if (0 <? String.length s)%nat then String.append s " " else s.

(** The template [prStr(T list)], with the [prStr] of the items. *)
Definition prStr_list {T : Type} (prStr : T -> string) (list : list T) : string :=
  fold_left (fun s item => String.append (separate s) (prStr item))
    list EmptyString.

(** [prStr(form::FormWrapperMap map)] *)
Definition prStr_map {T : Type} (prStr : T -> string) (map : list (T * T))
  : string :=
  fold_left (fun s item =>
               let '(first, second) := item in
               String.append (separate s)
                 (String.append (prStr first) (String.append " " (prStr second))))
    map EmptyString.

Section Printer.
Variable to_string_double : Z -> string.

(** [prStr(token::Token token)] *)
Definition prStr_token (token : Token) : string :=
  match value token with
  | value.BOOL b => if b then "true" else "false"
  | value.CHAR c => String c EmptyString
  | value.LONG n => to_string_long n
  | value.DOUBLE d => to_string_double d
  | value.STRING s =>
      if type.eqb (type token) type.STRING
      then String dquote (String.append s (String dquote EmptyString))
      else s
  end.

(** [prStr(form::Form form)] *)
Fixpoint prStr (form : ZachLisp.Form) : string :=
  match form with
  | ZachLisp.FReaderError error =>
      String.append "#ReaderError "
        (String dquote
           (String.append (ZachLisp.message error) (String dquote EmptyString)))
  | ZachLisp.FToken token => prStr_token token
  | ZachLisp.FList list =>
      String.append "(" (String.append (prStr_list prStr list) ")")
  | ZachLisp.FVector vector =>
      String.append "[" (String.append (prStr_list prStr vector) "]")
  | ZachLisp.FMap _ map =>
      String.append "{" (String.append (prStr_map prStr map) "}")
  | ZachLisp.FSet _ set =>
      String.append "#{" (String.append (prStr_list prStr set) "}")
  end.

End Printer.

(** A list of texts without the empty ones it starts with. *)
Fixpoint drop_empty (l : list string) : list string :=
  match l with
  | EmptyString :: r => drop_empty r
  | _ => l
  end.

(** A symbol, or any token that is no string literal, whose text is
    empty. *)
Definition prints_nothing (form : ZachLisp.Form) : bool :=
  match form with
  | ZachLisp.FToken token =>
      match value token with
      | value.STRING EmptyString => negb (type.eqb (type token) type.STRING)
      | _ => false
      end
  | _ => false
  end.

(** * Properties *)

(** ** Equality and [listToMap] in [src/zachlisp.hpp] *)












Section Facts.

Variable std : StdLib.

(** ** Equality as the reader has it *)

Lemma equals_hash (a b : Form) : equals std a b = true <-> hash std a = hash std b.
Proof. unfold equals. apply Z.eqb_eq. Qed.

Lemma equals_refl (a : Form) : equals std a a = true.
Proof. apply equals_hash. reflexivity. Qed.

Lemma equals_sym (a b : Form) : equals std a b = equals std b a.
Proof. unfold equals. apply Z.eqb_sym. Qed.

Lemma equals_trans (a b c : Form) :
  equals std a b = true -> equals std b c = true -> equals std a c = true.
Proof. rewrite !equals_hash. congruence. Qed.

(** Membership of a key in a container is membership of its hash. *)
Lemma existsb_equals_set (s : FormWrapperSet) (item : Form) :
  existsb (fun e => equals std e item) s = true
  <-> hash std item ∈ List.map (hash std) s.
Proof.
  rewrite existsb_exists, list_elem_of_In, in_map_iff.
  split; intros (e & H1 & H2); exists e.
  - apply equals_hash in H2. auto.
  - split; [assumption | apply equals_hash; assumption].
Qed.

Lemma existsb_equals_map (m : FormWrapperMap) (k : Form) :
  existsb (fun e => equals std (fst e) k) m = true
  <-> hash std k ∈ List.map (fun e => hash std (fst e)) m.
Proof.
  rewrite existsb_exists, list_elem_of_In, in_map_iff.
  split; intros (e & H1 & H2); exists e.
  - apply equals_hash in H2. auto.
  - split; [assumption | apply equals_hash; assumption].
Qed.

(** ** The sorted hash of the unordered containers *)

Lemma merge_sort_Permutation_eq (l1 l2 : list Z) :
  l1 ≡ₚ l2 -> merge_sort Z.le l1 = merge_sort Z.le l2.
Proof.
  intros Hp.
  apply (Sorted_unique Z.le); try apply Sorted_merge_sort; try apply _.
  rewrite !merge_sort_Permutation. exact Hp.
Qed.

Lemma combine_sorted_Permutation (l1 l2 : list Z) :
  l1 ≡ₚ l2 -> combine_sorted std l1 = combine_sorted std l2.
Proof.
  intros Hp. unfold combine_sorted.
  rewrite (merge_sort_Permutation_eq l1 l2 Hp). reflexivity.
Qed.


Lemma hash_FSet (s : FormWrapperSet) :
  hash std (FSet s) = combine_sorted std (List.map (hash std) s).
Proof. reflexivity. Qed.

(** The hash of a set does not depend on the order in which the container
    hands out its elements. *)
Lemma hash_FSet_iteration_order (s1 s2 : FormWrapperSet) :
  s1 ≡ₚ s2 -> hash std (FSet s1) = hash std (FSet s2).
Proof.
  intros Hp. rewrite !hash_FSet. apply combine_sorted_Permutation.
  apply Permutation_map, Hp.
Qed.


(** ** Building a set *)

Lemma set_insert_hashes (s : FormWrapperSet) (item : Form) :
  NoDup (List.map (hash std) s) ->
  NoDup (List.map (hash std) (set_insert std s item))
  /\ forall h, h ∈ List.map (hash std) (set_insert std s item)
               <-> h ∈ List.map (hash std) s \/ h = hash std item.
Proof.
  intros Hnd. unfold set_insert.
  destruct (existsb (fun e => equals std e item) s) eqn:E.
  - apply existsb_equals_set in E. split; [assumption |].
    intros h. split; [auto | intros [H | ->]; assumption].
  - assert (Hnot : hash std item ∉ List.map (hash std) s).
    { intros H. apply existsb_equals_set in H. congruence. }
    rewrite map_app. simpl. split.
    + apply NoDup_app. split; [assumption |]. split.
      * intros x Hx Hx'. apply list_elem_of_singleton in Hx'. subst. auto.
      * apply NoDup_singleton.
    + intros h. rewrite elem_of_app, list_elem_of_singleton. reflexivity.
Qed.

Lemma fold_set_insert_hashes (l : list Form) :
  forall acc : FormWrapperSet,
    NoDup (List.map (hash std) acc) ->
    NoDup (List.map (hash std) (fold_left (set_insert std) l acc))
    /\ forall h, h ∈ List.map (hash std) (fold_left (set_insert std) l acc)
                 <-> h ∈ List.map (hash std) acc \/ h ∈ List.map (hash std) l.
Proof.
  induction l as [| x l IH]; intros acc Hnd; simpl.
  - split; [assumption |]. intros h. rewrite elem_of_nil. tauto.
  - destruct (set_insert_hashes acc x Hnd) as [Hnd' Hin'].
    destruct (IH _ Hnd') as [Hnd'' Hin''].
    split; [assumption |]. intros h.
    rewrite Hin'', Hin', elem_of_cons. tauto.
Qed.


(** ** Building a map *)


Lemma map_insert_absent (m : FormWrapperMap) (kv : Form * Form) :
  hash std (fst kv) ∉ key_hashes std m -> map_insert std m kv = m ++ [kv].
Proof.
  intros H. unfold map_insert.
  destruct (existsb _ m) eqn:E; [| reflexivity].
  apply existsb_equals_map in E. contradiction.
Qed.




Lemma fold_map_insert_distinct (ps : list (Form * Form)) :
  forall m : FormWrapperMap,
    NoDup (key_hashes std (m ++ ps)) ->
    fold_left (map_insert std) ps m = m ++ ps.
Proof.
  induction ps as [| p ps IH]; intros m Hnd; simpl.
  - rewrite app_nil_r. reflexivity.
  - assert (Hp : hash std (fst p) ∉ key_hashes std m).
    { unfold key_hashes in *. rewrite map_app in Hnd. simpl in Hnd.
      apply NoDup_app in Hnd. destruct Hnd as (_ & Hd & _).
      intros H. apply (Hd _ H). apply elem_of_cons. auto. }
    rewrite (map_insert_absent _ _ Hp).
    rewrite IH; rewrite <- app_assoc; simpl; [reflexivity | assumption].
Qed.

Lemma distinct_keys_NoDup (ps : list (Form * Form)) :
  distinct_keys std ps = true <-> NoDup (key_hashes std ps).
Proof.
  induction ps as [| [k v] ps IH]; simpl.
  - split; [intros _; apply NoDup_nil_2 | reflexivity].
  - rewrite andb_true_iff, IH, NoDup_cons, forallb_forall.
    assert (Hk : (forall x, In x ps -> negb (equals std k (fst x)) = true)
                 <-> hash std k ∉ key_hashes std ps).
    { unfold key_hashes. rewrite list_elem_of_In, in_map_iff. split.
      - intros H (e & He & Hin). specialize (H e Hin).
        apply negb_true_iff in H.
        assert (equals std k (fst e) = true) by (apply equals_hash; auto).
        congruence.
      - intros H e Hin. apply negb_true_iff.
        destruct (equals std k (fst e)) eqn:E; [| reflexivity].
        exfalso. apply H. exists e. apply equals_hash in E. auto. }
    rewrite Hk. reflexivity.
Qed.

(** Two forms at a time. *)
Lemma list_pair_ind (P : list Form -> Prop) :
  P [] -> (forall x, P [x]) -> (forall x y l, P l -> P (x :: y :: l)) ->
  forall l, P l.
Proof.
  intros H0 H1 H2 l.
  assert (H : P l /\ forall x, P (x :: l)).
  { induction l as [| y l [IHa IHb]]; [auto |].
    split; [apply IHb | intros x; apply H2, IHa]. }
  apply H.
Qed.

Lemma list_to_map_from_parity (body : list Form) :
  forall m : FormWrapperMap,
    list_to_map_from std body m =
    if Nat.even (length body)
    then FMap (fold_left (map_insert std) (pairs body) m)
    else ReaderError "Map must contain even number of forms" None.
Proof.
  induction body as [| x | x y l IH] using list_pair_ind; intros m;
    try reflexivity.
  simpl. rewrite IH. reflexivity.
Qed.

Lemma pairs_map_body (ps : list (Form * Form)) : pairs (map_body ps) = ps.
Proof.
  induction ps as [| [k v] ps IH]; simpl; [| rewrite IH]; reflexivity.
Qed.

Lemma even_length_map_body (ps : list (Form * Form)) :
  Nat.even (length (map_body ps)) = true.
Proof. induction ps as [| [k v] ps IH]; simpl; auto. Qed.

Lemma list_to_map_map_body (ps : list (Form * Form)) :
  list_to_map std (map_body ps) = FMap (fold_left (map_insert std) ps []).
Proof.
  unfold list_to_map.
  rewrite list_to_map_from_parity, even_length_map_body, pairs_map_body.
  reflexivity.
Qed.

Lemma find_app_first {A : Type} (f : A -> bool) (l1 l2 : list A) :
  List.find f (l1 ++ l2) =
  match List.find f l1 with Some x => Some x | None => List.find f l2 end.
Proof.
  induction l1 as [| x l1 IH]; simpl; [reflexivity |].
  destruct (f x); [reflexivity | exact IH].
Qed.

Lemma lookup_key_fold (k : Form) (ps : list (Form * Form)) :
  forall m : FormWrapperMap,
    lookup_key std k (fold_left (map_insert std) ps m)
    = lookup_key std k (m ++ ps).
Proof.
  induction ps as [| p ps IH]; intros m; simpl.
  - rewrite app_nil_r. reflexivity.
  - rewrite IH. unfold map_insert.
    destruct (existsb (fun e => equals std (fst e) (fst p)) m) eqn:E.
    + unfold lookup_key. rewrite !find_app_first.
      destruct (List.find _ m) eqn:F; [reflexivity |].
      simpl. destruct (equals std (fst p) k) eqn:Ek; [| reflexivity].
      exfalso. apply existsb_exists in E. destruct E as (e & Hin & He).
      pose proof (find_none _ _ F e Hin) as Hno. simpl in Hno.
      rewrite (equals_trans _ _ _ He Ek) in Hno. discriminate.
    + rewrite <- app_assoc. reflexivity.
Qed.

(** ** Forms of the same structure are equal for [equals] *)




(** ** The hash and equality engine against its specification *)

(** C1 (defect of [equals] in [src/read.hpp]).  Structural equality should
    hold exactly for forms of the same variant with equal contents.  The
    code compares the two hashes and nothing else: the empty list and the
    empty vector, of different variants, are equal for it, and so are two
    lists whose only elements differ. *)
Theorem equals_is_hash_equality :
  (forall a b : Form, equals std a b = (hash std a =? hash std b))
  /\ equals std (FList []) (FVector []) = true
  /\ form.index (FList []) <> form.index (FVector [])
  /\ equals std (FList [FList []]) (FList [FVector []]) = true
  /\ FList [FList []] <> FList [FVector []].
Proof.
  split; [reflexivity |].
  split; [reflexivity |].
  split; [discriminate |].
  split; [reflexivity | discriminate].
Qed.


(** Downstream of C1: keys of different variants and equal hash are one key
    for the map, which keeps the pair that comes first. *)
Lemma list_to_map_conflates_keys (one two : Form) :
  list_to_map std [FList []; one; FVector []; two] = FMap [(FList [], one)]
  /\ list_to_map std [FVector []; two; FList []; one] = FMap [(FVector [], two)].
Proof. split; reflexivity. Qed.

(** C6, the map builder.  At the closing brace of a map literal the forms
    read since the opening brace go to [list_to_map].  An odd number of
    forms gives the reader error, without a token, in the place of the map;
    an even number gives the map of the pairs taken from left to right.
    Reading [{1 2}] gives the map from 1 to 2 and reading [{1}] gives the
    error. *)
Theorem list_to_map_even_odd (body : list Form) :
  list_to_map std body
  = (if Nat.even (length body)
     then FMap (fold_left (map_insert std) (pairs body) [])
     else ReaderError "Map must contain even number of forms" None)
  /\ (forall (fuel : nat) (l c : Z) (rest : Cursor),
         read_coll_loop std (S fuel)
           (mkToken (value.CHAR "}") type.SPECIAL_CHAR l c :: rest)
           body form.MAP "}"
         = Returns (list_to_map std body, rest))
  /\ read std "{1 2}"
     = Returns [FMap [(FToken (tok_long 1 2), FToken (tok_long 2 4))]]
  /\ read std "{1}"
     = Returns [ReaderError "Map must contain even number of forms" None].
Proof.
  split; [apply list_to_map_from_parity |].
  split; [reflexivity |].
  split; reflexivity.
Qed.


(** ** The reader against its specification *)

Lemma read_useful_token_cursor (it it' : Cursor) (token : Token) :
  read_useful_token it = Some (token, it') ->
  exists next, it' = token :: next /\ (length it' <= length it)%nat
               /\ type token <> type.WHITESPACE /\ type token <> type.COMMENT.
Proof.
  induction it as [| t it IH]; simpl; [discriminate |].
  destruct (type t) eqn:E;
    try (intros H; injection H as <- <-; exists it; simpl;
         repeat split; try lia; congruence).
  all: intros H; destruct (IH H) as (next & -> & Hlen & Hty);
    exists next; simpl in *; repeat split; try lia; apply Hty.
Qed.

(** C4.  In the loop of [read_coll], for a list, a vector, a map or a set
    and whatever was read so far: when the next useful token is a closing
    delimiter other than the one the collection waits for, the result is
    the reader error naming that delimiter, with that token, and the cursor
    is the end of the stream, where no useful token is left to read. *)
Theorem read_coll_unmatched_delimiter
    (fuel : nat) (it it' : Cursor) (forms : list Form)
    (form_type : form.Type_) (end_delimiter c : ascii) (token : Token) :
  TYPE_TO_DELIMITER form_type = Some end_delimiter ->
  read_useful_token it = Some (token, it') ->
  closes token c ->
  c <> end_delimiter ->
  read_coll_loop std (S fuel) it forms form_type end_delimiter
  = Returns (unmatched_delimiter token c, [])
  /\ read_coll std (S fuel) it form_type
     = Returns (unmatched_delimiter token c, [])
  /\ read_useful_token [] = None.
Proof.
  intros Hd Hu (Hty & Hv & Hc) Hne.
  assert (Hloop : forall forms',
            read_coll_loop std (S fuel) it forms' form_type end_delimiter
            = Returns (unmatched_delimiter token c, [])).
  { intros forms'. simpl. rewrite Hu, Hty, Hv. simpl.
    destruct (Ascii.eqb_spec c end_delimiter) as [-> | _]; [contradiction |].
    unfold is_close_delimiter in Hc. rewrite Hc. reflexivity. }
  split; [apply Hloop |]. split; [| reflexivity].
  unfold read_coll, read_coll_, at_. rewrite Hd. exact (Hloop []).
Qed.

(** At its own closing delimiter the loop of [read_coll] hands the forms
    read so far to the builder of the collection. *)
Lemma read_coll_loop_close
    (fuel : nat) (it it' : Cursor) (forms : list Form)
    (form_type : form.Type_) (end_delimiter : ascii) (token : Token) :
  read_useful_token it = Some (token, it') ->
  type token = type.SPECIAL_CHAR ->
  value token = value.CHAR end_delimiter ->
  read_coll_loop std (S fuel) it forms form_type end_delimiter
  = Returns (close_coll std form_type forms, tl it').
Proof.
  intros Hu Hty Hv. simpl. rewrite Hu, Hty, Hv. simpl.
  rewrite Ascii.eqb_refl. reflexivity.
Qed.

(** C7.  At the metadata sugar the reader reads the metadata [M], then the
    target [X], and returns the list of the symbol with-meta, [X] and [M],
    in that order.  With no form after the sugar, or none after the metadata,
    it returns a reader error whose message says so. *)
Theorem read_form_meta
    (fuel : nat) (token : Token) (next : Cursor) :
  type token = type.SPECIAL_CHAR ->
  value token = value.CHAR "^" ->
  let with_meta := symbol_at token "with-meta" in
  (forall (M X : Form) (it1 it2 : Cursor),
      read_useful_form std fuel next = Returns (Some (M, it1)) ->
      read_useful_form std fuel it1 = Returns (Some (X, it2)) ->
      read_form std (S fuel) (token :: next)
      = Returns (FList [FToken with_meta; X; M], it2))
  /\ (read_useful_form std fuel next = Returns None ->
      read_form std (S fuel) (token :: next)
      = Returns (ReaderError "EOF: Nothing found after ^" (Some with_meta), []))
  /\ (forall (M : Form) (it1 : Cursor),
      read_useful_form std fuel next = Returns (Some (M, it1)) ->
      read_useful_form std fuel it1 = Returns None ->
      read_form std (S fuel) (token :: next)
      = Returns (ReaderError "EOF: Nothing found after metadata" (Some with_meta),
                 []))
  /\ mentions "Nothing found after ^" "EOF: Nothing found after ^" = true
  /\ mentions "Nothing found after metadata" "EOF: Nothing found after metadata"
     = true.
Proof.
  intros Hty Hv with_meta.
  assert (Hrf : read_form std (S fuel) (token :: next)
                = expand_meta_quoted_form std fuel next with_meta).
  { simpl. rewrite Hty, Hv. reflexivity. }
  rewrite Hrf. unfold expand_meta_quoted_form, expand_meta_quoted_form_.
  unfold read_useful_form.
  repeat split.
  - intros M X it1 it2 H1 H2. rewrite H1. simpl. rewrite H2. reflexivity.
  - intros H1. rewrite H1. reflexivity.
  - intros M it1 H1 H2. rewrite H1. simpl. rewrite H2. reflexivity.
Qed.

(** C8, as the code has it.  At a quote sugar followed by a form [X] the
    reader returns the list of the symbol of the sugar and [X]; the symbol
    is a token of its own, placed where the sugar token was.  With no form
    after the sugar it returns the reader error, which carries that symbol
    token (not the sugar token). *)
Theorem read_form_quote_sugar
    (fuel : nat) (token : Token) (next : Cursor) (name : string) :
  quote_sugar token = Some name ->
  (forall (X : Form) (it' : Cursor),
      read_useful_form std fuel next = Returns (Some (X, it')) ->
      read_form std (S fuel) (token :: next)
      = Returns (FList [FToken (symbol_at token name); X], it'))
  /\ (read_useful_form std fuel next = Returns None ->
      read_form std (S fuel) (token :: next)
      = Returns (ReaderError "EOF: Nothing found after quote"
                   (Some (symbol_at token name)), []))
  /\ read std "'x"
     = Returns [FList [FToken (tok_symbol "quote" 1); FToken (tok_symbol "x" 2)]]
  /\ read std "~@x"
     = Returns [FList [FToken (tok_symbol "splice-unquote" 1);
                       FToken (tok_symbol "x" 3)]].
Proof.
  intros Hq.
  assert (Hrf : read_form std (S fuel) (token :: next)
                = expand_quoted_form std fuel next (symbol_at token name)).
  { unfold quote_sugar in Hq. destruct token as [v t l c]. simpl in Hq.
    destruct t; try discriminate; destruct v as [b | ch | n | d | s];
      try discriminate.
    - destruct (String.eqb_spec s "~@") as [-> | _]; [| discriminate].
      injection Hq as <-. reflexivity.
    - repeat match type of Hq with
             | (if Ascii.eqb ?x ?y then _ else _) = _ =>
                 destruct (Ascii.eqb_spec x y) as [-> | _];
                 [injection Hq as <-; reflexivity |]
             end.
      discriminate. }
  rewrite Hrf. unfold expand_quoted_form, expand_quoted_form_, read_useful_form.
  repeat split.
  - intros X it' H. rewrite H. reflexivity.
  - intros H. rewrite H. reflexivity.
Qed.

(** ** The shape of the reader's results *)

(** What [read_form] does on a token, by cases. *)
Lemma read_form_cases (fuel : nat) (token : Token) (next : Cursor) :
  (exists form_type end_delimiter,
      TYPE_TO_DELIMITER form_type = Some end_delimiter
      /\ read_form std (S fuel) (token :: next)
         = read_coll_loop std fuel next [] form_type end_delimiter)
  \/ (exists name,
         read_form std (S fuel) (token :: next)
         = expand_quoted_form std fuel next (symbol_at token name))
  \/ (exists name,
         read_form std (S fuel) (token :: next)
         = expand_meta_quoted_form std fuel next (symbol_at token name))
  \/ (exists message,
         read_form std (S fuel) (token :: next)
         = Returns (ReaderError message (Some token), []))
  \/ (exists t, read_form std (S fuel) (token :: next) = Returns (FToken t, next))
  \/ (well_typed token = false
      /\ read_form std (S fuel) (token :: next) = Throws bad_variant_access).
Proof.
  destruct token as [v t l c].
  destruct t; try (do 4 right; left; eexists; reflexivity).
  - (* SPECIAL_CHARS *)
    destruct v as [b | ch | n | d | s];
      try (do 5 right; split; reflexivity).
    simpl.
    destruct (String.eqb_spec s "#{") as [-> | _].
    { left. exists form.SET, "}"%char. split; reflexivity. }
    destruct (String.eqb_spec s "~@") as [-> | _].
    { right; left. eexists. reflexivity. }
    do 4 right; left. eexists. reflexivity.
  - (* SPECIAL_CHAR *)
    destruct v as [b | ch | n | d | s];
      try (do 5 right; split; reflexivity).
    simpl.
    destruct (Ascii.eqb_spec ch "(") as [-> | N1];
      [left; exists form.LIST, ")"%char; split; reflexivity |].
    destruct (Ascii.eqb_spec ch "[") as [-> | N2];
      [left; exists form.VECTOR, "]"%char; split; reflexivity |].
    destruct (Ascii.eqb_spec ch "{") as [-> | N3];
      [left; exists form.MAP, "}"%char; split; reflexivity |].
    replace (char_in ch ["("; "["; "{"]%char) with false.
    2:{ unfold char_in. simpl. apply Ascii.eqb_neq in N1, N2, N3.
        rewrite N1, N2, N3. reflexivity. }
    destruct (char_in ch [")"; "]"; "}"]%char);
      [do 3 right; left; eexists; reflexivity |].
    destruct (Ascii.eqb_spec ch "'") as [-> | M1];
      [right; left; eexists; reflexivity |].
    destruct (Ascii.eqb_spec ch "`") as [-> | M2];
      [right; left; eexists; reflexivity |].
    destruct (Ascii.eqb_spec ch "~") as [-> | M3];
      [right; left; eexists; reflexivity |].
    destruct (Ascii.eqb_spec ch "@") as [-> | M4];
      [right; left; eexists; reflexivity |].
    replace (char_in ch ["'"; "`"; "~"; "@"]%char) with false.
    2:{ unfold char_in. simpl. apply Ascii.eqb_neq in M1, M2, M3, M4.
        rewrite M1, M2, M3, M4. reflexivity. }
    destruct (Ascii.eqb_spec ch "^") as [-> | _];
      [do 2 right; left; eexists; reflexivity |].
    do 4 right; left. eexists. reflexivity.
  - (* STRING *)
    destruct v as [b | ch | n | d | s];
      try (do 5 right; split; reflexivity).
    simpl.
    destruct ((String.length s <? 2)%nat || negb (Ascii.eqb (back s) dquote)).
    + do 3 right; left. eexists. reflexivity.
    + do 4 right; left. eexists. reflexivity.
Qed.

Lemma close_coll_error (form_type : form.Type_) (forms : list Form) (s : Special) :
  close_coll std form_type forms = FSpecial s -> token s = None.
Proof.
  destruct form_type; simpl; try discriminate.
  unfold list_to_map. rewrite list_to_map_from_parity.
  destruct (Nat.even (length forms)); [discriminate |].
  intros H. injection H as <-. reflexivity.
Qed.

(** One turn of the loop of [read_coll], by cases. *)
Lemma read_coll_loop_cases
    (fuel : nat) (it : Cursor) (forms : list Form)
    (form_type : form.Type_) (end_delimiter : ascii) :
  (read_useful_token it = None
   /\ read_coll_loop std (S fuel) it forms form_type end_delimiter
      = Returns (eof_no_delimiter end_delimiter, []))
  \/ (exists token it',
         read_useful_token it = Some (token, it')
         /\ ((type token = type.SPECIAL_CHAR
              /\ value token = value.CHAR end_delimiter
              /\ read_coll_loop std (S fuel) it forms form_type end_delimiter
                 = Returns (close_coll std form_type forms, tl it'))
             \/ (exists c,
                    closes token c
                    /\ read_coll_loop std (S fuel) it forms form_type end_delimiter
                       = Returns (unmatched_delimiter token c, []))
             \/ read_coll_loop std (S fuel) it forms form_type end_delimiter
                = (ret2 <- read_form std fuel it' ;;
                   read_coll_loop std fuel (snd ret2) (forms ++ [fst ret2])
                     form_type end_delimiter)
             \/ (well_typed token = false
                 /\ read_coll_loop std (S fuel) it forms form_type end_delimiter
                    = Throws bad_variant_access))).
Proof.
  simpl. destruct (read_useful_token it) as [[token it'] |] eqn:Hu.
  2:{ left. split; reflexivity. }
  right. exists token, it'. split; [reflexivity |].
  destruct token as [v t l c]. simpl.
  destruct t; try (do 2 right; left; reflexivity).
  destruct v as [b | ch | n | d | s];
    try (do 3 right; split; reflexivity).
  simpl.
  destruct (Ascii.eqb_spec ch end_delimiter) as [-> | _];
    [left; repeat split; reflexivity |].
  destruct (char_in ch [")"; "]"; "}"]%char) eqn:Hc.
  - right; left. exists ch. split; [repeat split; assumption | reflexivity].
  - do 2 right; left. reflexivity.
Qed.

Lemma read_useful_token_suffix (it it' : Cursor) (token : Token) :
  read_useful_token it = Some (token, it') ->
  exists skipped, it = skipped ++ it'.
Proof.
  induction it as [| t it IH]; simpl; [discriminate |].
  destruct (type t);
    try (intros H; injection H as <- <-; exists []; reflexivity).
  all: intros H; destruct (IH H) as [skipped ->]; exists (t :: skipped);
    reflexivity.
Qed.

Lemma read_useful_token_well_typed (it it' : Cursor) (token : Token) :
  read_useful_token it = Some (token, it') ->
  all_well_typed it ->
  all_well_typed it' /\ well_typed token = true /\ it' <> []
  /\ it' `suffix_of` it.
Proof.
  intros Hu Hwt.
  destruct (read_useful_token_cursor _ _ _ Hu) as (next & -> & Hlen & _).
  destruct (read_useful_token_suffix _ _ _ Hu) as [skipped ->].
  apply Forall_app in Hwt. destruct Hwt as [_ Hwt].
  split; [assumption |].
  split; [| split; [discriminate | exists skipped; reflexivity]].
  apply Forall_cons in Hwt. apply Hwt.
Qed.

Lemma suffix_Forall {A : Type} (P : A -> Prop) (l1 l2 : list A) :
  l1 `suffix_of` l2 -> Forall P l2 -> Forall P l1.
Proof. intros [k ->] H. apply Forall_app in H. apply H. Qed.

Lemma read_useful_form_returns (fuel : nat) (it : Cursor) :
  read_form_returns std fuel ->
  all_well_typed it -> (2 * length it <= fuel)%nat ->
  (read_useful_token it = None /\ read_useful_form std fuel it = Returns None)
  \/ exists f it',
       read_useful_form std fuel it = Returns (Some (f, it'))
       /\ (length it' < length it)%nat /\ it' `suffix_of` it.
Proof.
  intros IH Hwt Hfuel. unfold read_useful_form, read_useful_form_.
  destruct (read_useful_token it) as [[token it1] |] eqn:Hu.
  2:{ left. split; reflexivity. }
  right. simpl.
  destruct (read_useful_token_well_typed _ _ _ Hu Hwt) as (Hwt1 & _ & Hne & Hsuf).
  pose proof (suffix_length _ _ Hsuf) as Hlen.
  destruct (IH it1 Hwt1 Hne ltac:(lia)) as (f & it' & -> & Hlt & Hsuf').
  exists f, it'. simpl. repeat split; [lia | etrans; eassumption].
Qed.

Lemma reader_returns (fuel : nat) :
  read_form_returns std fuel /\ read_coll_loop_returns std fuel.
Proof.
  induction fuel as [| fuel [IHform IHloop]].
  - split.
    + intros [| t it] _ Hne Hfuel; [contradiction | simpl in Hfuel; lia].
    + intros it forms form_type end_delimiter _ Hfuel. lia.
  - split.
    + intros [| token next] Hwt Hne Hfuel; [contradiction |].
      simpl in Hfuel.
      apply Forall_cons in Hwt. destruct Hwt as [Hwt0 Hwt].
      assert (Hend : ([] : Cursor) `suffix_of` token :: next) by apply suffix_nil.
      assert (Hnext : next `suffix_of` token :: next)
        by (apply suffix_cons_r; reflexivity).
      destruct (read_form_cases fuel token next)
        as [(form_type & end_delimiter & _ & ->)
           | [[name ->] | [[name ->] | [[message ->] | [[t ->] | [Hbad _]]]]]].
      * destruct (IHloop next [] form_type end_delimiter Hwt ltac:(lia))
          as (f & it' & -> & Hsuf).
        pose proof (suffix_length _ _ Hsuf).
        exists f, it'. simpl. repeat split; [lia | etrans; eassumption].
      * unfold expand_quoted_form, expand_quoted_form_.
        fold (read_useful_form std fuel next).
        destruct (read_useful_form_returns fuel next IHform Hwt ltac:(lia))
          as [[_ ->] | (f & it' & -> & Hlen & Hsuf)]; simpl.
        -- eexists _, _. split; [reflexivity |].
           split; [simpl; lia | assumption].
        -- eexists _, _. split; [reflexivity |].
           split; [simpl; lia | etrans; eassumption].
      * unfold expand_meta_quoted_form, expand_meta_quoted_form_.
        fold (read_useful_form std fuel next).
        destruct (read_useful_form_returns fuel next IHform Hwt ltac:(lia))
          as [[_ ->] | (f & it' & -> & Hlen & Hsuf)]; simpl.
        -- eexists _, _. split; [reflexivity |].
           split; [simpl; lia | assumption].
        -- fold (read_useful_form std fuel it').
           pose proof (suffix_Forall _ _ _ Hsuf Hwt) as Hwt'.
           destruct (read_useful_form_returns fuel it' IHform Hwt' ltac:(lia))
             as [[_ ->] | (f2 & it2 & -> & Hlen2 & Hsuf2)]; simpl.
           ++ eexists _, _. split; [reflexivity |].
              split; [simpl; lia | assumption].
           ++ eexists _, _. split; [reflexivity |].
              split; [simpl; lia |].
              etrans; [exact Hsuf2 |]. etrans; eassumption.
      * eexists _, _. split; [reflexivity |].
        split; [simpl; lia | assumption].
      * eexists _, _. split; [reflexivity |].
        split; [simpl; lia | assumption].
      * congruence.
    + intros it forms form_type end_delimiter Hwt Hfuel.
      destruct (read_coll_loop_cases fuel it forms form_type end_delimiter)
        as [[_ ->] | (token & it1 & Hu & Hcases)].
      { eexists _, _. split; [reflexivity | apply suffix_nil]. }
      destruct (read_useful_token_well_typed _ _ _ Hu Hwt)
        as (Hwt1 & Hwt0 & Hne & Hsuf).
      pose proof (suffix_length _ _ Hsuf) as Hlen.
      destruct Hcases as [(_ & _ & ->) | [(c & _ & ->) | [-> | [Hbad _]]]].
      * eexists _, _. split; [reflexivity |].
        destruct it1 as [| t1 it1]; [contradiction |]. simpl.
        etrans; [| exact Hsuf]. apply suffix_cons_r. reflexivity.
      * eexists _, _. split; [reflexivity | apply suffix_nil].
      * destruct (IHform it1 Hwt1 Hne ltac:(lia)) as (f & it2 & -> & Hlt & Hsuf2).
        simpl.
        pose proof (suffix_Forall _ _ _ Hsuf2 Hwt1) as Hwt2.
        destruct (IHloop it2 (forms ++ [f]) form_type end_delimiter Hwt2
                    ltac:(lia)) as (f' & it3 & -> & Hsuf3).
        exists f', it3. split; [reflexivity |].
        etrans; [exact Hsuf3 |]. etrans; eassumption.
      * congruence.
Qed.

Lemma read_forms_loop_returns (fuel : nat) :
  forall (it : Cursor) (forms : list Form),
    all_well_typed it -> (2 * length it + 2 <= fuel)%nat ->
    exists forms', read_forms_loop std fuel it forms = Returns forms'.
Proof.
  induction fuel as [| fuel IH]; intros it forms Hwt Hfuel; [lia |].
  simpl.
  destruct (read_useful_form_returns fuel it (proj1 (reader_returns fuel)) Hwt
              ltac:(lia)) as [[_ ->] | (f & it' & -> & Hlen & Hsuf)]; simpl.
  - eexists. reflexivity.
  - apply IH; [exact (suffix_Forall _ _ _ Hsuf Hwt) | lia].
Qed.

(** A collection opened on a stream that holds no closing delimiter at all
    is never closed: whatever is read on the way, nested collections
    included, [read_coll] ends on the error for its own delimiter. *)
Lemma read_coll_loop_no_closing_token (fuel : nat) :
  forall (it : Cursor) (forms : list Form) (form_type : form.Type_)
         (end_delimiter : ascii),
    TYPE_TO_DELIMITER form_type = Some end_delimiter ->
    all_well_typed it -> no_closing_token it ->
    (2 * length it + 1 <= fuel)%nat ->
    read_coll_loop std fuel it forms form_type end_delimiter
    = Returns (eof_no_delimiter end_delimiter, []).
Proof.
  induction fuel as [| fuel IH];
    intros it forms form_type end_delimiter Hd Hwt Hno Hfuel; [lia |].
  destruct (read_coll_loop_cases fuel it forms form_type end_delimiter)
    as [[_ ->] | (token & it1 & Hu & Hcases)]; [reflexivity |].
  destruct (read_useful_token_well_typed _ _ _ Hu Hwt)
    as (Hwt1 & Hwt0 & Hne & Hsuf).
  pose proof (suffix_length _ _ Hsuf) as Hlen.
  pose proof (suffix_Forall _ _ _ Hsuf Hno) as Hno1.
  assert (Hopen : closing_token token = false).
  { destruct (read_useful_token_cursor _ _ _ Hu) as (next & -> & _).
    apply Forall_cons in Hno1. apply Hno1. }
  destruct Hcases as [(Hty & Hv & _) | [(c & Hc & _) | [-> | [Hbad _]]]].
  - exfalso. unfold closing_token in Hopen. rewrite Hty, Hv in Hopen.
    destruct form_type; simpl in Hd; try discriminate;
      injection Hd as <-; discriminate.
  - exfalso. destruct Hc as (Hty & Hv & Hc).
    unfold closing_token in Hopen. rewrite Hty, Hv in Hopen. congruence.
  - destruct (proj1 (reader_returns fuel) it1 Hwt1 Hne ltac:(lia))
      as (f & it2 & -> & Hlt & Hsuf2).
    simpl. apply IH; try assumption.
    + exact (suffix_Forall _ _ _ Hsuf2 Hwt1).
    + exact (suffix_Forall _ _ _ Hsuf2 Hno1).
    + lia.
  - congruence.
Qed.

(** On tokens whose values agree with their types [read_forms] returns. *)
Lemma read_forms_terminates (tokens : list Token) :
  all_well_typed tokens -> exists forms, read_forms std tokens = Returns forms.
Proof.
  intros Hwt. unfold read_forms. apply read_forms_loop_returns; [assumption | lia].
Qed.

(** C5.  When no useful token is left in the loop of [read_coll], the
    result is the reader error for the delimiter that was waited for,
    without a token, and the cursor is the end of the stream.  This is how
    every collection ends that is opened on a stream without any closing
    delimiter.  Reading [(1 2] gives the error for the closing
    parenthesis. *)
Theorem read_coll_eof
    (fuel : nat) (it : Cursor) (forms : list Form)
    (form_type : form.Type_) (end_delimiter : ascii) :
  TYPE_TO_DELIMITER form_type = Some end_delimiter ->
  read_useful_token it = None ->
  read_coll_loop std (S fuel) it forms form_type end_delimiter
  = Returns (eof_no_delimiter end_delimiter, [])
  /\ read_coll std (S fuel) it form_type
     = Returns (eof_no_delimiter end_delimiter, [])
  /\ (forall (fuel' : nat) (stream : Cursor),
         all_well_typed stream -> no_closing_token stream ->
         (2 * length stream + 1 <= fuel')%nat ->
         read_coll std fuel' stream form_type
         = Returns (eof_no_delimiter end_delimiter, []))
  /\ read std "(1 2" = Returns [ReaderError "EOF: no ) found" None].
Proof.
  intros Hd Hu.
  assert (Hloop : forall forms',
            read_coll_loop std (S fuel) it forms' form_type end_delimiter
            = Returns (eof_no_delimiter end_delimiter, [])).
  { intros forms'. simpl. rewrite Hu. reflexivity. }
  split; [apply Hloop |].
  split; [unfold read_coll, read_coll_, at_; rewrite Hd; exact (Hloop []) |].
  split; [| reflexivity].
  intros fuel' stream Hwt Hno Hfuel.
  unfold read_coll, read_coll_, at_. rewrite Hd.
  exact (read_coll_loop_no_closing_token fuel' stream [] form_type end_delimiter
           Hd Hwt Hno Hfuel).
Qed.

(** ** The tokenizer returns, or a number does not fit *)

Lemma span_length (p : ascii -> bool) (s : string) :
  String.length s
  = (String.length (fst (span p s)) + String.length (snd (span p s)))%nat.
Proof.
  induction s as [| c r IH]; simpl; [reflexivity |].
  destruct (p c); simpl; [| reflexivity].
  destruct (span p r) as [m rest]. simpl in *. lia.
Qed.

Lemma string_body_length (s : string) :
  (String.length (snd (string_body s)) <= String.length s)%nat.
Proof.
  assert (H : forall n s, (String.length s <= n)%nat ->
                          (String.length (snd (string_body s)) <= String.length s)%nat).
  { intros n. induction n as [| n IH]; intros [| c r] Hn; simpl in *; try lia.
    destruct (Ascii.eqb c backslash).
    - destruct r as [| c' r']; simpl; [lia |].
      destruct (is_line_terminator c'); simpl; [lia |].
      specialize (IH r' ltac:(simpl in Hn; lia)).
      destruct (string_body r') as [m rest]. simpl in *. lia.
    - destruct (Ascii.eqb c dquote); simpl; [lia |].
      specialize (IH r ltac:(lia)).
      destruct (string_body r) as [m rest]. simpl in *. lia. }
  apply (H (String.length s)). lia.
Qed.

Lemma nonempty_match_length (p : ascii -> bool) (s m rest : string) :
  nonempty_match (span p s) = Some (m, rest) ->
  (String.length rest < String.length s)%nat
  /\ exists c r, m = String c r /\ p c = true.
Proof.
  unfold nonempty_match. pose proof (span_length p s) as Hlen.
  destruct s as [| c r]; simpl in *; [discriminate |].
  destruct (p c) eqn:Hp; simpl in *; [| discriminate].
  destruct (span p r) as [m' rest']. simpl in *.
  intros H. injection H as <- <-. split; [lia |]. eauto.
Qed.

Lemma regex_match_here_progress (s m rest : string) (ty : type.Type_) :
  regex_match_here s = Some (ty, (m, rest)) ->
  (String.length rest < String.length s)%nat.
Proof.
  unfold regex_match_here.
  destruct (match_whitespace s) as [[m1 r1] |] eqn:E1.
  { intros H. injection H as <- <- <-.
    apply nonempty_match_length in E1. apply E1. }
  destruct (match_special_chars s) as [[m2 r2] |] eqn:E2.
  { intros H. injection H as <- <- <-. unfold match_special_chars in E2.
    destruct s as [| c1 [| c2 r]]; try discriminate.
    destruct (_ && _); [injection E2 as <- <-; simpl; lia |].
    destruct (_ && _); [injection E2 as <- <-; simpl; lia | discriminate]. }
  destruct (match_special_char s) as [[m3 r3] |] eqn:E3.
  { intros H. injection H as <- <- <-. unfold match_special_char in E3.
    destruct s as [| c r]; [discriminate |].
    destruct (special_char_class c); [| discriminate].
    injection E3 as <- <-. simpl. lia. }
  destruct (match_string s) as [[m4 r4] |] eqn:E4.
  { intros H. injection H as <- <- <-. unfold match_string in E4.
    destruct s as [| c r]; [discriminate |].
    destruct (Ascii.eqb c dquote); [| discriminate].
    pose proof (string_body_length r) as Hlen.
    destruct (string_body r) as [b rest']. simpl in Hlen.
    destruct rest' as [| c' rest''].
    - injection E4 as <- <-. simpl. lia.
    - destruct (Ascii.eqb c' dquote); injection E4 as <- <-; simpl in *; lia. }
  destruct (match_comment s) as [[m5 r5] |] eqn:E5.
  { intros H. injection H as <- <- <-. unfold match_comment in E5.
    destruct s as [| c r]; [discriminate |].
    destruct (Ascii.eqb c ";"); [| discriminate].
    pose proof (span_length (fun c => negb (is_line_terminator c)) r) as Hlen.
    destruct (span _ r) as [b rest']. injection E5 as <- <-. simpl in *. lia. }
  destruct (match_number s) as [[m6 r6] |] eqn:E6.
  { intros H. injection H as <- <- <-. unfold match_number in E6.
    destruct (nonempty_match (span is_digit s)) as [[int_part rest'] |] eqn:En;
      [| discriminate].
    apply nonempty_match_length in En. destruct En as [Hlt _].
    destruct rest' as [| c rest'']; [injection E6 as <- <-; assumption |].
    destruct (Ascii.eqb c ".").
    - pose proof (span_length is_digit rest'') as Hlen.
      destruct (span is_digit rest'') as [frac r']. injection E6 as <- <-.
      simpl in *. lia.
    - injection E6 as <- <-. assumption. }
  destruct (match_symbol s) as [[m7 r7] |] eqn:E7; [| discriminate].
  intros H. injection H as <- <- <-.
  apply nonempty_match_length in E7. apply E7.
Qed.

Lemma match_number_digit (s m rest : string) :
  match_number s = Some (m, rest) ->
  exists c r, m = String c r /\ is_digit c = true.
Proof.
  unfold match_number.
  destruct (nonempty_match (span is_digit s)) as [[int_part rest'] |] eqn:En;
    [| discriminate].
  apply nonempty_match_length in En. destruct En as (_ & c & r & -> & Hc).
  destruct rest' as [| c' rest'']; [intros H; injection H as <- <-; eauto |].
  destruct (Ascii.eqb c' ".").
  - destruct (span is_digit rest'') as [frac r'].
    intros H. injection H as <- <-. simpl. eauto.
  - intros H. injection H as <- <-. eauto.
Qed.

(** On a string that starts with a digit [stol] returns or the number does
    not fit. *)
Lemma stol_digit (c : ascii) (r : string) :
  is_digit c = true ->
  (exists n, stol (String c r) = Returns n)
  \/ stol (String c r) = Throws out_of_range.
Proof.
  intros Hd. unfold stol.
  assert (Hs : is_space c = false).
  { destruct c as [[] [] [] [] [] [] [] []]; try discriminate; reflexivity. }
  assert (Hm : Ascii.eqb c "-" = false).
  { destruct c as [[] [] [] [] [] [] [] []]; try discriminate; reflexivity. }
  assert (Hp : Ascii.eqb c "+" = false).
  { destruct c as [[] [] [] [] [] [] [] []]; try discriminate; reflexivity. }
  cbn [span]. rewrite Hs. cbn [snd]. rewrite Hm, Hp. cbn [snd fst span].
  rewrite Hd. destruct (span is_digit r) as [ds rest]. cbn [fst].
  destruct (_ && _); [left; eauto | right; reflexivity].
Qed.

Lemma parse_outcome (s m rest : string) (ty : type.Type_) (l c : Z) :
  regex_match_here s = Some (ty, (m, rest)) ->
  (exists v, parse std m ty = Returns v /\ well_typed (mkToken v ty l c) = true)
  \/ parse std m ty = Throws out_of_range.
Proof.
  intros Hm.
  destruct ty; try (left; eexists; split; reflexivity).
  - (* NUMBER *)
    assert (Hn : match_number s = Some (m, rest)).
    { unfold regex_match_here in Hm.
      repeat match type of Hm with
             | match ?x with Some _ => _ | None => _ end = _ =>
                 destruct x as [[? ?] |] eqn:?; try discriminate
             end; congruence. }
    destruct (match_number_digit _ _ _ Hn) as (ch & r & -> & Hd).
    unfold parse. destruct (negb (has_dot (String ch r))).
    + destruct (stol_digit ch r Hd) as [[n ->] | ->].
      * left. eexists. split; reflexivity.
      * right. reflexivity.
    + destruct (stod std (String ch r)).
      * left. eexists. split; reflexivity.
      * right. reflexivity.
  - (* SYMBOL *)
    left. unfold parse.
    destruct (String.eqb m "true"); [eexists; split; reflexivity |].
    destruct (String.eqb m "false"); eexists; split; reflexivity.
Qed.

Lemma tokenize_from_outcome (fuel : nat) :
  forall (s : string) (position line : Z),
    (String.length s < fuel)%nat ->
    (exists tokens,
        tokenize_from std fuel s position line = Returns tokens
        /\ all_well_typed tokens)
    \/ tokenize_from std fuel s position line = Throws out_of_range.
Proof.
  induction fuel as [| fuel IH]; intros s position line Hfuel; [lia |].
  destruct s as [| ch r]; cbn [tokenize_from].
  { left. eexists. split; [reflexivity | apply Forall_nil_2]. }
  destruct (regex_match_here (String ch r)) as [[ty [m rest]] |] eqn:Hm.
  2:{ apply IH. simpl in Hfuel. lia. }
  pose proof (regex_match_here_progress _ _ _ _ Hm) as Hlt.
  destruct (parse_outcome _ _ _ _ line (position + 1) Hm) as [(v & -> & Hwt) | ->];
    [| right; reflexivity].
  cbn [bind].
  destruct (IH rest (position + Z.of_nat (String.length m))
              (line + count_newlines m) ltac:(lia)) as [(tokens & -> & Hall) | ->];
    [| right; reflexivity].
  left. eexists. split; [reflexivity |].
  apply Forall_cons. split; assumption.
Qed.

(** [read] returns its forms, unless a number of the input does not fit its
    type, in which case [std::out_of_range] leaves [read]. *)
Lemma read_outcome (input : string) :
  (exists tokens forms,
      tokenize std input = Returns tokens /\ read std input = Returns forms)
  \/ (tokenize std input = Throws out_of_range
      /\ read std input = Throws out_of_range).
Proof.
  unfold read, tokenize.
  destruct (tokenize_from_outcome (S (String.length input)) input 0 1 ltac:(lia))
    as [(tokens & -> & Hwt) | ->]; [| right; split; reflexivity].
  left. destruct (read_forms_terminates tokens Hwt) as [forms Hf].
  exists tokens, forms. split; [reflexivity | exact Hf].
Qed.

(** C3 (defect of [parse]).  [read] should return forms for every input and
    let no exception out.  It does return for every input but for one
    failure: an integer literal above [LONG_MAX] makes [std::stol] throw
    [std::out_of_range] in [parse] (and so does [std::stod]), and nothing
    between [parse] and the caller of [read] catches it. *)
Theorem read_throws_out_of_range :
  stol "9223372036854775807" = Returns LONG_MAX
  /\ stol "9223372036854775808" = Throws out_of_range
  /\ tokenize std "9223372036854775808" = Throws out_of_range
  /\ read std "9223372036854775808" = Throws out_of_range
  /\ read std "(1 99999999999999999999)" = Throws out_of_range
  /\ (forall input : string,
         (exists forms, read std input = Returns forms)
         \/ read std input = Throws out_of_range).
Proof.
  repeat split; try reflexivity.
  intros input.
  destruct (read_outcome input) as [(tokens & forms & _ & H) | [_ H]]; eauto.
Qed.

(** ** Errors that end the read *)

(** A reader error that carries a token leaves the cursor at the end of the
    stream. *)
Lemma reader_error_ends (fuel : nat) :
  (forall (it it' : Cursor) (f : Form),
      read_form std fuel it = Returns (f, it') ->
      carries_token f = true -> it' = [])
  /\ (forall (it it' : Cursor) (forms : list Form) (form_type : form.Type_)
             (end_delimiter : ascii) (f : Form),
         read_coll_loop std fuel it forms form_type end_delimiter = Returns (f, it') ->
         carries_token f = true -> it' = []).
Proof.
  induction fuel as [| fuel [IHform IHloop]]; [split; discriminate |].
  split.
  - intros [| token next] it' f; [discriminate |].
    destruct (read_form_cases fuel token next)
      as [(form_type & end_delimiter & _ & ->)
         | [[name ->] | [[name ->] | [[message ->] | [[t ->] | [_ ->]]]]]].
    + apply IHloop.
    + unfold expand_quoted_form, expand_quoted_form_.
      destruct (read_useful_form_ (read_form std fuel) next) as [[ret |] | | |];
        simpl; try discriminate.
      * intros H. injection H as <- <-. discriminate.
      * intros H. injection H as <- <-. reflexivity.
    + unfold expand_meta_quoted_form, expand_meta_quoted_form_.
      destruct (read_useful_form_ (read_form std fuel) next) as [[ret |] | | |];
        simpl; try discriminate.
      * destruct (read_useful_form_ (read_form std fuel) (snd ret))
          as [[ret2 |] | | |]; simpl; try discriminate.
        -- intros H. injection H as <- <-. discriminate.
        -- intros H. injection H as <- <-. reflexivity.
      * intros H. injection H as <- <-. reflexivity.
    + intros H. injection H as <- <-. reflexivity.
    + intros H. injection H as <- <-. discriminate.
    + discriminate.
  - intros it it' forms form_type end_delimiter f.
    destruct (read_coll_loop_cases fuel it forms form_type end_delimiter)
      as [[_ ->]
         | (token & it1 & Hu & [(_ & _ & ->) | [(c & _ & ->) | [-> | [_ ->]]]])].
    + intros H. injection H as <- <-. reflexivity.
    + intros H. injection H as <- <-.
      destruct (close_coll std form_type forms) as [s | | | | |] eqn:E;
        try discriminate.
      simpl. rewrite (close_coll_error _ _ _ E). discriminate.
    + intros H. injection H as <- <-. reflexivity.
    + destruct (read_form std fuel it1) as [[f1 it2] | | |]; simpl;
        try discriminate.
      apply IHloop.
    + discriminate.
Qed.

Lemma read_forms_loop_error_last (fuel : nat) :
  forall (it : Cursor) (forms out : list Form),
    read_forms_loop std fuel it forms = Returns out ->
    exists new,
      out = forms ++ new
      /\ forall (i : nat) (f : Form),
           new !! i = Some f -> carries_token f = true -> S i = length new.
Proof.
  induction fuel as [| fuel IH]; intros it forms out; [discriminate |].
  simpl. unfold read_useful_form at 1, read_useful_form_.
  destruct (read_useful_token it) as [[token it1] |]; simpl.
  2:{ intros H. injection H as <-. exists []. rewrite app_nil_r.
      split; [reflexivity |]. intros i f Hi. discriminate. }
  destruct (read_form std fuel it1) as [[f1 it2] | | |] eqn:Hrf; simpl;
    try discriminate.
  intros Hloop. destruct (IH _ _ _ Hloop) as (new & -> & Hlast).
  exists (f1 :: new). rewrite <- app_assoc. split; [reflexivity |].
  intros [| i] f; simpl.
  - intros H Hc. injection H as ->.
    rewrite (proj1 (reader_error_ends fuel) _ _ _ Hrf Hc) in Hloop.
    destruct fuel as [| fuel']; [discriminate |]. simpl in Hloop.
    injection Hloop as Hout.
    assert (Hnew : new = []).
    { apply (app_inv_head (forms ++ [f])). rewrite app_nil_r. symmetry. exact Hout. }
    subst new. reflexivity.
  - intros H Hc. rewrite (Hlast i f H Hc). reflexivity.
Qed.



End Facts.

(** ** The engine of [src/zachlisp.hpp] *)

(** The comparison of the variants tells the empty list from the empty
    vector, which the comparison of the hashes does not. *)
Lemma zachlisp_equals_variants :
  ZachLisp.equals (ZachLisp.FList []) (ZachLisp.FVector []) = false.
Proof. reflexivity. Qed.

(** Two maps are equal for it when they are one allocation, whatever they
    hold. *)
Lemma zachlisp_equals_addresses
    (p q : positive) (m1 m2 : list (ZachLisp.Form * ZachLisp.Form)) :
  ZachLisp.equals (ZachLisp.FMap p m1) (ZachLisp.FMap q m2) = Pos.eqb p q.
Proof. reflexivity. Qed.

(** Without the sort the hash of a map follows the order of iteration. *)
Lemma zachlisp_hashMap_iteration_order :
  let one := ZachLisp.FToken (tok_long 1 2) in
  let two := ZachLisp.FToken (tok_long 2 4) in
  ZachLisp.hash sample_std (ZachLisp.FMap 1 [(one, two); (two, one)])
  <> ZachLisp.hash sample_std (ZachLisp.FMap 1 [(two, one); (one, two)]).
Proof. vm_compute. discriminate. Qed.

(** ** Instances on the sample library *)


Lemma read_coll_unmatched_delimiter_witness :
  read_coll_loop sample_std 1
    [tok_space 4; tok_char "]" 5; tok_long 3 6]
    [FToken (tok_long 1 2)] form.MAP "}"
  = Returns (unmatched_delimiter (tok_char "]" 5) "]", []).
Proof.
  apply (read_coll_unmatched_delimiter sample_std 0
           [tok_space 4; tok_char "]" 5; tok_long 3 6]
           [tok_char "]" 5; tok_long 3 6]
           [FToken (tok_long 1 2)] form.MAP "}" "]" (tok_char "]" 5)).
  - reflexivity.
  - reflexivity.
  - repeat split; reflexivity.
  - discriminate.
Defined.

Lemma read_coll_eof_witness :
  read_coll_loop sample_std 1 [tok_space 4] [FToken (tok_long 1 2)] form.LIST ")"
  = Returns (ReaderError "EOF: no ) found" None, []).
Proof.
  apply (read_coll_eof sample_std 0 [tok_space 4] [FToken (tok_long 1 2)]
           form.LIST ")").
  - reflexivity.
  - reflexivity.
Defined.

Lemma read_form_meta_witness :
  read_form sample_std 2
    [tok_char "^" 1; tok_symbol "m" 2; tok_space 3; tok_symbol "x" 4]
  = Returns (FList [FToken (tok_symbol "with-meta" 1);
                    FToken (tok_symbol "x" 4);
                    FToken (tok_symbol "m" 2)], []).
Proof.
  apply (proj1 (read_form_meta sample_std 1 (tok_char "^" 1)
                  [tok_symbol "m" 2; tok_space 3; tok_symbol "x" 4]
                  eq_refl eq_refl)
           (FToken (tok_symbol "m" 2)) (FToken (tok_symbol "x" 4))
           [tok_space 3; tok_symbol "x" 4] []).
  - reflexivity.
  - reflexivity.
Defined.

Lemma read_form_quote_sugar_witness :
  read_form sample_std 2 [tok_char "`" 1; tok_symbol "x" 2; tok_space 3]
  = Returns (FList [FToken (tok_symbol "quasiquote" 1); FToken (tok_symbol "x" 2)],
             [tok_space 3]).
Proof.
  apply (proj1 (read_form_quote_sugar sample_std 1 (tok_char "`" 1)
                  [tok_symbol "x" 2; tok_space 3] "quasiquote" eq_refl)
           (FToken (tok_symbol "x" 2)) [tok_space 3]).
  reflexivity.
Defined.

(** C8, as it was stated, fails on a lone quote: the error carries the
    symbol token of the expansion, not the sugar token. *)
Lemma quote_error_token_is_not_the_sugar_token :
  tokenize sample_std "'" = Returns [tok_char "'" 1]
  /\ read sample_std "'"
     = Returns [ReaderError "EOF: Nothing found after quote"
                  (Some (tok_symbol "quote" 1))]
  /\ read sample_std "'"
     <> Returns [ReaderError "EOF: Nothing found after quote"
                   (Some (tok_char "'" 1))].
Proof.
  split; [reflexivity |]. split; [reflexivity |].
  vm_compute. discriminate.
Qed.





(** * Further properties *)

Section MoreFacts.

Variable std : StdLib.

(** ** The tokenizer *)

Lemma span_append (p : ascii -> bool) (s : string) :
  s = String.append (fst (span p s)) (snd (span p s)).
Proof.
  induction s as [| c r IH]; simpl; [reflexivity |].
  destruct (p c); simpl; [| reflexivity].
  destruct (span p r) as [m rest]. simpl in *. congruence.
Qed.

Lemma append_empty_r (s : string) : String.append s EmptyString = s.
Proof. induction s as [| c r IH]; simpl; congruence. Qed.

Lemma span_all (p : ascii -> bool) (s : string) :
  snd (span p s) = EmptyString -> span p s = (s, EmptyString).
Proof.
  intros H. pose proof (span_append p s) as Hs. rewrite H in Hs.
  rewrite append_empty_r in Hs.
  destruct (span p s) as [m rest]. simpl in *. congruence.
Qed.

Lemma append_assoc (a b c : string) :
  String.append (String.append a b) c = String.append a (String.append b c).
Proof. induction a as [| x a IH]; simpl; congruence. Qed.

Lemma string_body_append (s : string) :
  s = String.append (fst (string_body s)) (snd (string_body s)).
Proof.
  assert (H : forall n s, (String.length s <= n)%nat ->
                          s = String.append (fst (string_body s))
                                (snd (string_body s))).
  { intros n. induction n as [| n IH]; intros [| c r] Hn; simpl in *;
      try reflexivity; try lia.
    destruct (Ascii.eqb c backslash).
    - destruct r as [| c' r']; simpl; [reflexivity |].
      destruct (is_line_terminator c'); simpl; [reflexivity |].
      specialize (IH r' ltac:(simpl in Hn; lia)).
      destruct (string_body r') as [m rest]. simpl in *. congruence.
    - destruct (Ascii.eqb c dquote); simpl; [reflexivity |].
      specialize (IH r ltac:(lia)).
      destruct (string_body r) as [m rest]. simpl in *. congruence. }
  apply (H (String.length s)). lia.
Qed.

Lemma nonempty_match_split (p : ascii -> bool) (s m rest : string) :
  nonempty_match (span p s) = Some (m, rest) ->
  s = String.append m rest /\ m <> EmptyString.
Proof.
  unfold nonempty_match. pose proof (span_append p s) as Hs.
  destruct (span p s) as [m' rest']. simpl in *.
  destruct m' as [| c m']; [discriminate |].
  intros H. injection H as <- <-. split; [assumption | discriminate].
Qed.

(** Each match is a non-empty prefix of the text and leaves the rest. *)
Lemma regex_match_here_split (s m rest : string) (ty : type.Type_) :
  regex_match_here s = Some (ty, (m, rest)) ->
  s = String.append m rest /\ m <> EmptyString.
Proof.
  unfold regex_match_here.
  destruct (match_whitespace s) as [[m1 r1] |] eqn:E1.
  { intros H. injection H as <- <- <-. exact (nonempty_match_split _ _ _ _ E1). }
  destruct (match_special_chars s) as [[m2 r2] |] eqn:E2.
  { intros H. injection H as <- <- <-. unfold match_special_chars in E2.
    destruct s as [| c1 [| c2 r]]; try discriminate.
    destruct (Ascii.eqb c1 "~" && Ascii.eqb c2 "@") eqn:A.
    { injection E2 as <- <-. apply andb_true_iff in A. destruct A as [A1 A2].
      apply Ascii.eqb_eq in A1, A2. subst. split; [reflexivity | discriminate]. }
    destruct (Ascii.eqb c1 "#" && Ascii.eqb c2 "{") eqn:B; [| discriminate].
    injection E2 as <- <-. apply andb_true_iff in B. destruct B as [B1 B2].
    apply Ascii.eqb_eq in B1, B2. subst. split; [reflexivity | discriminate]. }
  destruct (match_special_char s) as [[m3 r3] |] eqn:E3.
  { intros H. injection H as <- <- <-. unfold match_special_char in E3.
    destruct s as [| c r]; [discriminate |].
    destruct (special_char_class c); [| discriminate].
    injection E3 as <- <-. split; [reflexivity | discriminate]. }
  destruct (match_string s) as [[m4 r4] |] eqn:E4.
  { intros H. injection H as <- <- <-. unfold match_string in E4.
    destruct s as [| c r]; [discriminate |].
    destruct (Ascii.eqb c dquote); [| discriminate].
    pose proof (string_body_append r) as Hs.
    destruct (string_body r) as [b rest']. simpl in Hs.
    destruct rest' as [| c' rest''].
    - injection E4 as <- <-. split; [simpl; congruence | discriminate].
    - destruct (Ascii.eqb c' dquote); injection E4 as <- <-;
        (split; [| discriminate]); simpl; rewrite ?append_assoc; simpl;
        congruence. }
  destruct (match_comment s) as [[m5 r5] |] eqn:E5.
  { intros H. injection H as <- <- <-. unfold match_comment in E5.
    destruct s as [| c r]; [discriminate |].
    destruct (Ascii.eqb c ";"); [| discriminate].
    pose proof (span_append (fun c => negb (is_line_terminator c)) r) as Hs.
    destruct (span _ r) as [b rest']. injection E5 as <- <-.
    simpl in *. split; [congruence | discriminate]. }
  destruct (match_number s) as [[m6 r6] |] eqn:E6.
  { intros H. injection H as <- <- <-. unfold match_number in E6.
    destruct (nonempty_match (span is_digit s)) as [[int_part rest'] |] eqn:En;
      [| discriminate].
    apply nonempty_match_split in En. destruct En as [Hs Hne].
    assert (Hne' : forall x, String.append int_part x <> EmptyString).
    { intros x. destruct int_part; [contradiction | discriminate]. }
    destruct rest' as [| c rest'']; [injection E6 as <- <-; auto |].
    destruct (Ascii.eqb c ".").
    - pose proof (span_append is_digit rest'') as Hs2.
      destruct (span is_digit rest'') as [frac r']. injection E6 as <- <-.
      simpl in *. split; [| apply Hne'].
      rewrite append_assoc. simpl. congruence.
    - injection E6 as <- <-. auto. }
  destruct (match_symbol s) as [[m7 r7] |] eqn:E7; [| discriminate].
  intros H. injection H as <- <- <-. exact (nonempty_match_split _ _ _ _ E7).
Qed.

(** Every character starts some alternative. *)
Lemma char_classes_cover (c : ascii) :
  whitespace_class c = true \/ special_char_class c = true
  \/ Ascii.eqb c dquote = true \/ Ascii.eqb c ";" = true
  \/ symbol_class c = true.
Proof.
  destruct c as [[] [] [] [] [] [] [] []]; vm_compute; tauto.
Qed.

Lemma nonempty_match_first (p : ascii -> bool) (c : ascii) (r : string) :
  p c = true -> nonempty_match (span p (String c r)) <> None.
Proof.
  intros H. unfold nonempty_match. simpl. rewrite H.
  destruct (span p r). discriminate.
Qed.

Lemma regex_match_here_total (c : ascii) (r : string) :
  regex_match_here (String c r) <> None.
Proof.
  unfold regex_match_here.
  destruct (match_whitespace (String c r)) eqn:E1; [discriminate |].
  destruct (match_special_chars (String c r)) eqn:E2; [discriminate |].
  destruct (match_special_char (String c r)) eqn:E3; [discriminate |].
  destruct (match_string (String c r)) eqn:E4; [discriminate |].
  destruct (match_comment (String c r)) eqn:E5; [discriminate |].
  destruct (match_number (String c r)) eqn:E6; [discriminate |].
  destruct (match_symbol (String c r)) eqn:E7; [discriminate |].
  exfalso.
  destruct (char_classes_cover c) as [H | [H | [H | [H | H]]]].
  - exact (nonempty_match_first _ c r H E1).
  - unfold match_special_char in E3. rewrite H in E3. discriminate.
  - unfold match_string in E4. rewrite H in E4.
    destruct (string_body r) as [m rest].
    destruct rest as [| c' rest']; [discriminate |].
    destruct (Ascii.eqb c' dquote); discriminate.
  - unfold match_comment in E5. rewrite H in E5.
    destruct (span _ r). discriminate.
  - exact (nonempty_match_first _ c r H E7).
Qed.

Lemma length_append (a b : string) :
  String.length (String.append a b) = (String.length a + String.length b)%nat.
Proof. induction a as [| c a IH]; simpl; congruence. Qed.

Lemma count_newlines_append (a b : string) :
  count_newlines (String.append a b) = count_newlines a + count_newlines b.
Proof. induction a as [| c a IH]; simpl; [reflexivity | rewrite IH; lia]. Qed.

Lemma count_newlines_nonneg (s : string) : 0 <= count_newlines s.
Proof.
  induction s as [| c s IH]; simpl; [lia |].
  destruct (Ascii.eqb c "010"); lia.
Qed.

(** X1.  On an input short enough for its lines and columns to fit an
    [int], the tokens that [tokenize] returns are those of consecutive
    pieces of the input: no piece is empty, no character is skipped or
    read twice, the value of each token is [parse] of its piece, and its
    column and line are those of the first character of its piece, both
    between 1 and [INT_MAX]. *)
Theorem tokenize_lexed (fuel : nat) :
  forall (s : string) (position line0 : Z) (tokens : list Token),
    0 <= position ->
    1 <= line0 ->
    position + Z.of_nat (String.length s) <= INT_MAX ->
    line0 + count_newlines s <= INT_MAX ->
    tokenize_from std fuel s position line0 = Returns tokens ->
    lexed std s position line0 tokens
    /\ Forall (fun t => 1 <= column t <= INT_MAX /\ 1 <= line t <= INT_MAX)
         tokens.
Proof.
  induction fuel as [| fuel IH]; intros s position line0 tokens Hpos Hline Hcol Hln;
    [discriminate |].
  destruct s as [| c r]; cbn [tokenize_from].
  { intros H. injection H as <-. split; [reflexivity | apply Forall_nil_2]. }
  destruct (regex_match_here (String c r)) as [[ty [text rest]] |] eqn:Hm.
  2:{ exfalso. exact (regex_match_here_total c r Hm). }
  destruct (regex_match_here_split _ _ _ _ Hm) as [Hs Hne].
  destruct (parse std text ty) as [v | | |] eqn:Hp; try discriminate.
  cbn [bind].
  destruct (tokenize_from std fuel rest _ _) as [ts | | |] eqn:Ht;
    try discriminate.
  cbn [bind]. intros H. injection H as <-.
  rewrite Hs, length_append in Hcol. rewrite Hs, count_newlines_append in Hln.
  pose proof (count_newlines_nonneg text) as Htext.
  pose proof (count_newlines_nonneg rest) as Hrest.
  assert (Hlen : (0 < String.length text)%nat)
    by (destruct text; [contradiction | simpl; lia]).
  destruct (IH rest (position + Z.of_nat (String.length text))
              (line0 + count_newlines text) ts
              ltac:(lia) ltac:(lia) ltac:(lia) ltac:(lia) Ht)
    as [Hlexed Hall].
  split.
  - exists text, rest.
    split; [exact Hs |]; split; [exact Hne |]; split; [exact Hp |].
    split; [reflexivity |]; split; [reflexivity |]. exact Hlexed.
  - apply Forall_cons. split; [| exact Hall]. cbn [column line]. lia.
Qed.

(** ** Numbers and the values of tokens *)

Lemma digit_value_range (c : ascii) :
  is_digit c = true -> 0 <= digit_value c <= 9.
Proof.
  destruct c as [[] [] [] [] [] [] [] []]; try discriminate;
    intros _; vm_compute; split; discriminate.
Qed.

Lemma digit_classes (c : ascii) :
  is_digit c = true ->
  is_space c = false /\ Ascii.eqb c "-" = false /\ Ascii.eqb c "+" = false
  /\ Ascii.eqb c "." = false.
Proof.
  destruct c as [[] [] [] [] [] [] [] []]; try discriminate;
    intros _; repeat split.
Qed.

Lemma span_forall (p : ascii -> bool) (s : string) :
  forall c r, fst (span p s) = String c r ->
              p c = true /\ fst (span p r) = r.
Proof.
  induction s as [| x s IH]; intros c r; simpl; [discriminate |].
  destruct (p x) eqn:Hp; [| discriminate].
  destruct (span p s) as [m rest] eqn:E. simpl.
  intros H. injection H as -> ->. split; [assumption |].
  destruct r as [| c' r']; [reflexivity |].
  destruct (IH c' r' eq_refl) as [Hc Hr]. simpl. rewrite Hc.
  destruct (span p r'). simpl in *. congruence.
Qed.

Lemma all_digits_span (s : string) :
  all_digits s = true <-> fst (span is_digit s) = s.
Proof.
  induction s as [| c r IH]; simpl; [tauto |].
  destruct (is_digit c); simpl.
  - destruct (span is_digit r) as [m rest]. simpl in *.
    rewrite IH. split; congruence.
  - split; discriminate.
Qed.

Lemma decimal_value_ge (s : string) :
  forall acc : Z,
    all_digits s = true -> 0 <= acc -> acc <= decimal_value acc s.
Proof.
  induction s as [| c r IH]; intros acc; simpl; [lia |].
  intros H Hacc. apply andb_true_iff in H. destruct H as [Hc Hr].
  pose proof (digit_value_range c Hc).
  specialize (IH (10 * acc + digit_value c) Hr ltac:(lia)). lia.
Qed.

(** [stol] on a text that starts with a digit: the value of its leading
    digits when that fits a [long], [std::out_of_range] otherwise. *)
Lemma stol_leading_digits (c : ascii) (r : string) :
  is_digit c = true ->
  let n := decimal_value 0 (fst (span is_digit (String c r))) in
  0 <= n
  /\ stol (String c r)
     = (if n <=? LONG_MAX then Returns n else Throws out_of_range).
Proof.
  intros Hd n.
  destruct (digit_classes c Hd) as (Hs & Hm & Hp & _).
  assert (Hall : all_digits (fst (span is_digit (String c r))) = true).
  { apply all_digits_span.
    destruct (fst (span is_digit (String c r))) as [| x ds] eqn:E;
      [reflexivity |].
    destruct (span_forall _ _ _ _ E) as [Hx Hds]. simpl. rewrite Hx.
    destruct (span is_digit ds). simpl in *. congruence. }
  assert (Hn : 0 <= n) by (apply decimal_value_ge; [exact Hall | lia]).
  split; [exact Hn |].
  unfold stol. cbn [span]. rewrite Hs. cbn [snd]. rewrite Hm, Hp. cbn [snd fst].
  fold n.
  destruct (fst (span is_digit (String c r))) as [| x ds] eqn:E.
  { simpl in E. rewrite Hd in E. destruct (span is_digit r). discriminate. }
  assert (Hmin : (LONG_MIN <=? n) = true).
  { apply Z.leb_le. unfold LONG_MIN. lia. }
  rewrite Hmin. reflexivity.
Qed.

Lemma all_digits_no_dot (s : string) : all_digits s = true -> has_dot s = false.
Proof.
  induction s as [| c r IH]; simpl; [reflexivity |].
  intros H. apply andb_true_iff in H. destruct H as [Hc Hr].
  destruct (digit_classes c Hc) as (_ & _ & _ & ->). simpl. auto.
Qed.

(** X2.  A literal made of digits only parses to the integer it denotes
    when this is at most [LONG_MAX]; above that, [parse] throws
    [std::out_of_range], whatever the length of the literal. *)
Theorem parse_integer_literal (digits : string) :
  all_digits digits = true ->
  digits <> EmptyString ->
  parse std digits type.NUMBER
  = (if decimal_value 0 digits <=? LONG_MAX
     then Returns (value.LONG (decimal_value 0 digits))
     else Throws out_of_range).
Proof.
  intros Hall Hne. destruct digits as [| c r]; [contradiction |].
  unfold parse. rewrite (all_digits_no_dot _ Hall). cbn [negb].
  pose proof Hall as Hc. simpl in Hc. apply andb_true_iff in Hc.
  destruct Hc as [Hc _].
  destruct (stol_leading_digits c r Hc) as [_ ->].
  rewrite (proj1 (all_digits_span _) Hall).
  destruct (_ <=? _); reflexivity.
Qed.

Lemma parse_value_fits (s m rest : string) (ty : type.Type_)
    (v : value.Value) (l c : Z) :
  regex_match_here s = Some (ty, (m, rest)) ->
  parse std m ty = Returns v ->
  value_fits (mkToken v ty l c) = true.
Proof.
  intros Hm Hp.
  destruct (regex_match_here_split _ _ _ _ Hm) as [_ Hne].
  assert (Hnem : nonempty m = true) by (destruct m; [contradiction | reflexivity]).
  unfold regex_match_here in Hm.
  destruct (match_whitespace s) as [[m1 r1] |] eqn:E1.
  { injection Hm as <- <- <-. injection Hp as <-. exact Hnem. }
  destruct (match_special_chars s) as [[m2 r2] |] eqn:E2.
  { injection Hm as <- <- <-. injection Hp as <-. unfold match_special_chars in E2.
    destruct s as [| c1 [| c2 r]]; try discriminate.
    destruct (_ && _); [injection E2 as <- <-; reflexivity |].
    destruct (_ && _); [injection E2 as <- <-; reflexivity | discriminate]. }
  destruct (match_special_char s) as [[m3 r3] |] eqn:E3.
  { injection Hm as <- <- <-. unfold match_special_char in E3.
    destruct s as [| ch r]; [discriminate |].
    destruct (special_char_class ch) eqn:Hc; [| discriminate].
    injection E3 as <- <-. injection Hp as <-. exact Hc. }
  destruct (match_string s) as [[m4 r4] |] eqn:E4.
  { injection Hm as <- <- <-. injection Hp as <-. exact Hnem. }
  destruct (match_comment s) as [[m5 r5] |] eqn:E5.
  { injection Hm as <- <- <-. injection Hp as <-. exact Hnem. }
  destruct (match_number s) as [[m6 r6] |] eqn:E6.
  { injection Hm as <- <- <-.
    destruct (match_number_digit _ _ _ E6) as (ch & r & -> & Hd).
    unfold parse in Hp. destruct (negb (has_dot (String ch r))).
    - destruct (stol_leading_digits ch r Hd) as [Hn Hs]. rewrite Hs in Hp.
      destruct (_ <=? LONG_MAX) eqn:Hle; [| discriminate].
      injection Hp as <-. unfold value_fits. cbn [type value].
      apply andb_true_iff. split; [apply Z.leb_le; exact Hn | exact Hle].
    - destruct (stod std (String ch r)); [| discriminate].
      injection Hp as <-. reflexivity. }
  destruct (match_symbol s) as [[m7 r7] |] eqn:E7; [| discriminate].
  injection Hm as <- <- <-. unfold parse in Hp. unfold value_fits. cbn [type value].
  destruct (String.eqb m7 "true") eqn:Et; [injection Hp as <-; reflexivity |].
  destruct (String.eqb m7 "false") eqn:Ef; [injection Hp as <-; reflexivity |].
  injection Hp as <-. rewrite Hnem, Et, Ef. reflexivity.
Qed.

(** X3.  In every token that [tokenize] returns the value is of the
    alternative that goes with the type: a character of the
    SPECIAL_CHAR class, one of the two SPECIAL_CHARS texts, a [long]
    between 0 and [LONG_MAX] or a [double] for a NUMBER, a [bool] or a text
    other than true and false for a SYMBOL, a non-empty text for the
    rest. *)
Theorem tokenize_value_fits (fuel : nat) :
  forall (s : string) (position line : Z) (tokens : list Token),
    tokenize_from std fuel s position line = Returns tokens ->
    Forall (fun t => value_fits t = true) tokens.
Proof.
  induction fuel as [| fuel IH]; intros s position line tokens; [discriminate |].
  destruct s as [| c r]; cbn [tokenize_from].
  { intros H. injection H as <-. apply Forall_nil_2. }
  destruct (regex_match_here (String c r)) as [[ty [text rest]] |] eqn:Hm.
  2:{ apply IH. }
  destruct (parse std text ty) as [v | | |] eqn:Hp; try discriminate.
  cbn [bind].
  destruct (tokenize_from std fuel rest _ _) as [ts | | |] eqn:Ht;
    try discriminate.
  cbn [bind]. intros H. injection H as <-.
  apply Forall_cons. split.
  - exact (parse_value_fits _ _ _ _ _ _ _ Hm Hp).
  - exact (IH _ _ _ _ Ht).
Qed.

(** ** Useful tokens *)

(** What [read_useful_token] returns, by cases. *)
Lemma read_useful_token_found (it : Cursor) :
  match read_useful_token it with
  | None => forallb skippable it = true
  | Some (token, it') =>
      exists skipped next,
        it = skipped ++ token :: next
        /\ it' = token :: next
        /\ forallb skippable skipped = true
        /\ skippable token = false
  end.
Proof.
  induction it as [| t it IH]; simpl; [reflexivity |].
  unfold skippable at 1 3.
  destruct (type t) eqn:Ht;
    try (exists [], it; repeat split; unfold skippable; rewrite Ht; reflexivity).
  all: destruct (read_useful_token it) as [[token it'] |];
    [| exact IH];
    destruct IH as (skipped & next & -> & -> & Hs & Hu);
    exists (t :: skipped), next; simpl; unfold skippable at 1; rewrite Ht;
    repeat split; assumption.
Qed.

(** X4.  [read_useful_token] steps over white space and comments only: it
    finds nothing exactly when all that is left is white space and
    comments, and otherwise returns the first other token with the cursor
    on it. *)
Theorem read_useful_token_spec (it : Cursor) :
  match read_useful_token it with
  | None => forallb skippable it = true
  | Some (token, it') =>
      exists skipped next,
        it = skipped ++ token :: next
        /\ it' = token :: next
        /\ forallb skippable skipped = true
        /\ skippable token = false
  end.
Proof. exact (read_useful_token_found it). Qed.

Lemma read_forms_loop_extends (fuel : nat) :
  forall (it : Cursor) (forms out : list Form),
    read_forms_loop std fuel it forms = Returns out ->
    exists new, out = forms ++ new.
Proof.
  intros it forms out H.
  destruct (read_forms_loop_error_last std fuel it forms out H) as (new & -> & _).
  exists new. reflexivity.
Qed.

Lemma read_forms_loop_S (fuel : nat) (it : Cursor) (forms : list Form) :
  read_forms_loop std (S fuel) it forms
  = (ret_opt <- read_useful_form std fuel it ;;
     match ret_opt with
     | Some ret => read_forms_loop std fuel (snd ret) (forms ++ [fst ret])
     | None => Returns forms
     end).
Proof. reflexivity. Qed.

(** X5.  [read_forms] returns no form at all exactly when the tokens are
    white space and comments only. *)
Theorem read_forms_nothing (tokens : list Token) :
  read_forms std tokens = Returns [] <-> forallb skippable tokens = true.
Proof.
  unfold read_forms. pose proof (read_useful_token_found tokens) as Hspec.
  replace (2 * length tokens + 2)%nat with (S (2 * length tokens + 1)) by lia.
  rewrite read_forms_loop_S.
  unfold read_useful_form, read_useful_form_.
  destruct (read_useful_token tokens) as [[token it'] |].
  - destruct Hspec as (skipped & next & -> & -> & Hs & Hu). split.
    + cbn [snd].
      destruct (read_form std _ (token :: next)) as [[f it2] | | |] eqn:Hrf;
        cbn [bind]; try discriminate.
      intros H. apply read_forms_loop_extends in H. destruct H as [new H].
      destruct new; discriminate.
    + rewrite forallb_app. simpl. rewrite Hu, andb_false_r. discriminate.
  - split; [intros _; exact Hspec | reflexivity].
Qed.

(** ** The reader, whatever the fuel *)

(** What [read_form] does on a token depends on the token alone. *)
Lemma read_form_shape (token : Token) (next : Cursor) :
  (exists form_type end_delimiter,
      opens token = Some form_type
      /\ TYPE_TO_DELIMITER form_type = Some end_delimiter
      /\ forall fuel,
           read_form std (S fuel) (token :: next)
           = read_coll_loop std fuel next [] form_type end_delimiter)
  \/ (exists name,
         quote_sugar token = Some name
         /\ forall fuel,
              read_form std (S fuel) (token :: next)
              = expand_quoted_form std fuel next (symbol_at token name))
  \/ (type token = type.SPECIAL_CHAR /\ value token = value.CHAR "^"
      /\ forall fuel,
           read_form std (S fuel) (token :: next)
           = expand_meta_quoted_form std fuel next (symbol_at token "with-meta"))
  \/ (exists message,
         forall fuel,
           read_form std (S fuel) (token :: next)
           = Returns (ReaderError message (Some token), []))
  \/ (exists t,
         type t = type token /\ opens token = None /\ quote_sugar token = None
         /\ forall fuel,
              read_form std (S fuel) (token :: next) = Returns (FToken t, next))
  \/ (well_typed token = false
      /\ forall fuel,
           read_form std (S fuel) (token :: next) = Throws bad_variant_access).
Proof.
  destruct token as [v t l c].
  destruct t;
    try (do 4 right; left; eexists; repeat split; destruct v; reflexivity).
  - (* SPECIAL_CHARS *)
    destruct v as [b | ch | n | d | s];
      try (do 5 right; split; reflexivity).
    unfold opens, quote_sugar. simpl.
    destruct (String.eqb_spec s "#{") as [-> | N1].
    { left. exists form.SET, "}"%char. repeat split; reflexivity. }
    destruct (String.eqb_spec s "~@") as [-> | N2].
    { right; left. eexists. split; reflexivity. }
    do 4 right; left. eexists. repeat split; reflexivity.
  - (* SPECIAL_CHAR *)
    destruct v as [b | ch | n | d | s];
      try (do 5 right; split; reflexivity).
    unfold opens, quote_sugar. simpl.
    destruct (Ascii.eqb_spec ch "(") as [-> | N1];
      [left; exists form.LIST, ")"%char; repeat split; reflexivity |].
    destruct (Ascii.eqb_spec ch "[") as [-> | N2];
      [left; exists form.VECTOR, "]"%char; repeat split; reflexivity |].
    destruct (Ascii.eqb_spec ch "{") as [-> | N3];
      [left; exists form.MAP, "}"%char; repeat split; reflexivity |].
    replace (char_in ch ["("; "["; "{"]%char) with false.
    2:{ unfold char_in. simpl. apply Ascii.eqb_neq in N1, N2, N3.
        rewrite N1, N2, N3. reflexivity. }
    destruct (char_in ch [")"; "]"; "}"]%char) eqn:Hclose;
      [do 3 right; left; eexists; reflexivity |].
    destruct (Ascii.eqb_spec ch "'") as [-> | M1];
      [right; left; eexists; split; reflexivity |].
    destruct (Ascii.eqb_spec ch "`") as [-> | M2];
      [right; left; eexists; split; reflexivity |].
    destruct (Ascii.eqb_spec ch "~") as [-> | M3];
      [right; left; eexists; split; reflexivity |].
    destruct (Ascii.eqb_spec ch "@") as [-> | M4];
      [right; left; eexists; split; reflexivity |].
    replace (char_in ch ["'"; "`"; "~"; "@"]%char) with false.
    2:{ unfold char_in. simpl. apply Ascii.eqb_neq in M1, M2, M3, M4.
        rewrite M1, M2, M3, M4. reflexivity. }
    destruct (Ascii.eqb_spec ch "^") as [-> | _];
      [do 2 right; left; repeat split; reflexivity |].
    do 4 right; left. eexists. repeat split; reflexivity.
  - (* STRING *)
    destruct v as [b | ch | n | d | s];
      try (do 5 right; split; reflexivity).
    simpl.
    destruct ((String.length s <? 2)%nat || negb (Ascii.eqb (back s) dquote)).
    + do 3 right; left. eexists. reflexivity.
    + do 4 right; left. eexists. repeat split; reflexivity.
Qed.

(** And one turn of the loop of [read_coll] on the cursor and the
    delimiter alone. *)
Lemma read_coll_loop_shape
    (it : Cursor) (form_type : form.Type_) (end_delimiter : ascii) :
  (read_useful_token it = None
   /\ forall fuel forms,
        read_coll_loop std (S fuel) it forms form_type end_delimiter
        = Returns (eof_no_delimiter end_delimiter, []))
  \/ (exists token it',
         read_useful_token it = Some (token, it')
         /\ ((type token = type.SPECIAL_CHAR
              /\ value token = value.CHAR end_delimiter
              /\ forall fuel forms,
                   read_coll_loop std (S fuel) it forms form_type end_delimiter
                   = Returns (close_coll std form_type forms, tl it'))
             \/ (exists c,
                    closes token c /\ c <> end_delimiter
                    /\ forall fuel forms,
                         read_coll_loop std (S fuel) it forms form_type
                           end_delimiter
                         = Returns (unmatched_delimiter token c, []))
             \/ (closing_token token = false
                 /\ (type token = type.SPECIAL_CHAR ->
                     value token <> value.CHAR end_delimiter)
                 /\ forall fuel forms,
                      read_coll_loop std (S fuel) it forms form_type end_delimiter
                      = (ret2 <- read_form std fuel it' ;;
                         read_coll_loop std fuel (snd ret2) (forms ++ [fst ret2])
                           form_type end_delimiter))
             \/ (well_typed token = false
                 /\ forall fuel forms,
                      read_coll_loop std (S fuel) it forms form_type end_delimiter
                      = Throws bad_variant_access))).
Proof.
  destruct (read_useful_token it) as [[token it'] |] eqn:Hu.
  2:{ left. split; [reflexivity |]. intros fuel forms. simpl. rewrite Hu.
      reflexivity. }
  right. exists token, it'. split; [reflexivity |].
  assert (Hstep : forall fuel forms,
            read_coll_loop std (S fuel) it forms form_type end_delimiter
            = (let read_on :=
                 ret2 <- read_form std fuel it' ;;
                 read_coll_loop std fuel (snd ret2) (forms ++ [fst ret2])
                   form_type end_delimiter in
               match type token with
               | type.SPECIAL_CHAR =>
                   c <- get_char (value token) ;;
                   if Ascii.eqb c end_delimiter then
                     Returns (close_coll std form_type forms, tl it')
                   else if char_in c [")"; "]"; "}"]%char then
                     Returns (unmatched_delimiter token c, [])
                   else read_on
               | _ => read_on
               end)).
  { intros fuel forms. simpl. rewrite Hu. reflexivity. }
  destruct token as [v t l c]. unfold closing_token. cbn [type value] in *.
  destruct t;
    try (do 2 right; left; split; [reflexivity |]; split; [discriminate |];
         intros fuel forms; rewrite Hstep; reflexivity).
  destruct v as [b | ch | n | d | s];
    try (do 3 right; split; [reflexivity |]; intros fuel forms; rewrite Hstep;
         reflexivity).
  destruct (Ascii.eqb_spec ch end_delimiter) as [-> | Hne].
  { left. repeat split. intros fuel forms. rewrite Hstep. simpl.
    rewrite Ascii.eqb_refl. reflexivity. }
  assert (Hneb : Ascii.eqb ch end_delimiter = false)
    by (apply Ascii.eqb_neq; exact Hne).
  destruct (char_in ch [")"; "]"; "}"]%char) eqn:Hc.
  - right; left. exists ch. split; [repeat split; assumption |].
    split; [assumption |]. intros fuel forms. rewrite Hstep. simpl.
    rewrite Hneb, Hc. reflexivity.
  - do 2 right; left. split; [exact Hc |]. split; [congruence |].
    intros fuel forms. rewrite Hstep. simpl. rewrite Hneb, Hc. reflexivity.
Qed.

Lemma read_useful_form_some (fuel : nat) (it it' : Cursor) (f : Form) :
  read_useful_form std fuel it = Returns (Some (f, it')) ->
  exists token it1,
    read_useful_token it = Some (token, it1)
    /\ read_form std fuel it1 = Returns (f, it').
Proof.
  unfold read_useful_form, read_useful_form_.
  destruct (read_useful_token it) as [[token it1] |]; [| discriminate].
  cbn [snd]. destruct (read_form std fuel it1) as [[f1 it2] | | |] eqn:E;
    try discriminate.
  cbn [bind]. intros H. injection H as <- <-.
  exists token, it1. split; [reflexivity | exact E].
Qed.

Lemma read_useful_form_none (fuel : nat) (it : Cursor) :
  read_useful_form std fuel it = Returns None -> read_useful_token it = None.
Proof.
  unfold read_useful_form, read_useful_form_.
  destruct (read_useful_token it) as [[token it1] |]; [| reflexivity].
  simpl. destruct (read_form std fuel it1) as [[f1 it2] | | |]; discriminate.
Qed.

(** More fuel does not change what was returned. *)
Lemma reader_mono (n : nat) :
  (forall (m : nat) (it : Cursor) (r : Form * Cursor),
      (n <= m)%nat -> read_form std n it = Returns r ->
      read_form std m it = Returns r)
  /\ (forall (m : nat) (it : Cursor) (forms : list Form) (form_type : form.Type_)
             (end_delimiter : ascii) (r : Form * Cursor),
         (n <= m)%nat ->
         read_coll_loop std n it forms form_type end_delimiter = Returns r ->
         read_coll_loop std m it forms form_type end_delimiter = Returns r).
Proof.
  induction n as [| n [IHform IHloop]]; [split; discriminate |].
  assert (IHuseful : forall m it r,
             (n <= m)%nat -> read_useful_form std n it = Returns r ->
             read_useful_form std m it = Returns r).
  { intros m it r Hle. unfold read_useful_form, read_useful_form_.
    destruct (read_useful_token it) as [[token it1] |]; [| auto].
    cbn [snd]. destruct (read_form std n it1) as [r1 | | |] eqn:E;
      try discriminate.
    rewrite (IHform m it1 r1 Hle E). auto. }
  split.
  - intros [| m] [| token next] r Hle; try discriminate; try lia.
    assert (Hle' : (n <= m)%nat) by lia.
    destruct (read_form_shape token next)
      as [(form_type & end_delimiter & _ & _ & H)
         | [(name & _ & H) | [(_ & _ & H) | [[message H] | [(t & _ & _ & _ & H)
         | [_ H]]]]]];
      rewrite (H n), (H m); try (intros E; exact E).
    + apply IHloop, Hle'.
    + unfold expand_quoted_form, expand_quoted_form_.
      fold (read_useful_form std n next). fold (read_useful_form std m next).
      destruct (read_useful_form std n next) as [ret | | |] eqn:E;
        try discriminate.
      rewrite (IHuseful m next ret Hle' E). auto.
    + unfold expand_meta_quoted_form, expand_meta_quoted_form_.
      fold (read_useful_form std n next). fold (read_useful_form std m next).
      destruct (read_useful_form std n next) as [ret | | |] eqn:E;
        try discriminate.
      rewrite (IHuseful m next ret Hle' E). cbn [bind].
      destruct ret as [ret |]; [| auto].
      fold (read_useful_form std n (snd ret)).
      fold (read_useful_form std m (snd ret)).
      destruct (read_useful_form std n (snd ret)) as [ret2 | | |] eqn:E2;
        try discriminate.
      rewrite (IHuseful m (snd ret) ret2 Hle' E2). auto.
  - intros [| m] it forms form_type end_delimiter r Hle; [lia |].
    assert (Hle' : (n <= m)%nat) by lia.
    destruct (read_coll_loop_shape it form_type end_delimiter)
      as [[_ H] | (token & it1 & Hu & [(_ & _ & H) | [(c & _ & _ & H)
         | [(_ & _ & H) | [_ H]]]])];
      rewrite (H n), (H m); try (intros E; exact E).
    destruct (read_form std n it1) as [r1 | | |] eqn:E; try discriminate.
    rewrite (IHform m it1 r1 Hle' E). cbn [bind]. apply IHloop, Hle'.
Qed.

(** X6.  [read_form] always moves forward: the cursor it returns is what
    is left of its cursor after at least one token; the loop of [read_coll]
    never moves back. *)
Theorem reader_advances (fuel : nat) :
  (forall (it it' : Cursor) (f : Form),
      read_form std fuel it = Returns (f, it') ->
      exists consumed, consumed <> [] /\ it = consumed ++ it')
  /\ (forall (it it' : Cursor) (forms : list Form) (form_type : form.Type_)
             (end_delimiter : ascii) (f : Form),
         read_coll_loop std fuel it forms form_type end_delimiter
         = Returns (f, it') ->
         exists consumed, it = consumed ++ it').
Proof.
  induction fuel as [| fuel [IHform IHloop]]; [split; discriminate |].
  assert (IHuseful : forall it it' f,
             read_useful_form std fuel it = Returns (Some (f, it')) ->
             exists consumed, it = consumed ++ it').
  { intros it it' f H. apply read_useful_form_some in H.
    destruct H as (token & it1 & Hu & Hrf).
    destruct (read_useful_token_suffix _ _ _ Hu) as [skipped ->].
    destruct (IHform _ _ _ Hrf) as (consumed & _ & ->).
    exists (skipped ++ consumed). rewrite app_assoc. reflexivity. }
  assert (Hall : forall it : Cursor, it = it ++ [])
    by (intros; rewrite app_nil_r; reflexivity).
  split.
  - intros [| token next] it' f; [discriminate |].
    destruct (read_form_shape token next)
      as [(form_type & end_delimiter & _ & _ & H)
         | [(name & _ & H) | [(_ & _ & H) | [[message H] | [(t & _ & _ & _ & H)
         | [_ H]]]]]];
      rewrite (H fuel).
    + intros E. destruct (IHloop _ _ _ _ _ _ E) as [consumed ->].
      exists (token :: consumed). split; [discriminate | reflexivity].
    + unfold expand_quoted_form, expand_quoted_form_.
      fold (read_useful_form std fuel next).
      destruct (read_useful_form std fuel next) as [[[f1 it1] |] | | |] eqn:E;
        cbn [bind]; try discriminate; intros E'; injection E' as <- <-.
      * destruct (IHuseful _ _ _ E) as [consumed ->].
        exists (token :: consumed). split; [discriminate | reflexivity].
      * exists (token :: next). split; [discriminate | apply Hall].
    + unfold expand_meta_quoted_form, expand_meta_quoted_form_.
      fold (read_useful_form std fuel next).
      destruct (read_useful_form std fuel next) as [[[f1 it1] |] | | |] eqn:E;
        cbn [bind]; try discriminate.
      * cbn [snd fst]. fold (read_useful_form std fuel it1).
        destruct (read_useful_form std fuel it1) as [[[f2 it2] |] | | |] eqn:E2;
          cbn [bind]; try discriminate; intros E'; injection E' as <- <-.
        -- destruct (IHuseful _ _ _ E) as [consumed ->].
           destruct (IHuseful _ _ _ E2) as [consumed2 ->].
           exists (token :: consumed ++ consumed2).
           split; [discriminate |]. simpl. rewrite app_assoc. reflexivity.
        -- exists (token :: next). split; [discriminate | apply Hall].
      * intros E'; injection E' as <- <-.
        exists (token :: next). split; [discriminate | apply Hall].
    + intros E'; injection E' as <- <-.
      exists (token :: next). split; [discriminate | apply Hall].
    + intros E'; injection E' as <- <-.
      exists [token]. split; [discriminate | reflexivity].
    + discriminate.
  - intros it it' forms form_type end_delimiter f.
    destruct (read_coll_loop_shape it form_type end_delimiter)
      as [[_ H] | (token & it1 & Hu & [(_ & _ & H) | [(c & _ & _ & H)
         | [(_ & _ & H) | [_ H]]]])];
      rewrite (H fuel); try discriminate.
    + intros E'; injection E' as <- <-. exists it. apply Hall.
    + intros E'; injection E' as <- <-.
      destruct (read_useful_token_suffix _ _ _ Hu) as [skipped ->].
      destruct (read_useful_token_cursor _ _ _ Hu) as (next & -> & _).
      exists (skipped ++ [token]). rewrite <- app_assoc. reflexivity.
    + intros E'; injection E' as <- <-. exists it. apply Hall.
    + destruct (read_useful_token_suffix _ _ _ Hu) as [skipped ->].
      destruct (read_form std fuel it1) as [[f1 it2] | | |] eqn:E;
        try discriminate.
      cbn [bind snd fst]. intros E2.
      destruct (IHform _ _ _ E) as (consumed & _ & ->).
      destruct (IHloop _ _ _ _ _ _ E2) as [consumed2 ->].
      exists (skipped ++ consumed ++ consumed2).
      rewrite <- !app_assoc. reflexivity.
Qed.

(** ** What the forms hold *)

Lemma map_insert_In (m : FormWrapperMap) (kv e : Form * Form) :
  In e (map_insert std m kv) -> In e m \/ e = kv.
Proof.
  unfold map_insert. destruct (existsb _ m); [auto |].
  rewrite in_app_iff. simpl. intros [H | [H | []]]; auto.
Qed.

Lemma fold_map_insert_In (ps : list (Form * Form)) :
  forall (m : FormWrapperMap) (e : Form * Form),
    In e (fold_left (map_insert std) ps m) -> In e m \/ In e ps.
Proof.
  induction ps as [| p ps IH]; intros m e; simpl; [auto |].
  intros H. destruct (IH _ _ H) as [H1 | H1]; [| auto].
  destruct (map_insert_In _ _ _ H1); auto.
Qed.

Lemma pairs_In (body : list Form) :
  forall k v : Form, In (k, v) (pairs body) -> In k body /\ In v body.
Proof.
  induction body as [| x | x y l IH] using list_pair_ind; intros k v;
    simpl; try tauto.
  intros [H | H]; [injection H as <- <-; auto |].
  destruct (IH _ _ H). auto.
Qed.

Lemma set_insert_In (s : FormWrapperSet) (item e : Form) :
  In e (set_insert std s item) -> In e s \/ e = item.
Proof.
  unfold set_insert. destruct (existsb _ s); [auto |].
  rewrite in_app_iff. simpl. intros [H | [H | []]]; auto.
Qed.

Lemma fold_set_insert_In (l : list Form) :
  forall (s : FormWrapperSet) (e : Form),
    In e (fold_left (set_insert std) l s) -> In e s \/ In e l.
Proof.
  induction l as [| x l IH]; intros s e; simpl; [auto |].
  intros H. destruct (IH _ _ H) as [H1 | H1]; [| auto].
  destruct (set_insert_In _ _ _ H1); auto.
Qed.

(** The builders of the collections put nothing into a collection but the
    forms they were given, and make no error but that of the odd map. *)
Lemma every_close_coll (on_special : Special -> bool) (on_token : Token -> bool)
    (form_type : form.Type_) (forms : list Form) :
  forallb (every on_special on_token) forms = true ->
  on_special (mkSpecial "ReaderError" "Map must contain even number of forms"
                None) = true ->
  every on_special on_token (close_coll std form_type forms) = true.
Proof.
  intros Hall Herr. rewrite forallb_forall in Hall.
  destruct form_type; simpl; try (apply forallb_forall; exact Hall).
  - unfold list_to_map. rewrite list_to_map_from_parity.
    destruct (Nat.even (length forms)); [| exact Herr].
    simpl. apply forallb_forall. intros [k v] Hin.
    apply fold_map_insert_In in Hin. destruct Hin as [[] | Hin].
    apply pairs_In in Hin. destruct Hin as [Hk Hv].
    rewrite (Hall _ Hk), (Hall _ Hv). reflexivity.
  - apply forallb_forall. intros e Hin.
    apply fold_set_insert_In in Hin. destruct Hin as [[] | Hin]. auto.
Qed.

Lemma forallb_snoc {A : Type} (p : A -> bool) (l : list A) (x : A) :
  forallb p l = true -> p x = true -> forallb p (l ++ [x]) = true.
Proof. intros Hl Hx. rewrite forallb_app. simpl. rewrite Hl, Hx. reflexivity. Qed.

Lemma read_coll_loop_at_end (fuel : nat) (forms : list Form)
    (form_type : form.Type_) (end_delimiter : ascii) (f : Form) (it' : Cursor) :
  read_coll_loop std fuel [] forms form_type end_delimiter = Returns (f, it') ->
  it' = [].
Proof.
  destruct fuel; [discriminate |]. simpl. intros H. injection H as _ <-.
  reflexivity.
Qed.

(** A form after which the stream goes on holds no error but those of odd
    maps. *)
Lemma reader_benign (fuel : nat) :
  (forall (it it' : Cursor) (f : Form),
      read_form std fuel it = Returns (f, it') -> it' <> [] ->
      benign f = true)
  /\ (forall (it it' : Cursor) (forms : list Form) (form_type : form.Type_)
             (end_delimiter : ascii) (f : Form),
         forallb benign forms = true ->
         read_coll_loop std fuel it forms form_type end_delimiter
         = Returns (f, it') ->
         it' <> [] -> benign f = true).
Proof.
  induction fuel as [| fuel [IHform IHloop]]; [split; discriminate |].
  assert (IHuseful : forall it it' f,
             read_useful_form std fuel it = Returns (Some (f, it')) ->
             it' <> [] -> benign f = true).
  { intros it it' f H. apply read_useful_form_some in H.
    destruct H as (token & it1 & _ & Hrf). eauto. }
  split.
  - intros [| token next] it' f; [discriminate |].
    destruct (read_form_shape token next)
      as [(form_type & end_delimiter & _ & _ & H)
         | [(name & _ & H) | [(_ & _ & H) | [[message H] | [(t & _ & _ & _ & H)
         | [_ H]]]]]];
      rewrite (H fuel).
    + apply IHloop. reflexivity.
    + unfold expand_quoted_form, expand_quoted_form_.
      fold (read_useful_form std fuel next).
      destruct (read_useful_form std fuel next) as [[[f1 it1] |] | | |] eqn:E;
        cbn [bind]; try discriminate; intros E'; injection E' as <- <-;
        [| contradiction].
      intros Hne. unfold benign. simpl. fold benign.
      rewrite (IHuseful _ _ _ E Hne). reflexivity.
    + unfold expand_meta_quoted_form, expand_meta_quoted_form_.
      fold (read_useful_form std fuel next).
      destruct (read_useful_form std fuel next) as [[[f1 it1] |] | | |] eqn:E;
        cbn [bind]; try discriminate.
      2:{ intros E'; injection E' as <- <-. contradiction. }
      cbn [snd fst]. fold (read_useful_form std fuel it1).
      destruct (read_useful_form std fuel it1) as [[[f2 it2] |] | | |] eqn:E2;
        cbn [bind]; try discriminate; intros E'; injection E' as <- <-;
        [| contradiction].
      intros Hne. unfold benign. simpl. fold benign.
      rewrite (IHuseful _ _ _ E2 Hne).
      assert (Hne1 : it1 <> []).
      { apply read_useful_form_some in E2. destruct E2 as (t & i & Hu & _).
        intros ->. discriminate. }
      rewrite (IHuseful _ _ _ E Hne1). reflexivity.
    + intros E'; injection E' as <- <-. contradiction.
    + intros E'; injection E' as <- <-. reflexivity.
    + discriminate.
  - intros it it' forms form_type end_delimiter f Hforms.
    destruct (read_coll_loop_shape it form_type end_delimiter)
      as [[_ H] | (token & it1 & Hu & [(_ & _ & H) | [(c & _ & _ & H)
         | [(_ & _ & H) | [_ H]]]])];
      rewrite (H fuel); try discriminate.
    + intros E'; injection E' as <- <-. contradiction.
    + intros E'; injection E' as <- <-. intros _.
      apply every_close_coll; [exact Hforms | reflexivity].
    + intros E'; injection E' as <- <-. contradiction.
    + destruct (read_form std fuel it1) as [[f1 it2] | | |] eqn:E;
        try discriminate.
      cbn [bind snd fst]. intros E2 Hne.
      destruct it2 as [| t2 it2].
      { apply read_coll_loop_at_end in E2. contradiction. }
      apply (IHloop _ _ _ _ _ _ (forallb_snoc _ _ _ Hforms
                                   (IHform _ _ _ E ltac:(discriminate))) E2 Hne).
Qed.

Lemma read_forms_loop_benign (fuel : nat) :
  forall (it : Cursor) (forms out : list Form),
    read_forms_loop std fuel it forms = Returns out ->
    exists new,
      out = forms ++ new
      /\ forall (i : nat) (f : Form),
           new !! i = Some f -> (S i < length new)%nat -> benign f = true.
Proof.
  induction fuel as [| fuel IH]; intros it forms out; [discriminate |].
  rewrite read_forms_loop_S.
  destruct (read_useful_form std fuel it) as [[[f1 it2] |] | | |] eqn:E;
    cbn [bind]; try discriminate.
  2:{ intros H. injection H as <-. exists []. rewrite app_nil_r.
      split; [reflexivity |]. intros i f Hi. discriminate. }
  cbn [snd fst]. intros Hloop.
  destruct (IH _ _ _ Hloop) as (new & -> & Hnew).
  exists (f1 :: new). rewrite <- app_assoc. split; [reflexivity |].
  intros [| i] f; simpl.
  - intros Hf Hlen. injection Hf as ->.
    apply read_useful_form_some in E. destruct E as (token & it1 & _ & Hrf).
    apply (proj1 (reader_benign fuel) _ _ _ Hrf).
    intros ->. destruct fuel as [| fuel']; [discriminate |].
    rewrite read_forms_loop_S in Hloop. simpl in Hloop.
    injection Hloop as Hout.
    assert (Hnil : new = []).
    { apply (app_inv_head (forms ++ [f])). rewrite app_nil_r. symmetry.
      exact Hout. }
    subst new. simpl in Hlen. lia.
  - intros Hf Hlen. apply (Hnew i f Hf). lia.
Qed.

(** X7.  Of the forms that [read_forms] returns, all but the last hold no
    error, at any depth, other than that of a map with an odd number of
    forms: every other error ends the read, so it sits in the last form. *)
Theorem read_forms_errors_last
    (tokens : list Token) (out : list Form) (i : nat) (f : Form) :
  read_forms std tokens = Returns out ->
  out !! i = Some f ->
  (S i < length out)%nat ->
  benign f = true.
Proof.
  unfold read_forms. intros H Hi Hlen.
  destruct (read_forms_loop_benign _ _ _ _ H) as (new & -> & Hnew).
  simpl in *. eauto.
Qed.

(** The forms hold no token that [read_useful_token] steps over. *)
Lemma reader_unskipped (fuel : nat) :
  (forall (token : Token) (next it' : Cursor) (f : Form),
      read_form std fuel (token :: next) = Returns (f, it') ->
      skippable token = false -> unskipped f = true)
  /\ (forall (it it' : Cursor) (forms : list Form) (form_type : form.Type_)
             (end_delimiter : ascii) (f : Form),
         forallb unskipped forms = true ->
         read_coll_loop std fuel it forms form_type end_delimiter
         = Returns (f, it') ->
         unskipped f = true).
Proof.
  induction fuel as [| fuel [IHform IHloop]]; [split; discriminate |].
  assert (IHuseful : forall it it' f,
             read_useful_form std fuel it = Returns (Some (f, it')) ->
             unskipped f = true).
  { intros it it' f H. apply read_useful_form_some in H.
    destruct H as (token & it1 & Hu & Hrf).
    pose proof (read_useful_token_found it) as Hspec. rewrite Hu in Hspec.
    destruct Hspec as (skipped & next & _ & -> & _ & Hs). eauto. }
  split.
  - intros token next it' f.
    destruct (read_form_shape token next)
      as [(form_type & end_delimiter & _ & _ & H)
         | [(name & _ & H) | [(_ & _ & H) | [[message H] | [(t & Ht & _ & _ & H)
         | [_ H]]]]]];
      rewrite (H fuel).
    + intros E _. exact (IHloop next it' [] form_type end_delimiter f eq_refl E).
    + unfold expand_quoted_form, expand_quoted_form_.
      fold (read_useful_form std fuel next).
      destruct (read_useful_form std fuel next) as [[[f1 it1] |] | | |] eqn:E;
        cbn [bind]; try discriminate; intros E'; injection E' as <- <-;
        intros _; [| reflexivity].
      unfold unskipped. simpl. fold unskipped.
      rewrite (IHuseful _ _ _ E). reflexivity.
    + unfold expand_meta_quoted_form, expand_meta_quoted_form_.
      fold (read_useful_form std fuel next).
      destruct (read_useful_form std fuel next) as [[[f1 it1] |] | | |] eqn:E;
        cbn [bind]; try discriminate.
      2:{ intros E'; injection E' as <- <-. reflexivity. }
      cbn [snd fst]. fold (read_useful_form std fuel it1).
      destruct (read_useful_form std fuel it1) as [[[f2 it2] |] | | |] eqn:E2;
        cbn [bind]; try discriminate; intros E'; injection E' as <- <-;
        intros _; [| reflexivity].
      unfold unskipped. simpl. fold unskipped.
      rewrite (IHuseful _ _ _ E), (IHuseful _ _ _ E2). reflexivity.
    + intros E'; injection E' as <- <-. intros Hs. unfold unskipped. simpl.
      rewrite Hs. reflexivity.
    + intros E'; injection E' as <- <-. intros Hs. unfold unskipped. simpl.
      unfold skippable in *. rewrite Ht. rewrite Hs. reflexivity.
    + discriminate.
  - intros it it' forms form_type end_delimiter f Hforms.
    pose proof (read_useful_token_found it) as Hspec.
    destruct (read_coll_loop_shape it form_type end_delimiter)
      as [[_ H] | (token & it1 & Hu & [(_ & _ & H) | [(c & _ & _ & H)
         | [(_ & _ & H) | [_ H]]]])];
      rewrite (H fuel); try discriminate.
    + intros E'; injection E' as <- <-. reflexivity.
    + intros E'; injection E' as <- <-.
      apply every_close_coll; [exact Hforms | reflexivity].
    + intros E'; injection E' as <- <-.
      rewrite Hu in Hspec. destruct Hspec as (skipped & next & _ & _ & _ & Hs).
      unfold unskipped. simpl. rewrite Hs. reflexivity.
    + rewrite Hu in Hspec. destruct Hspec as (skipped & next & _ & -> & _ & Hs).
      destruct (read_form std fuel (token :: next)) as [[f1 it2] | | |] eqn:E;
        try discriminate.
      cbn [bind snd fst]. intros E2.
      apply (IHloop _ _ _ _ _ _ (forallb_snoc _ _ _ Hforms
                                   (IHform _ _ _ _ E Hs)) E2).
Qed.

Lemma read_forms_loop_unskipped (fuel : nat) :
  forall (it : Cursor) (forms out : list Form),
    forallb unskipped forms = true ->
    read_forms_loop std fuel it forms = Returns out ->
    forallb unskipped out = true.
Proof.
  induction fuel as [| fuel IH]; intros it forms out Hforms; [discriminate |].
  rewrite read_forms_loop_S.
  destruct (read_useful_form std fuel it) as [[[f1 it2] |] | | |] eqn:E;
    cbn [bind]; try discriminate.
  2:{ intros H. injection H as <-. exact Hforms. }
  cbn [snd fst]. apply IH. apply forallb_snoc; [exact Hforms |].
  apply read_useful_form_some in E. destruct E as (token & it1 & Hu & Hrf).
  pose proof (read_useful_token_found it) as Hspec. rewrite Hu in Hspec.
  destruct Hspec as (skipped & next & _ & -> & _ & Hs).
  exact (proj1 (reader_unskipped fuel) _ _ _ _ Hrf Hs).
Qed.

(** X8.  No white space and no comment ever gets into what [read_forms]
    returns: not as a scalar, at any depth, nor as the token of an
    error. *)
Theorem read_forms_unskipped (tokens : list Token) (out : list Form) :
  read_forms std tokens = Returns out -> forallb unskipped out = true.
Proof.
  unfold read_forms. apply read_forms_loop_unskipped. reflexivity.
Qed.

(** ** The unordered containers *)

Lemma distinct_elements_NoDup (l : list Form) :
  distinct_elements std l = true <-> NoDup (List.map (hash std) l).
Proof.
  induction l as [| x l IH]; simpl.
  - split; [intros _; apply NoDup_nil_2 | reflexivity].
  - rewrite andb_true_iff, IH, NoDup_cons, forallb_forall.
    assert (Hx : (forall y, In y l -> negb (equals std x y) = true)
                 <-> hash std x ∉ List.map (hash std) l).
    { rewrite list_elem_of_In, in_map_iff. split.
      - intros H (y & Hy & Hin). specialize (H y Hin).
        apply negb_true_iff in H.
        assert (equals std x y = true) by (apply equals_hash; auto).
        congruence.
      - intros H y Hin. apply negb_true_iff.
        destruct (equals std x y) eqn:E; [| reflexivity].
        exfalso. apply H. exists y. apply equals_hash in E. auto. }
    rewrite Hx. reflexivity.
Qed.

(** [insert] in a loop, for any equivalence [eqv] of keys: what the
    container holds in the end is what it held, and every item of the list
    that is equivalent to nothing held and to no item before it. *)
Lemma fold_insert_first {A : Type} (eqv : A -> A -> bool) :
  (forall a b c, eqv a b = true -> eqv b c = true -> eqv a c = true) ->
  forall (l : list A) (s : list A) (x : A),
    In x (fold_left (fun s a => if existsb (fun e => eqv e a) s then s else s ++ [a])
            l s)
    <-> In x s
        \/ (existsb (fun e => eqv e x) s = false
            /\ exists l1 l2, l = l1 ++ x :: l2
                             /\ existsb (fun e => eqv e x) l1 = false).
Proof.
  intros Htrans. induction l as [| a l IH]; intros s x; cbn [fold_left].
  - split; [auto |]. intros [H | (_ & l1 & l2 & H & _)]; [exact H |].
    destruct l1; discriminate.
  - rewrite IH. destruct (existsb (fun e => eqv e a) s) eqn:Ha.
    + (* [a] is held already *)
      apply existsb_exists in Ha. destruct Ha as (y & Hy & Hya).
      split; (intros [H | (Hs & l1 & l2 & Hl & Hl1)]; [left; exact H | right]).
      * split; [exact Hs |]. exists (a :: l1), l2. split; [simpl; congruence |].
        cbn [existsb]. rewrite Hl1, orb_false_r.
        destruct (eqv a x) eqn:Hax; [| reflexivity].
        assert (Hyx : eqv y x = true) by (eapply Htrans; eassumption).
        assert (existsb (fun e => eqv e x) s = true)
          by (apply existsb_exists; eauto).
        congruence.
      * split; [exact Hs |]. destruct l1 as [| b l1].
        -- injection Hl as -> ->.
           assert (existsb (fun e => eqv e x) s = true)
             by (apply existsb_exists; eauto).
           congruence.
        -- injection Hl as -> ->. cbn [existsb] in Hl1.
           apply orb_false_iff in Hl1. destruct Hl1 as [_ Hl1]. eauto.
    + (* [a] is new *)
      split.
      * intros [H | (Hs & l1 & l2 & Hl & Hl1)].
        -- apply in_app_iff in H. destruct H as [H | [<- | []]]; [auto |].
           right. split; [exact Ha |]. exists [], l. split; reflexivity.
        -- rewrite existsb_app in Hs. cbn [existsb] in Hs.
           rewrite orb_false_r in Hs. apply orb_false_iff in Hs.
           destruct Hs as [Hs Hax]. right. split; [exact Hs |].
           exists (a :: l1), l2. split; [simpl; congruence |].
           cbn [existsb]. rewrite Hax, Hl1. reflexivity.
      * intros [H | (Hs & l1 & l2 & Hl & Hl1)].
        -- left. apply in_app_iff. auto.
        -- destruct l1 as [| b l1].
           ++ injection Hl as -> ->. left. apply in_app_iff. right. left.
              reflexivity.
           ++ injection Hl as -> ->. cbn [existsb] in Hl1.
              apply orb_false_iff in Hl1. destruct Hl1 as [Hbx Hl1]. right.
              split; [| eauto].
              rewrite existsb_app. cbn [existsb].
              rewrite Hs, Hbx. reflexivity.
Qed.

Lemma fold_set_insert_distinct (l : list Form) :
  forall acc : FormWrapperSet,
    NoDup (List.map (hash std) (acc ++ l)) ->
    fold_left (set_insert std) l acc = acc ++ l.
Proof.
  induction l as [| x l IH]; intros acc Hnd; simpl.
  - rewrite app_nil_r. reflexivity.
  - assert (Hx : existsb (fun e => equals std e x) acc = false).
    { destruct (existsb _ acc) eqn:E; [| reflexivity].
      apply existsb_equals_set in E. rewrite map_app in Hnd. simpl in Hnd.
      apply NoDup_app in Hnd. destruct Hnd as (_ & Hd & _).
      exfalso. apply (Hd _ E). apply elem_of_cons. auto. }
    unfold set_insert at 2. rewrite Hx.
    rewrite IH; rewrite <- app_assoc; simpl; [reflexivity | assumption].
Qed.

(** X9.  [list_to_set] keeps exactly the elements of the list that are
    equal (for [equals]) to no element before them: the first of each class
    of equal elements, and none of the later ones.  No two kept elements
    are equal, every element of the list is equal to a kept one, and
    building a set again from the kept elements changes nothing. *)
Theorem list_to_set_spec (l : list Form) :
  exists s : FormWrapperSet,
    list_to_set std l = FSet s
    /\ (forall x,
           In x s
           <-> exists l1 l2,
                 l = l1 ++ x :: l2
                 /\ existsb (fun y => equals std y x) l1 = false)
    /\ distinct_elements std s = true
    /\ (forall x, In x l -> existsb (fun y => equals std y x) s = true)
    /\ list_to_set std s = FSet s.
Proof.
  unfold list_to_set.
  destruct (fold_set_insert_hashes std l [] (NoDup_nil_2 (A:=Z))) as [Hnd Hin].
  exists (fold_left (set_insert std) l []). split; [reflexivity |]. split.
  - intros x. unfold set_insert.
    rewrite (fold_insert_first (equals std) (equals_trans std) l [] x).
    cbn [In existsb]. split.
    + intros [[] | [_ H]]. exact H.
    + intros H. right. split; [reflexivity | exact H].
  - split; [apply distinct_elements_NoDup, Hnd |]. split.
    + intros x Hx. apply existsb_equals_set. apply Hin. right.
      apply list_elem_of_In, in_map, Hx.
    + f_equal. apply (fold_set_insert_distinct _ []). exact Hnd.
Qed.

Lemma fold_map_insert_NoDup (ps : list (Form * Form)) :
  forall acc : FormWrapperMap,
    NoDup (key_hashes std acc) ->
    NoDup (key_hashes std (fold_left (map_insert std) ps acc)).
Proof.
  induction ps as [| p ps IH]; intros acc Hnd; simpl; [assumption |].
  apply IH. unfold map_insert.
  destruct (existsb _ acc) eqn:E; [assumption |].
  unfold key_hashes. rewrite map_app. simpl. apply NoDup_app.
  split; [assumption |]. split; [| apply NoDup_singleton].
  intros h Hh Hh'. apply list_elem_of_singleton in Hh'. subst h.
  apply existsb_equals_map in Hh. congruence.
Qed.

(** X10.  The map that [list_to_map] builds from the pairs of a literal
    keeps exactly the pairs whose key is equal (for [equals]) to the key of
    no pair before them: the first pair of each class of equal keys, and
    none of the later ones.  No two of its keys are equal, every key of the
    literal is equal to a key of the map, and building a map again from its
    entries changes nothing. *)
Theorem list_to_map_spec (ps : list (Form * Form)) :
  exists m : FormWrapperMap,
    list_to_map std (map_body ps) = FMap m
    /\ (forall e,
           In e m
           <-> exists ps1 ps2,
                 ps = ps1 ++ e :: ps2
                 /\ existsb (fun e' => equals std (fst e') (fst e)) ps1 = false)
    /\ distinct_keys std m = true
    /\ (forall e, In e ps ->
                  existsb (fun e' => equals std (fst e') (fst e)) m = true)
    /\ list_to_map std (map_body m) = FMap m.
Proof.
  rewrite list_to_map_map_body.
  pose proof (fold_map_insert_NoDup ps [] (NoDup_nil_2 (A:=Z))) as Hnd.
  exists (fold_left (map_insert std) ps []). split; [reflexivity |]. split.
  - intros e. unfold map_insert.
    rewrite (fold_insert_first (fun a b => equals std (fst a) (fst b))
               (fun a b c => equals_trans std (fst a) (fst b) (fst c)) ps [] e).
    cbn [In existsb]. split.
    + intros [[] | [_ H]]. exact H.
    + intros H. right. split; [reflexivity | exact H].
  - split; [apply distinct_keys_NoDup, Hnd |]. split.
    + intros e He.
      pose proof (lookup_key_fold std (fst e) ps []) as Hl.
      simpl in Hl. unfold lookup_key in Hl.
      destruct (List.find (fun e' => equals std (fst e') (fst e)) ps) eqn:F.
      * apply find_some in Hl. apply existsb_exists. eauto.
      * apply (find_none _ _ F) in He. rewrite equals_refl in He. discriminate.
    + rewrite list_to_map_map_body. f_equal.
      apply (fold_map_insert_distinct std _ []). exact Hnd.
Qed.

(** ** String literals *)

Lemma regex_match_here_dquote (r m rest : string) :
  match_string (String dquote r) = Some (m, rest) ->
  regex_match_here (String dquote r) = Some (type.STRING, (m, rest)).
Proof.
  intros H. unfold regex_match_here. rewrite H.
  destruct r as [| c2 r']; reflexivity.
Qed.

Lemma tokenize_one_string (text : string) :
  regex_match_here text = Some (type.STRING, (text, EmptyString)) ->
  tokenize std text = Returns [mkToken (value.STRING text) type.STRING 1 1].
Proof.
  intros H. unfold tokenize.
  destruct text as [| c r]; [discriminate |].
  cbn [tokenize_from String.length]. rewrite H. reflexivity.
Qed.

Lemma read_forms_one_string (s : string) :
  read_forms std [mkToken (value.STRING s) type.STRING 1 1]
  = Returns
      [if (String.length s <? 2)%nat || negb (Ascii.eqb (back s) dquote)
       then ReaderError "EOF: unbalanced quote"
              (Some (mkToken (value.STRING s) type.STRING 1 1))
       else FToken (mkToken (value.STRING (substring 1 (String.length s - 2) s))
                      type.STRING 1 1)].
Proof.
  unfold read_forms. cbn [length Nat.mul Nat.add].
  rewrite read_forms_loop_S.
  unfold read_useful_form, read_useful_form_. cbn [read_useful_token type snd].
  cbn [read_form type value get_string bind line column].
  destruct ((String.length s <? 2)%nat || negb (Ascii.eqb (back s) dquote));
    reflexivity.
Qed.

Lemma substring_prefix (b x : string) :
  substring 0 (String.length b) (String.append b x) = b.
Proof. induction b as [| c b IH]; simpl; [destruct x; reflexivity | congruence]. Qed.

Lemma back_append_char (b : string) (c : ascii) :
  back (String.append b (String c EmptyString)) = c.
Proof.
  induction b as [| x b IH]; simpl; [reflexivity |].
  destruct (String.append b (String c EmptyString)) eqn:E; [| exact IH].
  destruct b; discriminate.
Qed.

(** X11.  A string literal that is closed is read as one scalar whose text
    is what stands between the two quotes, left as it is: an escape stays
    the backslash and the character after it. *)
Theorem read_string_literal (content : string) :
  string_body (String.append content (String dquote EmptyString))
  = (content, String dquote EmptyString) ->
  read std (String dquote (String.append content (String dquote EmptyString)))
  = Returns [FToken (mkToken (value.STRING content) type.STRING 1 1)].
Proof.
  intros Hb. unfold read.
  rewrite (tokenize_one_string
             (String dquote (String.append content (String dquote EmptyString)))).
  2:{ apply regex_match_here_dquote. unfold match_string.
      rewrite Ascii.eqb_refl, Hb, Ascii.eqb_refl. reflexivity. }
  cbn [bind]. rewrite read_forms_one_string.
  assert (Hback : back (String dquote
                          (String.append content (String dquote EmptyString)))
                  = dquote).
  { change (back (String.append (String dquote content)
                    (String dquote EmptyString)) = dquote).
    apply back_append_char. }
  rewrite Hback, Ascii.eqb_refl. cbn [String.length]. rewrite length_append.
  replace (S (String.length content + String.length (String dquote EmptyString)))
    with (S (S (String.length content))) by (simpl; lia).
  cbn [Nat.ltb Nat.leb negb orb substring Nat.sub].
  rewrite Nat.sub_0_r, substring_prefix. reflexivity.
Qed.

(** X12.  A string literal that runs to the end of the input without its
    closing quote is read as the error of the unbalanced quote, unless its
    last character is a quote, escaped by a backslash: then it is taken for
    closed, and that quote is cut off its text. *)
Theorem read_string_literal_unclosed (body : string) :
  string_body body = (body, EmptyString) ->
  read std (String dquote body)
  = Returns
      [if nonempty body && Ascii.eqb (back body) dquote
       then FToken (mkToken
                      (value.STRING (substring 0 (String.length body - 1) body))
                      type.STRING 1 1)
       else ReaderError "EOF: unbalanced quote"
              (Some (mkToken (value.STRING (String dquote body)) type.STRING 1 1))].
Proof.
  intros Hb. unfold read.
  rewrite (tokenize_one_string (String dquote body)).
  2:{ apply regex_match_here_dquote. unfold match_string.
      rewrite Ascii.eqb_refl, Hb. reflexivity. }
  cbn [bind]. rewrite read_forms_one_string.
  destruct body as [| c r]; [reflexivity |].
  cbn [String.length Nat.ltb Nat.leb orb nonempty andb Nat.sub substring].
  change (back (String dquote (String c r))) with (back (String c r)).
  destruct (Ascii.eqb (back (String c r)) dquote); [| reflexivity].
  cbn [negb]. rewrite Nat.sub_0_r. reflexivity.
Qed.

(** ** The reader reads what is written *)

Lemma read_useful_token_skips (gap next : list Token) (t : Token) :
  forallb skippable gap = true -> skippable t = false ->
  read_useful_token (gap ++ t :: next) = Some (t, t :: next).
Proof.
  intros Hgap Ht. induction gap as [| g gap IH]; simpl in *.
  - unfold skippable in Ht. destruct (type t); try discriminate; reflexivity.
  - apply andb_true_iff in Hgap. destruct Hgap as [Hg Hgap].
    unfold skippable in Hg. destruct (type g); try discriminate; auto.
Qed.

Lemma read_form_opens (fuel : nat) (token : Token) (next : Cursor)
    (form_type : form.Type_) (end_delimiter : ascii) :
  opens token = Some form_type ->
  TYPE_TO_DELIMITER form_type = Some end_delimiter ->
  read_form std (S fuel) (token :: next)
  = read_coll_loop std fuel next [] form_type end_delimiter.
Proof.
  intros Ho Hd. unfold opens in Ho. destruct token as [v t l c]. simpl in Ho.
  destruct t; try discriminate; destruct v as [b | ch | n | d | s];
    try discriminate.
  - destruct (String.eqb_spec s "#{") as [-> | _]; [| discriminate].
    vm_compute in Ho. injection Ho as <-. vm_compute in Hd. injection Hd as <-.
    reflexivity.
  - destruct (char_in ch ["("; "["; "{"]%char) eqn:E; [| discriminate].
    destruct ch as [[] [] [] [] [] [] [] []]; vm_compute in E;
      try discriminate E;
      vm_compute in Ho; injection Ho as <-;
      vm_compute in Hd; injection Hd as <-; reflexivity.
Qed.

Lemma read_form_quote (fuel : nat) (token : Token) (next : Cursor) (name : string) :
  quote_sugar token = Some name ->
  read_form std (S fuel) (token :: next)
  = expand_quoted_form std fuel next (symbol_at token name).
Proof.
  intros Hq. unfold quote_sugar in Hq. destruct token as [v t l c]. simpl in Hq.
  destruct t; try discriminate; destruct v as [b | ch | n | d | s];
    try discriminate.
  - destruct (String.eqb_spec s "~@") as [-> | _]; [| discriminate].
    injection Hq as <-. reflexivity.
  - repeat match type of Hq with
           | (if Ascii.eqb ?x ?y then _ else _) = _ =>
               destruct (Ascii.eqb_spec x y) as [-> | _];
               [injection Hq as <-; reflexivity |]
           end.
    discriminate.
Qed.

Lemma read_form_with_meta (fuel : nat) (token : Token) (next : Cursor) :
  type token = type.SPECIAL_CHAR -> value token = value.CHAR "^" ->
  read_form std (S fuel) (token :: next)
  = expand_meta_quoted_form std fuel next (symbol_at token "with-meta").
Proof. intros Hty Hv. simpl. rewrite Hty, Hv. reflexivity. Qed.

(** A form starts on a token that is no white space, no comment and no
    closing delimiter. *)
Lemma Reads_head (ts : list Token) (f : Form) :
  Reads std ts f ->
  exists t next,
    ts = t :: next /\ skippable t = false /\ closing_token t = false
    /\ well_typed t = true.
Proof.
  intros H. destruct H as [t Hs | t s Hty Hv Hc
                          | open close form_type end_delimiter body gap forms Ho
                          | t name gap body X Hq | t gap1 body1 gap2 body2 M X Hty Hv].
  - exists t, []. unfold scalar_token, skippable, closing_token, well_typed in *.
    destruct (type t); try discriminate; repeat split; reflexivity.
  - exists t, []. unfold skippable, closing_token, well_typed.
    rewrite Hty, Hv. repeat split.
  - exists open, (body ++ gap ++ [close]). split; [reflexivity |].
    unfold opens, skippable, closing_token, well_typed in *.
    destruct (type open); try discriminate;
      destruct (value open) as [b | ch | n | d | s]; try discriminate;
      repeat split.
    destruct (char_in ch ["("; "["; "{"]%char) eqn:E; [| discriminate].
    clear -E. destruct ch as [[] [] [] [] [] [] [] []]; try discriminate;
      reflexivity.
  - exists t, (gap ++ body). split; [reflexivity |].
    unfold quote_sugar, skippable, closing_token, well_typed in *.
    destruct (type t); try discriminate;
      destruct (value t) as [b | ch | n | d | s]; try discriminate;
      repeat split.
    clear -Hq. destruct ch as [[] [] [] [] [] [] [] []]; try discriminate;
      reflexivity.
  - exists t, (gap1 ++ body1 ++ gap2 ++ body2). split; [reflexivity |].
    unfold skippable, closing_token, well_typed. rewrite Hty, Hv.
    repeat split.
Qed.

Lemma read_coll_loop_reads_on
    (fuel : nat) (gap next : list Token) (t : Token) (forms : list Form)
    (form_type : form.Type_) (end_delimiter : ascii) :
  forallb skippable gap = true -> skippable t = false ->
  closing_token t = false -> well_typed t = true ->
  TYPE_TO_DELIMITER form_type = Some end_delimiter ->
  read_coll_loop std (S fuel) (gap ++ t :: next) forms form_type end_delimiter
  = (ret2 <- read_form std fuel (t :: next) ;;
     read_coll_loop std fuel (snd ret2) (forms ++ [fst ret2])
       form_type end_delimiter).
Proof.
  intros Hgap Hs Hc Hwt Hd.
  pose proof (read_useful_token_skips gap next t Hgap Hs) as Hu.
  destruct (read_coll_loop_shape (gap ++ t :: next) form_type end_delimiter)
    as [[Hnone _] | (token & it1 & Hu' & Hcases)]; [congruence |].
  rewrite Hu in Hu'. injection Hu' as <- <-.
  destruct Hcases as [(Hty & Hv & _) | [(c & Hcl & _) | [(_ & _ & H) | [Hbad _]]]].
  - exfalso. unfold closing_token in Hc. rewrite Hty, Hv in Hc.
    destruct form_type; simpl in Hd; try discriminate;
      injection Hd as <-; discriminate.
  - exfalso. destruct Hcl as (Hty & Hv & Hcl).
    unfold closing_token in Hc. rewrite Hty, Hv in Hc. congruence.
  - apply H.
  - congruence.
Qed.

Lemma read_coll_loop_closes
    (fuel : nat) (gap rest : list Token) (close : Token) (forms : list Form)
    (form_type : form.Type_) (end_delimiter : ascii) :
  forallb skippable gap = true ->
  type close = type.SPECIAL_CHAR -> value close = value.CHAR end_delimiter ->
  read_coll_loop std (S fuel) (gap ++ close :: rest) forms form_type end_delimiter
  = Returns (close_coll std form_type forms, rest).
Proof.
  intros Hgap Hty Hv.
  assert (Hs : skippable close = false) by (unfold skippable; rewrite Hty; reflexivity).
  pose proof (read_useful_token_skips gap rest close Hgap Hs) as Hu.
  apply (read_coll_loop_close std fuel _ _ forms form_type end_delimiter close Hu
           Hty Hv).
Qed.

Lemma read_useful_form_reads
    (gap body rest : list Token) (f : Form) (fuel0 fuel : nat) :
  forallb skippable gap = true ->
  Reads std body f ->
  (forall fuel, (fuel0 <= fuel)%nat ->
     read_form std fuel (body ++ rest) = Returns (f, rest)) ->
  (fuel0 <= fuel)%nat ->
  read_useful_form std fuel (gap ++ body ++ rest) = Returns (Some (f, rest)).
Proof.
  intros Hgap Hr Hrf Hle.
  destruct (Reads_head _ _ Hr) as (t & next & -> & Hs & _).
  unfold read_useful_form, read_useful_form_.
  change ((t :: next) ++ rest) with (t :: (next ++ rest)) in *.
  rewrite (read_useful_token_skips gap (next ++ rest) t Hgap Hs).
  cbn [snd]. rewrite (Hrf fuel Hle). reflexivity.
Qed.

Lemma reads_complete :
  (forall ts f, Reads std ts f -> read_form_reads std ts f)
  /\ (forall ts fs, ReadsAll std ts fs -> read_coll_loop_reads std ts fs).
Proof.
  apply Reads_ReadsAll_mutual.
  - (* a number or a symbol *)
    intros t Hs rest. exists 1%nat. intros [| fuel] Hle; [lia |].
    destruct t as [v ty l c]. unfold scalar_token in Hs. simpl in Hs.
    destruct ty; try discriminate; reflexivity.
  - (* a string literal *)
    intros t s Hty Hv Hc rest. exists 1%nat. intros [| fuel] Hle; [lia |].
    unfold closed_string in Hc. apply negb_true_iff in Hc.
    simpl. rewrite Hty, Hv. simpl. rewrite Hc. rewrite <- Hty. reflexivity.
  - (* a collection *)
    intros open close form_type end_delimiter body gap forms Ho Hd Hty Hv _ IH
           Hgap rest.
    destruct (IH gap rest close [] form_type end_delimiter Hgap Hty Hv Hd)
      as [fuel0 Hloop].
    exists (S fuel0). intros [| fuel] Hle; [lia |].
    change ((open :: body ++ gap ++ [close]) ++ rest)
      with (open :: ((body ++ gap ++ [close]) ++ rest)).
    rewrite (read_form_opens fuel open _ form_type end_delimiter Ho Hd).
    replace ((body ++ gap ++ [close]) ++ rest)
      with (body ++ gap ++ close :: rest)
      by (rewrite <- !app_assoc; reflexivity).
    apply Hloop. lia.
  - (* a quote sugar *)
    intros t name gap body X Hq Hgap Hr IH rest.
    destruct (IH rest) as [fuel0 Hrf].
    exists (S fuel0). intros [| fuel] Hle; [lia |].
    change ((t :: gap ++ body) ++ rest) with (t :: ((gap ++ body) ++ rest)).
    rewrite (read_form_quote fuel t _ name Hq), <- app_assoc.
    unfold expand_quoted_form, expand_quoted_form_.
    fold (read_useful_form std fuel (gap ++ body ++ rest)).
    rewrite (read_useful_form_reads gap body rest X fuel0 fuel Hgap Hr Hrf
               ltac:(lia)).
    reflexivity.
  - (* the metadata sugar *)
    intros t gap1 body1 gap2 body2 M X Hty Hv Hgap1 Hr1 IH1 Hgap2 Hr2 IH2 rest.
    destruct (IH1 (gap2 ++ body2 ++ rest)) as [fuel1 Hrf1].
    destruct (IH2 rest) as [fuel2 Hrf2].
    exists (S (Nat.max fuel1 fuel2)). intros [| fuel] Hle; [lia |].
    change ((t :: gap1 ++ body1 ++ gap2 ++ body2) ++ rest)
      with (t :: ((gap1 ++ body1 ++ gap2 ++ body2) ++ rest)).
    rewrite (read_form_with_meta fuel t _ Hty Hv).
    replace ((gap1 ++ body1 ++ gap2 ++ body2) ++ rest)
      with (gap1 ++ body1 ++ (gap2 ++ body2 ++ rest))
      by (rewrite <- !app_assoc; reflexivity).
    unfold expand_meta_quoted_form, expand_meta_quoted_form_.
    fold (read_useful_form std fuel (gap1 ++ body1 ++ gap2 ++ body2 ++ rest)).
    rewrite (read_useful_form_reads gap1 body1 _ M fuel1 fuel Hgap1 Hr1 Hrf1
               ltac:(lia)).
    cbn [bind snd fst].
    fold (read_useful_form std fuel (gap2 ++ body2 ++ rest)).
    rewrite (read_useful_form_reads gap2 body2 rest X fuel2 fuel Hgap2 Hr2 Hrf2
               ltac:(lia)).
    reflexivity.
  - (* no form *)
    intros gap rest close acc form_type end_delimiter Hgap Hty Hv Hd.
    exists 1%nat. intros [| fuel] Hle; [lia |].
    rewrite app_nil_r. simpl app.
    apply read_coll_loop_closes; assumption.
  - (* a form and more forms *)
    intros gap1 body rest1 f fs Hgap1 Hr IH1 _ IH2
           gap rest close acc form_type end_delimiter Hgap Hty Hv Hd.
    destruct (IH1 (rest1 ++ gap ++ close :: rest)) as [fuel1 Hrf].
    destruct (IH2 gap rest close (acc ++ [f]) form_type end_delimiter
                Hgap Hty Hv Hd) as [fuel2 Hloop].
    exists (S (Nat.max fuel1 fuel2)). intros [| fuel] Hle; [lia |].
    destruct (Reads_head _ _ Hr) as (t & next & -> & Hs & Hc & Hwt).
    replace ((gap1 ++ (t :: next) ++ rest1) ++ gap ++ close :: rest)
      with (gap1 ++ t :: (next ++ rest1 ++ gap ++ close :: rest))
      by (rewrite <- !app_assoc; reflexivity).
    rewrite (read_coll_loop_reads_on fuel gap1 _ t acc form_type end_delimiter
               Hgap1 Hs Hc Hwt Hd).
    change (t :: next ++ rest1 ++ gap ++ close :: rest)
      with ((t :: next) ++ rest1 ++ gap ++ close :: rest).
    rewrite (Hrf fuel ltac:(lia)). cbn [bind snd fst].
    rewrite (Hloop fuel ltac:(lia)), <- app_assoc. reflexivity.
Qed.

(** X13.  [read_form] reads what is written: on the tokens of a form,
    followed by anything, it returns that form and the cursor just after
    those tokens, as soon as the fuel is enough. *)
Theorem read_form_complete (ts : list Token) (f : Form) (rest : Cursor) :
  Reads std ts f ->
  exists fuel0, forall fuel, (fuel0 <= fuel)%nat ->
    read_form std fuel (ts ++ rest) = Returns (f, rest).
Proof. intros H. exact (proj1 reads_complete ts f H rest). Qed.

Lemma skippable_well_typed (gap : list Token) :
  forallb skippable gap = true -> all_well_typed gap.
Proof.
  intros H. apply Forall_forall. intros t Ht.
  rewrite forallb_forall in H. apply list_elem_of_In in Ht.
  specialize (H t Ht). unfold skippable, well_typed in *.
  destruct (type t); try discriminate; reflexivity.
Qed.

Lemma Reads_well_typed :
  (forall ts f, Reads std ts f -> all_well_typed ts)
  /\ (forall ts fs, ReadsAll std ts fs -> all_well_typed ts).
Proof.
  apply Reads_ReadsAll_mutual; unfold all_well_typed.
  - intros t Hs. apply Forall_singleton.
    unfold scalar_token, well_typed in *.
    destruct (type t); try discriminate; reflexivity.
  - intros t s Hty Hv _. apply Forall_singleton.
    unfold well_typed. rewrite Hty, Hv. reflexivity.
  - intros open close form_type end_delimiter body gap forms Ho Hd Hty Hv _ IH
           Hgap.
    apply Forall_cons. split.
    + unfold opens, well_typed in *.
      destruct (type open); try discriminate;
        destruct (value open); try discriminate; reflexivity.
    + apply Forall_app. split; [exact IH |].
      apply Forall_app. split; [apply skippable_well_typed, Hgap |].
      apply Forall_singleton. unfold well_typed. rewrite Hty, Hv. reflexivity.
  - intros t name gap body X Hq Hgap _ IH.
    apply Forall_cons. split.
    + unfold quote_sugar, well_typed in *.
      destruct (type t); try discriminate;
        destruct (value t); try discriminate; reflexivity.
    + apply Forall_app. split; [apply skippable_well_typed, Hgap | exact IH].
  - intros t gap1 body1 gap2 body2 M X Hty Hv Hgap1 _ IH1 Hgap2 _ IH2.
    apply Forall_cons. split.
    + unfold well_typed. rewrite Hty, Hv. reflexivity.
    + repeat (apply Forall_app; split);
        try (apply skippable_well_typed; assumption); assumption.
  - apply Forall_nil_2.
  - intros gap body rest f fs Hgap _ IH1 _ IH2.
    repeat (apply Forall_app; split);
      try (apply skippable_well_typed; assumption); assumption.
Qed.

Lemma read_forms_loop_mono (n : nat) :
  forall (m : nat) (it : Cursor) (forms out : list Form),
    (n <= m)%nat ->
    read_forms_loop std n it forms = Returns out ->
    read_forms_loop std m it forms = Returns out.
Proof.
  induction n as [| n IH]; intros [| m] it forms out Hle; try discriminate;
    try lia.
  rewrite !read_forms_loop_S.
  unfold read_useful_form, read_useful_form_.
  destruct (read_useful_token it) as [[token it1] |]; [| auto].
  cbn [snd]. destruct (read_form std n it1) as [r1 | | |] eqn:E;
    try discriminate.
  rewrite (proj1 (reader_mono n) m it1 r1 ltac:(lia) E). cbn [bind].
  apply IH. lia.
Qed.

Lemma read_forms_loop_reads (ts : list Token) (fs : list Form) :
  ReadsAll std ts fs ->
  forall (gap : list Token) (acc : list Form),
    forallb skippable gap = true ->
    exists fuel0, forall fuel, (fuel0 <= fuel)%nat ->
      read_forms_loop std fuel (ts ++ gap) acc = Returns (acc ++ fs).
Proof.
  induction 1 as [| gap1 body rest1 f fs Hgap1 Hr Hall IH]; intros gap acc Hgap.
  - exists 1%nat. intros [| fuel] Hle; [lia |].
    rewrite read_forms_loop_S. unfold read_useful_form, read_useful_form_.
    pose proof (read_useful_token_found gap) as Hspec. simpl app.
    destruct (read_useful_token gap) as [[token it'] |].
    + destruct Hspec as (skipped & next & -> & _ & _ & Hu).
      rewrite forallb_app in Hgap. simpl in Hgap. rewrite Hu in Hgap.
      rewrite andb_false_r in Hgap. discriminate.
    + rewrite app_nil_r. reflexivity.
  - destruct (proj1 reads_complete body f Hr (rest1 ++ gap)) as [fuel1 Hrf].
    destruct (IH gap (acc ++ [f]) Hgap) as [fuel2 Hloop].
    exists (S (Nat.max fuel1 fuel2)). intros [| fuel] Hle; [lia |].
    rewrite read_forms_loop_S.
    replace ((gap1 ++ body ++ rest1) ++ gap) with (gap1 ++ body ++ rest1 ++ gap)
      by (rewrite <- !app_assoc; reflexivity).
    rewrite (read_useful_form_reads gap1 body (rest1 ++ gap) f fuel1 fuel
               Hgap1 Hr Hrf ltac:(lia)).
    cbn [bind snd fst]. rewrite (Hloop fuel ltac:(lia)), <- app_assoc.
    reflexivity.
Qed.

(** X14.  [read_forms] reads what is written: on the tokens of forms
    written one after the other, white space and comments allowed before
    each and at the end, it returns exactly those forms. *)
Theorem read_forms_complete (ts gap : list Token) (forms : list Form) :
  ReadsAll std ts forms ->
  forallb skippable gap = true ->
  read_forms std (ts ++ gap) = Returns forms.
Proof.
  intros Hall Hgap.
  assert (Hwt : all_well_typed (ts ++ gap)).
  { apply Forall_app. split;
      [exact (proj2 Reads_well_typed _ _ Hall) | apply skippable_well_typed, Hgap]. }
  destruct (read_forms_terminates std _ Hwt) as [out Hout].
  rewrite Hout. f_equal.
  destruct (read_forms_loop_reads ts forms Hall gap [] Hgap) as [fuel0 Hloop].
  unfold read_forms in Hout.
  assert (Hbig := fun Hle =>
            read_forms_loop_mono _ (Nat.max fuel0 (2 * length (ts ++ gap) + 2))
              _ _ _ Hle Hout).
  specialize (Hbig ltac:(lia)).
  rewrite (Hloop (Nat.max fuel0 (2 * length (ts ++ gap) + 2)) ltac:(lia))
    in Hbig.
  simpl in Hbig. congruence.
Qed.

(** ** The errors of a collection *)

Lemma close_coll_odd_map
    (form_type : form.Type_) (forms : list Form) (e : Special) :
  close_coll std form_type forms = FSpecial e ->
  form_type = form.MAP /\ Nat.even (length forms) = false
  /\ is_odd_map_error e = true.
Proof.
  destruct form_type; simpl; try discriminate.
  unfold list_to_map. rewrite list_to_map_from_parity.
  destruct (Nat.even (length forms)); [discriminate |].
  intros H. injection H as <-. repeat split.
Qed.

Lemma value_fits_well_typed (t : Token) :
  value_fits t = true -> well_typed t = true.
Proof.
  unfold value_fits, well_typed.
  destruct (type t); destruct (value t); intros H; try discriminate H;
    reflexivity.
Qed.

(** A token that [read_form] returns as a scalar is a scalar of the
    grammar. *)
Lemma read_form_scalar_reads (token t : Token) (next : Cursor) :
  value_fits token = true ->
  skippable token = false ->
  opens token = None ->
  quote_sugar token = None ->
  read_form std 1 (token :: next) = Returns (FToken t, next) ->
  Reads std [token] (FToken t).
Proof.
  destruct token as [v ty l c]. unfold value_fits, skippable, opens, quote_sugar.
  cbn [type value].
  destruct ty; destruct v as [b | ch | n | d | s]; try discriminate.
  - (* SPECIAL_CHARS *)
    intros Hvf _ Ho Hq. exfalso.
    destruct (String.eqb s "#{") eqn:E1.
    + apply String.eqb_eq in E1. subst s. discriminate Ho.
    + rewrite orb_false_r in Hvf. rewrite Hvf in Hq. discriminate Hq.
  - (* SPECIAL_CHAR *)
    intros Hvf _ Ho Hq H. exfalso.
    destruct ch as [[] [] [] [] [] [] [] []]; try discriminate Hvf;
      try discriminate Ho; try discriminate Hq; try discriminate H.
    unfold char_in in H. cbn in H.
    unfold expand_meta_quoted_form_, read_useful_form_ in H.
    destruct (read_useful_token next) as [[t1 it1] |]; cbn in H;
      discriminate H.
  - (* STRING *)
    intros _ _ _ _. simpl.
    destruct ((String.length s <? 2)%nat || negb (Ascii.eqb (back s) dquote))
      eqn:Hc; [discriminate |].
    intros H. injection H as <-.
    apply (Reads_string std (mkToken (value.STRING s) type.STRING l c) s);
      try reflexivity.
    unfold closed_string. rewrite Hc. reflexivity.
  - intros _ _ _ _ H. injection H as <-. apply Reads_scalar. reflexivity.
  - intros _ _ _ _ H. injection H as <-. apply Reads_scalar. reflexivity.
  - intros _ _ _ _ H. injection H as <-. apply Reads_scalar. reflexivity.
  - intros _ _ _ _ H. injection H as <-. apply Reads_scalar. reflexivity.
Qed.

(** Soundness of the grammar: a form that [read_form] returns before the
    end of the stream is read from the tokens of a form of the grammar;
    the loop of [read_coll] that stops at a token has read whole forms up
    to it. *)
Lemma reader_sound (fuel : nat) :
  read_form_sound std fuel /\ read_coll_loop_sound std fuel.
Proof.
  induction fuel as [| fuel [IHform IHloop]]; [split; intros ?; discriminate |].
  assert (IHuseful : forall it it' f,
             Forall (fun t => value_fits t = true) it ->
             read_useful_form std fuel it = Returns (Some (f, it')) ->
             it' <> [] ->
             exists gap ts,
               it = gap ++ ts ++ it' /\ forallb skippable gap = true
               /\ Reads std ts f).
  { intros it it' f Hvf H Hne. apply read_useful_form_some in H.
    destruct H as (token & it1 & Hu & Hrf).
    pose proof (read_useful_token_found it) as Hf. rewrite Hu in Hf.
    destruct Hf as (skipped & next & -> & -> & Hs & Hk).
    apply Forall_app in Hvf. destruct Hvf as [_ Hvf].
    destruct (IHform _ _ _ _ Hvf Hk Hrf Hne) as (ts & Hts & Hr).
    exists skipped, ts. rewrite Hts. repeat split; assumption. }
  split.
  - intros token next it' f Hvf Hk.
    pose proof Hvf as Hvf'. apply Forall_cons in Hvf'.
    destruct Hvf' as [Hvt Hvn].
    destruct (read_form_shape token next)
      as [(form_type & end_delimiter & Ho & Hd & H)
         | [(name & Hq & H) | [(Hty & Hv & H) | [[message H]
         | [(t & _ & Ho & Hq & H) | [_ H]]]]]];
      rewrite (H fuel).
    + (* a collection *)
      intros E Hne.
      destruct (IHloop _ _ _ _ _ _ Hvn E)
        as [(close & fs & (before & gap & -> & Hall & Hgap) & Hty & Hv & ->)
           | [(tk & after & fs & c & _ & _ & _ & _ & ->) | [_ ->]]];
        try contradiction.
      exists (token :: before ++ gap ++ [close]). split.
      * simpl. rewrite <- !app_assoc. reflexivity.
      * apply (Reads_coll std token close form_type end_delimiter before gap fs);
          assumption.
    + (* quote sugar *)
      unfold expand_quoted_form, expand_quoted_form_.
      fold (read_useful_form std fuel next).
      destruct (read_useful_form std fuel next) as [[[f1 it1] |] | | |] eqn:E;
        cbn [bind]; try discriminate; intros E' Hne; injection E' as <- <-;
        [| contradiction].
      destruct (IHuseful _ _ _ Hvn E Hne) as (gap & ts & -> & Hgap & Hr).
      exists (token :: gap ++ ts). split.
      * simpl. rewrite <- !app_assoc. reflexivity.
      * apply Reads_quote; assumption.
    + (* metadata *)
      unfold expand_meta_quoted_form, expand_meta_quoted_form_.
      fold (read_useful_form std fuel next).
      destruct (read_useful_form std fuel next) as [[[f1 it1] |] | | |] eqn:E;
        cbn [bind]; try discriminate.
      2:{ intros E' Hne; injection E' as <- <-. contradiction. }
      cbn [snd fst]. fold (read_useful_form std fuel it1).
      destruct (read_useful_form std fuel it1) as [[[f2 it2] |] | | |] eqn:E2;
        cbn [bind]; try discriminate; intros E' Hne; injection E' as <- <-;
        [| contradiction].
      assert (Hne1 : it1 <> []).
      { intros ->. unfold read_useful_form, read_useful_form_ in E2.
        simpl in E2. discriminate. }
      destruct (IHuseful _ _ _ Hvn E Hne1) as (gap1 & ts1 & -> & Hgap1 & Hr1).
      assert (Hv1 : Forall (fun t => value_fits t = true) it1).
      { apply Forall_app in Hvn. destruct Hvn as [_ Hvn].
        apply Forall_app in Hvn. apply Hvn. }
      destruct (IHuseful _ _ _ Hv1 E2 Hne) as (gap2 & ts2 & -> & Hgap2 & Hr2).
      exists (token :: gap1 ++ ts1 ++ gap2 ++ ts2). split.
      * simpl. rewrite <- !app_assoc. reflexivity.
      * apply Reads_meta; assumption.
    + intros E' Hne; injection E' as <- <-. contradiction.
    + (* a scalar *)
      intros E' _. injection E' as <- <-. exists [token].
      split; [reflexivity |].
      apply (read_form_scalar_reads token t next Hvt Hk Ho Hq). apply (H 0%nat).
    + discriminate.
  - intros it it' forms form_type end_delimiter f Hvf.
    pose proof (read_useful_token_found it) as Hf.
    destruct (read_coll_loop_shape it form_type end_delimiter)
      as [[_ H] | (token & it1 & Hu & [(Hty & Hv & H) | [(c & Hc & Hne & H)
         | [(_ & _ & H) | [Hwt H]]]])];
      rewrite (H fuel); try rewrite Hu in Hf.
    + intros E'; injection E' as <- <-. right; right. split; reflexivity.
    + destruct Hf as (skipped & next & -> & -> & Hs & Hk).
      intros E'; injection E' as <- <-. left. exists token, [].
      split; [exists [], skipped; split; [reflexivity |];
              split; [constructor | exact Hs] |].
      rewrite app_nil_r. split; [exact Hty |]. split; [exact Hv | reflexivity].
    + destruct Hf as (skipped & next & -> & -> & Hs & Hk).
      intros E'; injection E' as <- <-. right; left.
      exists token, next, [], c.
      split; [exists [], skipped; split; [reflexivity |];
              split; [constructor | exact Hs] |].
      split; [exact Hc |]. split; [exact Hne |]. split; reflexivity.
    + destruct Hf as (skipped & next & -> & -> & Hs & Hk).
      destruct (read_form std fuel (token :: next)) as [[f1 it2] | | |] eqn:E;
        try discriminate.
      cbn [bind snd fst]. intros E2.
      apply Forall_app in Hvf. destruct Hvf as [_ Hvf].
      assert (Hv2 : Forall (fun t => value_fits t = true) it2).
      { destruct it2 as [| t2 r2]; [apply Forall_nil_2 |].
        destruct (IHform _ _ _ _ Hvf Hk E ltac:(discriminate)) as (ts & Hts & _).
        rewrite Hts in Hvf. apply Forall_app in Hvf. apply Hvf. }
      assert (Hstep : forall fs2 tk after,
                 meets std it2 fs2 tk after ->
                 meets std (skipped ++ token :: next) (f1 :: fs2) tk after).
      { intros fs2 tk after (before & gap & Hit2 & Hall & Hgap).
        assert (Hne2 : it2 <> []) by (rewrite Hit2; destruct before, gap; discriminate).
        destruct (IHform _ _ _ _ Hvf Hk E Hne2) as (ts & Hts & Hr).
        exists (skipped ++ ts ++ before), gap. split; [| split; [| exact Hgap]].
        - rewrite Hts, Hit2, <- !app_assoc. reflexivity.
        - apply ReadsAll_cons; assumption. }
      destruct (IHloop _ _ _ _ _ _ Hv2 E2)
        as [(close & fs & Hm & Hty & Hv & ->)
           | [(tk & after & fs & c & Hm & Hc & Hne & -> & ->) | [-> ->]]].
      * left. exists close, (f1 :: fs). split; [apply Hstep, Hm |].
        rewrite <- app_assoc. split; [exact Hty |].
        split; [exact Hv | reflexivity].
      * right; left. exists tk, after, (f1 :: fs), c.
        split; [apply Hstep, Hm |]. split; [exact Hc |].
        split; [exact Hne |]. split; reflexivity.
      * right; right. split; reflexivity.
    + discriminate.
Qed.

(** X15.  In the loop of [read_coll] for a collection, on tokens as
    [tokenize] makes them, an error comes out in three ways only: the
    stream ends before the closing delimiter of the collection; the loop
    itself, after whole forms, meets a closing delimiter that is not its
    own; the loop meets its closing brace after an odd number of forms of a
    map.  The error of a form inside the collection never comes out: a
    form that ends the stream, as every form with an error other than the
    odd map's does, makes the collection answer with its own end-of-stream
    error, whatever that form is. *)
Theorem read_coll_error_kinds
    (fuel : nat) (it : Cursor) (forms : list Form) (form_type : form.Type_)
    (end_delimiter : ascii) :
  Forall (fun t => value_fits t = true) it ->
  TYPE_TO_DELIMITER form_type = Some end_delimiter ->
  (forall (e : Special) (it' : Cursor),
      read_coll_loop std fuel it forms form_type end_delimiter
      = Returns (FSpecial e, it') ->
      (FSpecial e = eof_no_delimiter end_delimiter /\ it' = [])
      \/ (exists token after fs c,
             meets std it fs token after
             /\ closes token c /\ c <> end_delimiter
             /\ FSpecial e = unmatched_delimiter token c /\ it' = [])
      \/ (exists close fs,
             meets std it fs close it'
             /\ type close = type.SPECIAL_CHAR
             /\ value close = value.CHAR end_delimiter
             /\ form_type = form.MAP
             /\ Nat.even (length (forms ++ fs)) = false
             /\ is_odd_map_error e = true))
  /\ (forall (token : Token) (it1 it2 : Cursor) (f : Form),
         read_useful_token it = Some (token, it1) ->
         closing_token token = false ->
         read_form std fuel it1 = Returns (f, it2) ->
         it2 = [] \/ benign f = false ->
         read_coll_loop std (S fuel) it forms form_type end_delimiter
         = Returns (eof_no_delimiter end_delimiter, [])).
Proof.
  intros Hvf Hd. split.
  - intros e it' H.
    destruct (proj2 (reader_sound fuel) _ _ _ _ _ _ Hvf H)
      as [(close & fs & Hm & Hty & Hv & Hf)
         | [(tk & after & fs & c & Hm & Hc & Hne & Hf & ->) | [Hf ->]]].
    + right; right. exists close, fs.
      destruct (close_coll_odd_map _ _ _ (eq_sym Hf)) as (-> & Hodd & He).
      split; [exact Hm |]. split; [exact Hty |]. split; [exact Hv |].
      split; [reflexivity |]. split; [exact Hodd | exact He].
    + right; left. exists tk, after, fs, c.
      split; [exact Hm |]. split; [exact Hc |]. split; [exact Hne |].
      split; [exact Hf | reflexivity].
    + left. split; [exact Hf | reflexivity].
  - intros token it1 it2 f Hu Hct Hrf Hend.
    assert (Hit2 : it2 = []).
    { destruct Hend as [-> | Hb]; [reflexivity |].
      destruct it2 as [| t2 r2]; [reflexivity |].
      rewrite (proj1 (reader_benign fuel) _ _ _ Hrf ltac:(discriminate)) in Hb.
      discriminate. }
    subst it2.
    destruct fuel as [| fuel]; [discriminate |].
    destruct (read_coll_loop_shape it form_type end_delimiter)
      as [[Hn _] | (token' & it1' & Hu' & [(Hty & Hv & _) | [(c & Hc & _ & _)
         | [(_ & _ & H) | [Hwt _]]]])].
    + congruence.
    + exfalso. rewrite Hu in Hu'. injection Hu' as <- <-.
      unfold closing_token in Hct. rewrite Hty, Hv in Hct.
      destruct form_type; try discriminate; injection Hd as <-; discriminate.
    + exfalso. rewrite Hu in Hu'. injection Hu' as <- <-.
      destruct Hc as (Hty & Hv & Hc). unfold closing_token in Hct.
      rewrite Hty, Hv, Hc in Hct. discriminate.
    + rewrite Hu in Hu'. injection Hu' as <- <-.
      rewrite (H (S fuel)), Hrf. reflexivity.
    + exfalso. rewrite Hu in Hu'. injection Hu' as <- <-.
      pose proof (read_useful_token_found it) as Hf. rewrite Hu in Hf.
      destruct Hf as (skipped & next & -> & _ & _ & _).
      apply Forall_app in Hvf. destruct Hvf as [_ Hvf].
      apply Forall_cons in Hvf. destruct Hvf as [Hvt _].
      rewrite (value_fits_well_typed _ Hvt) in Hwt. discriminate.
Qed.

End MoreFacts.

(** * The printer *)

Section PrinterFacts.
Variable std : StdLib.
Variable to_string_double : Z -> string.

Lemma digit_char_digit (d : Z) :
  0 <= d <= 9 -> is_digit (digit_char d) = true /\ digit_value (digit_char d) = d.
Proof.
  intros H.
  assert (E : d = 0 \/ d = 1 \/ d = 2 \/ d = 3 \/ d = 4 \/ d = 5 \/ d = 6
              \/ d = 7 \/ d = 8 \/ d = 9) by lia.
  repeat (destruct E as [-> | E]; [split; reflexivity |]).
  subst d. split; reflexivity.
Qed.

Lemma decimal_value_append (a b : string) :
  forall acc : Z,
    decimal_value acc (String.append a b) = decimal_value (decimal_value acc a) b.
Proof. induction a as [| c a IH]; intros acc; simpl; [reflexivity | apply IH]. Qed.

Lemma all_digits_append (a b : string) :
  all_digits (String.append a b) = all_digits a && all_digits b.
Proof.
  induction a as [| c a IH]; simpl; [reflexivity |].
  rewrite IH, andb_assoc. reflexivity.
Qed.

(** [to_digits] writes the digits of [n]: they are digits, there is one at
    least, and they denote [n]. *)
Lemma to_digits_spec (fuel : nat) :
  forall (n : Z) (acc : string),
    0 <= n < 10 ^ Z.of_nat (S fuel) ->
    exists ds,
      to_digits (S fuel) n acc = String.append ds acc
      /\ all_digits ds = true
      /\ ds <> EmptyString
      /\ forall a, decimal_value a ds = a * 10 ^ Z.of_nat (String.length ds) + n.
Proof.
  induction fuel as [| fuel IH]; intros n acc Hn.
  - change (10 ^ Z.of_nat 1) with 10 in Hn.
    destruct (digit_char_digit (n mod 10)) as [Hd Hv];
      [pose proof (Z.mod_pos_bound n 10 ltac:(lia)); lia |].
    exists (String (digit_char (n mod 10)) EmptyString).
    cbn [to_digits]. destruct (Z.ltb_spec n 10) as [_ | Hge]; [| lia].
    split; [reflexivity |]. split; [simpl; rewrite Hd; reflexivity |].
    split; [discriminate |].
    intros a. cbn [decimal_value String.length]. rewrite Hv.
    rewrite Z.mod_small by lia. change (10 ^ Z.of_nat 1) with 10. lia.
  - destruct (digit_char_digit (n mod 10)) as [Hd Hv];
      [pose proof (Z.mod_pos_bound n 10 ltac:(lia)); lia |].
    remember (S fuel) as k eqn:Hk.
    cbn [to_digits]. destruct (Z.ltb_spec n 10) as [Hlt | Hge].
    + exists (String (digit_char (n mod 10)) EmptyString).
      split; [reflexivity |]. split; [simpl; rewrite Hd; reflexivity |].
      split; [discriminate |].
      intros a. cbn [decimal_value String.length]. rewrite Hv.
      rewrite Z.mod_small by lia. change (10 ^ Z.of_nat 1) with 10. lia.
    + assert (Hq : 0 <= n / 10 < 10 ^ Z.of_nat k).
      { split; [apply Z.div_pos; lia |].
        apply Z.div_lt_upper_bound; [lia |].
        replace (Z.of_nat (S k)) with (Z.succ (Z.of_nat k)) in Hn by lia.
        rewrite Z.pow_succ_r in Hn by lia. lia. }
      subst k.
      destruct (IH (n / 10) (String (digit_char (n mod 10)) acc) Hq)
        as (ds & -> & Hall & Hne & Hval).
      exists (String.append ds (String (digit_char (n mod 10)) EmptyString)).
      split; [rewrite append_assoc; reflexivity |].
      split; [rewrite all_digits_append, Hall; simpl; rewrite Hd; reflexivity |].
      split; [destruct ds; [contradiction | discriminate] |].
      intros a. rewrite decimal_value_append, Hval.
      cbn [decimal_value]. rewrite Hv, length_append.
      cbn [String.length].
      replace (Z.of_nat (String.length ds + 1)) with (Z.succ (Z.of_nat (String.length ds)))
        by lia.
      rewrite Z.pow_succ_r by lia.
      pose proof (Z.div_mod n 10 ltac:(lia)). lia.
Qed.

Lemma to_digits_nonempty (fuel : nat) (m : Z) (s : string) :
  to_digits (S fuel) m s <> EmptyString.
Proof.
  revert m s. induction fuel as [| fuel IH]; intros m s.
  - cbn [to_digits]. destruct (m <? 10); discriminate.
  - remember (S fuel) as k. cbn [to_digits]. subst k.
    destruct (m <? 10); [discriminate | apply IH].
Qed.

Lemma to_string_long_nonempty (n : Z) : to_string_long n <> EmptyString.
Proof.
  unfold to_string_long. destruct (n <? 0); [discriminate |].
  apply (to_digits_nonempty 18).
Qed.

(** X16.  An integer that is printed parses back to itself: [std::stol]
    reads the sign and the digits that [std::to_string] writes, over the
    whole range of a [long]. *)
Theorem parse_prStr_long (t : Token) (n : Z) :
  value t = value.LONG n ->
  LONG_MIN <= n <= LONG_MAX ->
  stol (prStr_token to_string_double t) = Returns n
  /\ parse std (prStr_token to_string_double t) type.NUMBER = Returns (value t).
Proof.
  intros Hv Hn. unfold prStr_token. rewrite Hv.
  assert (Hstol : stol (to_string_long n) = Returns n
                  /\ has_dot (to_string_long n) = false).
  { unfold to_string_long, LONG_MIN, LONG_MAX in *.
    destruct (Z.ltb_spec n 0) as [Hneg | Hpos].
    - destruct (to_digits_spec 18 (- n) EmptyString) as (ds & -> & Hall & Hne & Hval).
      { change (10 ^ Z.of_nat 19) with 10000000000000000000. lia. }
      rewrite append_empty_r. split.
      + unfold stol. cbn [span is_space char_in existsb Ascii.eqb Bool.eqb orb snd fst].
        change (is_space "-") with false. cbn [snd fst Ascii.eqb Bool.eqb andb].
        change (Ascii.eqb "-" "-") with true. cbn [fst snd].
        rewrite (proj1 (all_digits_span ds) Hall).
        destruct ds as [| c r]; [contradiction |].
        rewrite (Hval 0). unfold LONG_MIN, LONG_MAX.
        destruct (Z.leb_spec (- 2 ^ 63) (- (0 * 10 ^ Z.of_nat (String.length (String c r)) + - n)));
          [| lia].
        destruct (Z.leb_spec (- (0 * 10 ^ Z.of_nat (String.length (String c r)) + - n))
                    (2 ^ 63 - 1)); [| lia].
        cbn [andb]. f_equal; lia.
      + cbn [has_dot]. change (Ascii.eqb "-" ".") with false.
        cbn [orb]. apply all_digits_no_dot, Hall.
    - destruct (to_digits_spec 18 n EmptyString) as (ds & -> & Hall & Hne & Hval).
      { change (10 ^ Z.of_nat 19) with 10000000000000000000. lia. }
      rewrite append_empty_r. split; [| apply all_digits_no_dot, Hall].
      destruct ds as [| c r]; [contradiction |].
      pose proof Hall as Hc. simpl in Hc. apply andb_true_iff in Hc.
      destruct Hc as [Hc _].
      destruct (stol_leading_digits c r Hc) as [_ ->].
      rewrite (proj1 (all_digits_span _) Hall), (Hval 0).
      unfold LONG_MAX.
      destruct (Z.leb_spec (0 * 10 ^ Z.of_nat (String.length (String c r)) + n)
                  (2 ^ 63 - 1)); [| lia].
      f_equal; lia. }
  destruct Hstol as [Hs Hd]. split; [exact Hs |].
  unfold parse. rewrite Hd, Hs. reflexivity.
Qed.

(** The loop of the template [prStr], started on a text that is not
    empty: every item is added after a space. *)
Lemma concat_cons_append (sep a b : string) (rest : list string) :
  String.concat sep (String.append a (String.append sep b) :: rest)
  = String.append a (String.append sep (String.concat sep (b :: rest))).
Proof.
  destruct rest as [| r rs]; [reflexivity |].
  cbn [String.concat]. rewrite !append_assoc. reflexivity.
Qed.

Lemma separate_nonempty (s : string) :
  s <> EmptyString -> separate s = String.append s " ".
Proof. destruct s; [contradiction | reflexivity]. Qed.

Lemma join_from {T : Type} (print : T -> string) (items : list T) :
  forall s : string,
    s <> EmptyString ->
    fold_left (fun s item => String.append (separate s) (print item)) items s
    = String.concat " " (s :: map print items).
Proof.
  induction items as [| x items IH]; intros s Hs; [reflexivity |].
  cbn [fold_left map]. rewrite separate_nonempty by exact Hs.
  rewrite IH by (destruct s; [contradiction | discriminate]).
  rewrite append_assoc. apply concat_cons_append.
Qed.

Lemma prStr_list_join {T : Type} (print : T -> string) (items : list T) :
  prStr_list print items = String.concat " " (drop_empty (map print items)).
Proof.
  unfold prStr_list.
  induction items as [| x items IH]; [reflexivity |].
  cbn [fold_left map drop_empty]. cbn [separate String.length Nat.ltb Nat.leb].
  change (String.append EmptyString (print x)) with (print x).
  destruct (print x) as [| c r] eqn:E; [exact IH |].
  rewrite join_from by discriminate. reflexivity.
Qed.

Lemma drop_empty_nonempty (l : list string) :
  Forall (fun s => s <> EmptyString) l -> drop_empty l = l.
Proof. intros [| [| c r] l' H _]; [reflexivity | contradiction | reflexivity]. Qed.

(** X17.  A list, a vector and a set are printed as their items in the
    order of iteration, one space between two items.  The items that print
    as nothing at the head are left out with their space; after the first
    item that prints as something, an item that prints as nothing still
    gets its space. *)
Theorem prStr_items_join (items : list ZachLisp.Form) (address : positive) :
  let body :=
    String.concat " " (drop_empty (map (prStr to_string_double) items)) in
  prStr to_string_double (ZachLisp.FList items)
  = String.append "(" (String.append body ")")
  /\ prStr to_string_double (ZachLisp.FVector items)
     = String.append "[" (String.append body "]")
  /\ prStr to_string_double (ZachLisp.FSet address items)
     = String.append "#{" (String.append body "}").
Proof.
  intros body. subst body. cbn [prStr].
  rewrite prStr_list_join. repeat split.
Qed.

(** X18.  A map is printed as its entries in the order of iteration, the
    key, a space and the value, one space between two entries; no entry is
    left out, since an entry prints as the space at least. *)
Theorem prStr_map_join
    (map : list (ZachLisp.Form * ZachLisp.Form)) (address : positive) :
  prStr to_string_double (ZachLisp.FMap address map)
  = String.append "{"
      (String.append
         (String.concat " "
            (List.map (fun item : ZachLisp.Form * ZachLisp.Form =>
                         String.append (prStr to_string_double (fst item))
                           (String.append " " (prStr to_string_double (snd item))))
               map))
         "}").
Proof.
  cbn [prStr]. do 2 f_equal.
  set (print := fun item : ZachLisp.Form * ZachLisp.Form =>
                  String.append (prStr to_string_double (fst item))
                    (String.append " " (prStr to_string_double (snd item)))).
  transitivity (prStr_list print map).
  - unfold prStr_map, prStr_list.
    assert (H : forall s0 : string,
               fold_left (fun s item =>
                            let '(first, second) := item in
                            String.append (separate s)
                              (String.append (prStr to_string_double first)
                                 (String.append " "
                                    (prStr to_string_double second))))
                 map s0
               = fold_left (fun s item => String.append (separate s) (print item))
                   map s0).
    { induction map as [| [first second] map IH]; intros s0; [reflexivity |].
      cbn [fold_left]. apply IH. }
    apply H.
  - rewrite prStr_list_join. f_equal. apply drop_empty_nonempty.
    apply Forall_map, Forall_forall. intros [first second] _. unfold print.
    cbn [fst snd]. destruct (prStr to_string_double first); discriminate.
Qed.

(** X19.  Nothing but a token with an empty text that is no string literal
    prints as the empty text, when [std::to_string] of a [double] never
    gives it. *)
Theorem prStr_empty (form : ZachLisp.Form) :
  (forall d, to_string_double d <> EmptyString) ->
  prStr to_string_double form = EmptyString <-> prints_nothing form = true.
Proof.
  intros Hdouble.
  destruct form as [e | t | l | v | a m | a s]; cbn [prStr prints_nothing];
    try (split; discriminate).
  unfold prStr_token. destruct (value t) as [[] | c | n | d | [| c r]];
    try (split; discriminate).
  - split; [intros H; destruct (to_string_long_nonempty n H) | discriminate].
  - split; [intros H; destruct (Hdouble d H) | discriminate].
  - destruct (type.eqb (type t) type.STRING); split; try discriminate; reflexivity.
  - destruct (type.eqb (type t) type.STRING); split; discriminate.
Qed.

End PrinterFacts.

(** * Further instances on the sample library *)

Lemma tokenize_lexed_witness :
  lexed sample_std "(1" 0 1 [tok_char "(" 1; tok_long 1 2]
  /\ Forall (fun t => 1 <= column t <= INT_MAX /\ 1 <= line t <= INT_MAX)
       [tok_char "(" 1; tok_long 1 2].
Proof.
  apply (tokenize_lexed sample_std 3 "(1" 0 1);
    try reflexivity; unfold INT_MAX; simpl; lia.
Defined.

Lemma parse_integer_literal_witness :
  parse sample_std "42" type.NUMBER = Returns (value.LONG 42).
Proof.
  apply (parse_integer_literal sample_std "42"); [reflexivity | discriminate].
Defined.

Lemma tokenize_value_fits_witness :
  Forall (fun t => value_fits t = true) [tok_char "(" 1; tok_long 1 2].
Proof. apply (tokenize_value_fits sample_std 3 "(1" 0 1). reflexivity. Defined.

Lemma read_forms_errors_last_witness :
  benign (FToken (tok_long 1 1)) = true.
Proof.
  apply (read_forms_errors_last sample_std
           [tok_long 1 1; tok_space 2; tok_char ")" 3]
           [FToken (tok_long 1 1); unmatched_delimiter (tok_char ")" 3) ")"]
           0 (FToken (tok_long 1 1))).
  - reflexivity.
  - reflexivity.
  - simpl. lia.
Defined.

Lemma read_forms_unskipped_witness :
  forallb unskipped [FToken (tok_long 1 2); FToken (tok_symbol "x" 4)] = true.
Proof.
  apply (read_forms_unskipped sample_std
           [tok_space 1; tok_long 1 2; tok_space 3; tok_symbol "x" 4]).
  reflexivity.
Defined.

Lemma read_string_literal_witness :
  read sample_std (String dquote (String.append "a\n" (String dquote EmptyString)))
  = Returns [FToken (mkToken (value.STRING "a\n") type.STRING 1 1)].
Proof. apply (read_string_literal sample_std "a\n"). reflexivity. Defined.

Lemma read_string_literal_unclosed_witness :
  read sample_std (String dquote (String backslash (String dquote EmptyString)))
  = Returns [FToken (mkToken (value.STRING (String backslash EmptyString))
                       type.STRING 1 1)].
Proof.
  apply (read_string_literal_unclosed sample_std
           (String backslash (String dquote EmptyString))).
  reflexivity.
Defined.

Lemma read_form_complete_witness :
  exists fuel0, forall fuel, (fuel0 <= fuel)%nat ->
    read_form sample_std fuel
      ([tok_char "[" 1; tok_long 1 2; tok_char "]" 3] ++ [tok_space 4])
    = Returns (FVector [FToken (tok_long 1 2)], [tok_space 4]).
Proof.
  apply (read_form_complete sample_std
           [tok_char "[" 1; tok_long 1 2; tok_char "]" 3]
           (FVector [FToken (tok_long 1 2)]) [tok_space 4]).
  apply (Reads_coll sample_std (tok_char "[" 1) (tok_char "]" 3) form.VECTOR "]"
           [tok_long 1 2] [] [FToken (tok_long 1 2)]);
    try reflexivity.
  apply (ReadsAll_cons sample_std [] [tok_long 1 2] [] (FToken (tok_long 1 2)) []).
  - reflexivity.
  - apply Reads_scalar. reflexivity.
  - apply ReadsAll_nil.
Defined.

Lemma read_forms_complete_witness :
  read_forms sample_std
    ([tok_long 1 1; tok_space 2; tok_long 2 3] ++ [tok_space 4])
  = Returns [FToken (tok_long 1 1); FToken (tok_long 2 3)].
Proof.
  apply (read_forms_complete sample_std
           [tok_long 1 1; tok_space 2; tok_long 2 3] [tok_space 4]
           [FToken (tok_long 1 1); FToken (tok_long 2 3)]).
  - apply (ReadsAll_cons sample_std [] [tok_long 1 1] [tok_space 2; tok_long 2 3]
             (FToken (tok_long 1 1)) [FToken (tok_long 2 3)]).
    + reflexivity.
    + apply Reads_scalar. reflexivity.
    + apply (ReadsAll_cons sample_std [tok_space 2] [tok_long 2 3] []
               (FToken (tok_long 2 3)) []).
      * reflexivity.
      * apply Reads_scalar. reflexivity.
      * apply ReadsAll_nil.
  - reflexivity.
Defined.

Lemma read_coll_error_kinds_witness :
  let it := [tok_long 1 2; tok_space 3; tok_char ")" 4; tok_long 2 5] in
  let e :=
    mkSpecial "ReaderError" "Unmatched delimiter: )" (Some (tok_char ")" 4)) in
  (FSpecial e = eof_no_delimiter "]" /\ @nil Token = [])
  \/ (exists token after fs c,
         meets sample_std it fs token after
         /\ closes token c /\ c <> "]"%char
         /\ FSpecial e = unmatched_delimiter token c /\ @nil Token = [])
  \/ (exists close fs,
         meets sample_std it fs close []
         /\ type close = type.SPECIAL_CHAR
         /\ value close = value.CHAR "]"
         /\ form.VECTOR = form.MAP
         /\ Nat.even (length ([] ++ fs)) = false
         /\ is_odd_map_error e = true).
Proof.
  intros it e.
  assert (Hvf : Forall (fun t => value_fits t = true) it)
    by (repeat constructor).
  apply (proj1 (read_coll_error_kinds sample_std 5 it [] form.VECTOR "]"
                  Hvf eq_refl) e []).
  reflexivity.
Defined.

Lemma parse_prStr_long_witness :
  let t := tok_long (-42) 1 in
  stol (prStr_token (fun _ => "0.000000"%string) t) = Returns (-42)
  /\ parse sample_std (prStr_token (fun _ => "0.000000"%string) t) type.NUMBER
     = Returns (value.LONG (-42)).
Proof.
  intros t.
  apply (parse_prStr_long sample_std (fun _ => "0.000000"%string) t (-42)).
  - reflexivity.
  - unfold LONG_MIN, LONG_MAX. lia.
Defined.

Lemma prStr_empty_witness :
  let form := ZachLisp.FToken (tok_symbol EmptyString 1) in
  prStr (fun _ => "0.000000"%string) form = EmptyString
  <-> prints_nothing form = true.
Proof.
  intros form.
  apply (prStr_empty (fun _ => "0.000000"%string) form).
  intros d. discriminate.
Defined.
